(** * Horizen (zen): certificate custom fields and the block-template RPC

    A shallow embedding of
      - [src/sc/sidechaintypes.cpp]: the CCTP library size check, the custom
        certificate field configurations and the two custom field variants
        with their memoised validation;
      - [src/rpc/mining.cpp]: the control flow of [getblocktemplate]
        (preconditions, proposal branch, long poll, template cache and the
        [mutable] list).

    Integers follow the C++ types of the source: [int32_t] configuration
    values are [Z], container sizes are [nat], and a comparison that mixes
    [size_t] with a signed integer goes through [to_size_t], the conversion
    C++ applies to the signed operand.  The cryptographic library and the
    node's collaborators are parameters. *)

From Stdlib Require Import ZArith String Ascii List Bool Lia.
From Stdlib.Strings Require Import Byte.
Import ListNotations.

Local Open Scope Z_scope.

(** ** Outcomes shared by both files *)

(** What a call does besides returning: the lines it logs and the library
    operations it invokes, in program order. *)
Inductive event : Type :=
| EvLog (line : string)
| EvDeserialize (buffer : list byte)
| EvDecompress (compressed : list byte) (expected_size : Z).

(** A call either returns a value, dies on a failed [assert], or leaves by a
    C++ exception; either way it leaves the events emitted so far. *)
Inductive outcome (A : Type) : Type :=
| Returned (a : A)
| Aborted (assertion : string)
| Thrown (what : string).
Arguments Returned {A} a.
Arguments Aborted {A} assertion.
Arguments Thrown {A} what.

Definition M (A : Type) : Type := list event * outcome A.

Definition ret {A} (a : A) : M A := ([], Returned a).

Definition bind {A B} (m : M A) (k : A -> M B) : M B :=
  match m with
  | (tr, Returned a) => let (tr', r) := k a in (tr ++ tr', r)
  | (tr, Aborted msg) => (tr, Aborted msg)
  | (tr, Thrown what) => (tr, Thrown what)
  end.

Definition emit (e : event) : M unit := ([e], Returned tt).
Definition LogPrintf (line : string) : M unit := emit (EvLog line).
Definition abort {A} (msg : string) : M A := ([], Aborted msg).
Definition throw {A} (what : string) : M A := ([], Thrown what).
Definition assert (cond : bool) (msg : string) : M unit :=
  if cond then ret tt else abort msg.

Declare Scope cpp_scope.
Delimit Scope cpp_scope with cpp.
Notation "x <- m ;; k" := (bind m (fun x => k))
  (at level 61, m at next level, right associativity) : cpp_scope.
Notation "m ;;; k" := (bind m (fun _ => k))
  (at level 61, right associativity) : cpp_scope.

Definition events {A} (m : M A) : list event := fst m.
Definition result {A} (m : M A) : outcome A := snd m.

Definition returns {A} (m : M A) : Prop := exists a, result m = Returned a.
Definition aborts {A} (m : M A) : Prop := exists msg, result m = Aborted msg.
Definition throws {A} (m : M A) : Prop := exists what, result m = Thrown what.


(** [size_t] is 64 bits wide; an [int] compared with a [size_t] is first
    converted to it: a negative value wraps around, modulo [2^64]. *)
Definition SIZE_T_BITS : Z := 64.
Definition to_size_t (v : Z) : Z := if v <? 0 then v + 2 ^ SIZE_T_BITS else v.

Lemma bind_ret_l {A B} (a : A) (k : A -> M B) : bind (ret a) k = k a.
Proof. unfold bind, ret. destruct (k a). reflexivity. Qed.

Lemma to_size_t_nonneg (v : Z) : 0 <= v -> to_size_t v = v.
Proof. intros H. unfold to_size_t. destruct (Z.ltb_spec v 0); [lia | reflexivity]. Qed.

Lemma bind_returned {A B} (m : M A) (k : A -> M B) (tr : list event) (b : B) :
  bind m k = (tr, Returned b) ->
  exists tr1 a tr2, m = (tr1, Returned a) /\ k a = (tr2, Returned b) /\ tr = tr1 ++ tr2.
Proof.
  destruct m as [tr1 [a | msg | what]]; simpl; try discriminate.
  destruct (k a) as [tr2 r] eqn:K. intros E. injection E as <- ->.
  exists tr1, a, tr2. auto.
Qed.

Lemma returns_not_aborts {A} (m : M A) : returns m -> ~ aborts m.
Proof. intros [a Ha] [msg Hm]. congruence. Qed.

Lemma returns_not_throws {A} (m : M A) : returns m -> ~ throws m.
Proof. intros [a Ha] [what Hw]. congruence. Qed.

(* ================================================================== *)
(** ** sidechaintypes.cpp: CZendooCctpLibraryChecker *)

Module CZendooCctpLibraryChecker.

(** The constants of the C header the library is checked against. *)
Record header : Type := {
  SC_FIELD_SIZE : Z;
  SC_VK_SIZE : Z;
  SC_PROOF_SIZE : Z;
  SC_BV_SIZE_IN_BYTES : Z;
  SC_CUSTOM_DATA_MAX_SIZE : Z
}.

(** What the linked library reports. *)
Record library : Type := {
  zendoo_get_field_size_in_bytes : Z;
  zendoo_get_sc_vk_size_in_bytes : Z;
  zendoo_get_sc_proof_size_in_bytes : Z;
  zendoo_get_sc_bit_vector_size_in_bytes : Z;
  zendoo_get_sc_custom_data_size_in_bytes : Z
}.

(** One [if (expected != reported) { LogPrintf(...); assert(!"..."); }]. *)
Definition check_size (expected reported : Z) (line msg : string) : M unit :=
  if negb (expected =? reported)
  then (LogPrintf line ;;; assert false msg)%cpp
  else ret tt.

Definition CheckTypeSizes (h : header) (lib : library) : M unit :=
  (check_size (SC_FIELD_SIZE h + 1) (zendoo_get_field_size_in_bytes lib)
     "ERROR: unexpected CCTP field element size"
     "ERROR: field element size mismatch between rust CCTP lib and c header!" ;;;
   check_size (SC_VK_SIZE h) (zendoo_get_sc_vk_size_in_bytes lib)
     "ERROR: unexpected CCTP vk size"
     "ERROR: vk size mismatch between rust CCTP lib and c header!" ;;;
   check_size (SC_PROOF_SIZE h) (zendoo_get_sc_proof_size_in_bytes lib)
     "ERROR: unexpected CCTP proof size"
     "ERROR: proof size mismatch between rust CCTP lib and c header!" ;;;
   check_size (SC_BV_SIZE_IN_BYTES h) (zendoo_get_sc_bit_vector_size_in_bytes lib)
     "ERROR: unexpected CCTP bit vector size"
     "ERROR: bit vector size mismatch between rust CCTP lib and c header!" ;;;
   check_size (SC_CUSTOM_DATA_MAX_SIZE h) (zendoo_get_sc_custom_data_size_in_bytes lib)
     "ERROR: unexpected CCTP custom data size"
     "ERROR: custom data size mismatch between rust CCTP lib and c header!")%cpp.

(** The five sizes as the claim pairs them: each reported size against the
    constant of the same name. *)
Definition some_size_differs (h : header) (lib : library) : Prop :=
  zendoo_get_field_size_in_bytes lib <> SC_FIELD_SIZE h \/
  zendoo_get_sc_vk_size_in_bytes lib <> SC_VK_SIZE h \/
  zendoo_get_sc_proof_size_in_bytes lib <> SC_PROOF_SIZE h \/
  zendoo_get_sc_bit_vector_size_in_bytes lib <> SC_BV_SIZE_IN_BYTES h \/
  zendoo_get_sc_custom_data_size_in_bytes lib <> SC_CUSTOM_DATA_MAX_SIZE h.

(** The sizes as the code pairs them: the field size against
    [SC_FIELD_SIZE + 1]. *)
Definition some_check_fails (h : header) (lib : library) : Prop :=
  zendoo_get_field_size_in_bytes lib <> SC_FIELD_SIZE h + 1 \/
  zendoo_get_sc_vk_size_in_bytes lib <> SC_VK_SIZE h \/
  zendoo_get_sc_proof_size_in_bytes lib <> SC_PROOF_SIZE h \/
  zendoo_get_sc_bit_vector_size_in_bytes lib <> SC_BV_SIZE_IN_BYTES h \/
  zendoo_get_sc_custom_data_size_in_bytes lib <> SC_CUSTOM_DATA_MAX_SIZE h.

(** A header and a library that reports exactly the header's constants. *)
Definition header0 : header :=
  {| SC_FIELD_SIZE := 96; SC_VK_SIZE := 1544; SC_PROOF_SIZE := 771;
     SC_BV_SIZE_IN_BYTES := 12096; SC_CUSTOM_DATA_MAX_SIZE := 1024 |}.

Definition library_matching (h : header) : library :=
  {| zendoo_get_field_size_in_bytes := SC_FIELD_SIZE h;
     zendoo_get_sc_vk_size_in_bytes := SC_VK_SIZE h;
     zendoo_get_sc_proof_size_in_bytes := SC_PROOF_SIZE h;
     zendoo_get_sc_bit_vector_size_in_bytes := SC_BV_SIZE_IN_BYTES h;
     zendoo_get_sc_custom_data_size_in_bytes := SC_CUSTOM_DATA_MAX_SIZE h |}.

Lemma check_size_eq (e r : Z) (line msg : string) :
  e = r -> check_size e r line msg = ret tt.
Proof.
  intros ->. unfold check_size. rewrite Z.eqb_refl. reflexivity.
Qed.

Lemma check_size_neq (e r : Z) (line msg : string) :
  e <> r -> check_size e r line msg = ([EvLog line], Aborted msg).
Proof.
  intros H. unfold check_size. apply Z.eqb_neq in H. rewrite H. reflexivity.
Qed.

Lemma check_size_then_aborts (e r : Z) (line msg : string) (k : M unit) :
  e <> r -> aborts (check_size e r line msg ;;; k)%cpp.
Proof.
  intros H. rewrite (check_size_neq _ _ _ _ H). exists msg. reflexivity.
Qed.

Ltac step_check :=
  match goal with
  | |- context [check_size ?e ?r ?l ?m] =>
      destruct (Z.eq_dec e r) as [?Heq | ?Hne];
      [ rewrite (check_size_eq e r l m) by assumption; try rewrite bind_ret_l
      | ]
  end.

Lemma some_check_fails_dec (h : header) (lib : library) :
  {some_check_fails h lib} + {~ some_check_fails h lib}.
Proof.
  unfold some_check_fails.
  destruct (Z.eq_dec (zendoo_get_field_size_in_bytes lib) (SC_FIELD_SIZE h + 1));
  destruct (Z.eq_dec (zendoo_get_sc_vk_size_in_bytes lib) (SC_VK_SIZE h));
  destruct (Z.eq_dec (zendoo_get_sc_proof_size_in_bytes lib) (SC_PROOF_SIZE h));
  destruct (Z.eq_dec (zendoo_get_sc_bit_vector_size_in_bytes lib) (SC_BV_SIZE_IN_BYTES h));
  destruct (Z.eq_dec (zendoo_get_sc_custom_data_size_in_bytes lib)
              (SC_CUSTOM_DATA_MAX_SIZE h));
  tauto.
Qed.

Lemma CheckTypeSizes_passes (h : header) (lib : library) :
  ~ some_check_fails h lib -> CheckTypeSizes h lib = ret tt.
Proof.
  unfold CheckTypeSizes, some_check_fails. intros Hok.
  repeat (step_check; [| exfalso; apply Hok; intuition congruence]).
  reflexivity.
Qed.

Lemma CheckTypeSizes_fails (h : header) (lib : library) :
  some_check_fails h lib -> aborts (CheckTypeSizes h lib).
Proof.
  unfold CheckTypeSizes, some_check_fails. intros Hfail.
  do 4 (step_check; [| apply check_size_then_aborts; assumption]).
  step_check.
  - exfalso. destruct Hfail as [H|[H|[H|[H|H]]]]; apply H; congruence.
  - rewrite (check_size_neq _ _ _ _ Hne). eexists. reflexivity.
Qed.

(** C1 at the failing input: for every header, a library that reports exactly
    the five constants of the header makes the check log the field element
    line and die on the first assertion, although no size differs.  The check
    aborts exactly when the reported field size differs from
    [SC_FIELD_SIZE + 1] or one of the other four reported sizes differs from
    its constant; so it returns, silently, only for a library whose field
    size is one more than the constant, which is a library with a size that
    differs. *)
Theorem CheckTypeSizes_rejects_matching_library (h : header) :
  ~ some_size_differs h (library_matching h) /\
  CheckTypeSizes h (library_matching h) =
    ([EvLog "ERROR: unexpected CCTP field element size"],
     Aborted "ERROR: field element size mismatch between rust CCTP lib and c header!") /\
  (forall lib, aborts (CheckTypeSizes h lib) <-> some_check_fails h lib) /\
  (forall lib,
     ~ aborts (CheckTypeSizes h lib) ->
     CheckTypeSizes h lib = ret tt /\
     zendoo_get_field_size_in_bytes lib = SC_FIELD_SIZE h + 1 /\
     some_size_differs h lib).
Proof.
  assert (Iff : forall lib, aborts (CheckTypeSizes h lib) <-> some_check_fails h lib).
  { intros lib. split.
    - intros [msg Hab]. destruct (some_check_fails_dec h lib) as [F|F]; [exact F|].
      rewrite (CheckTypeSizes_passes h lib F) in Hab. discriminate.
    - apply CheckTypeSizes_fails. }
  split; [|split; [|split; [exact Iff|]]].
  - unfold some_size_differs, library_matching. cbn.
    intros [H|[H|[H|[H|H]]]]; apply H; reflexivity.
  - unfold CheckTypeSizes, library_matching.
    cbn [zendoo_get_field_size_in_bytes].
    rewrite (check_size_neq (SC_FIELD_SIZE h + 1) (SC_FIELD_SIZE h)) by lia.
    reflexivity.
  - intros lib N.
    assert (F : ~ some_check_fails h lib) by (intros F; apply N, Iff; exact F).
    split; [apply CheckTypeSizes_passes; exact F|].
    assert (E : zendoo_get_field_size_in_bytes lib = SC_FIELD_SIZE h + 1).
    { destruct (Z.eq_dec (zendoo_get_field_size_in_bytes lib) (SC_FIELD_SIZE h + 1))
        as [E | E]; [exact E|]. exfalso. apply F. left. exact E. }
    split; [exact E|]. left. lia.
Qed.

(** With the constants of [header0]: the matching library reports a field
    size of 96 and is refused; the one that passes reports 97. *)
Example CheckTypeSizes_header0 :
  aborts (CheckTypeSizes header0 (library_matching header0)) /\
  CheckTypeSizes header0
    {| zendoo_get_field_size_in_bytes := 97;
       zendoo_get_sc_vk_size_in_bytes := 1544;
       zendoo_get_sc_proof_size_in_bytes := 771;
       zendoo_get_sc_bit_vector_size_in_bytes := 12096;
       zendoo_get_sc_custom_data_size_in_bytes := 1024 |} = ret tt.
Proof. split; [eexists; vm_compute; reflexivity | vm_compute; reflexivity]. Qed.

End CZendooCctpLibraryChecker.

(* ================================================================== *)
(** ** sidechaintypes.cpp: custom certificate fields *)

Module Sidechain.

Definition CHAR_BIT : Z := 8.

(** *** Helpers of util.cpp *)

(** The bits of a byte, least significant first. *)
Definition bits_of_byte (x : byte) : list bool :=
  let '(b0, (b1, (b2, (b3, (b4, (b5, (b6, b7))))))) := Byte.to_bits x in
  [b0; b1; b2; b3; b4; b5; b6; b7].

Fixpoint leading_false (l : list bool) : Z :=
  match l with
  | false :: l' => 1 + leading_false l'
  | _ => 0
  end.

(** Modelled from the spec: [getTrailingZeroBitsInByte] is defined in
    util.cpp, which is not among the sources.  The spec has it "count
    trailing zero bits" of the byte: the number of zero bits below the lowest
    set bit, [CHAR_BIT] for the zero byte. *)
Definition getTrailingZeroBitsInByte (inputByte : byte) : Z :=
  leading_false (bits_of_byte inputByte).

(** Modelled from the spec: [getBytesFromBits] is defined in util.cpp, which
    is not among the sources.  The spec gives the byte count,
    [ceil(bitSize / 8)], and the number of reserved low bits of the last
    byte, [bytes * 8 - bitSize].  The caller below compares the trailing zero
    count with [CHAR_BIT - rem], so the remainder the helper hands back is the
    number of bits the last byte uses, [bitSize mod 8], and [CHAR_BIT - rem]
    is the spec's number of reserved bits.  The spec speaks of positive bit
    sizes only; for the others the model needs no byte and no remainder. *)
Definition getBytesFromBits (nbits : Z) : Z * Z :=
  if nbits <=? 0 then (0, 0)
  else ((nbits + (CHAR_BIT - 1)) / CHAR_BIT, nbits mod CHAR_BIT).


(** *** Configurations *)

(** The interface [CustomCertificateFieldConfig]: a validity predicate, and
    the value equality [operator==] that decides cache reuse. *)
Class CustomCertificateFieldConfig (Cfg : Type) : Type := {
  IsValid : Cfg -> bool;
  cfg_eqb : Cfg -> Cfg -> bool;
  cfg_eqb_eq : forall a b : Cfg, cfg_eqb a b = true <-> a = b
}.

Record FieldElementCertificateFieldConfig : Type := {
  nBits : Z
}.
Definition getBitSize (cfg : FieldElementCertificateFieldConfig) : Z := nBits cfg.

Record BitVectorCertificateFieldConfig : Type := {
  bitVectorSizeBits : Z;
  maxCompressedSizeBytes : Z
}.
Definition getMaxCompressedSizeBytes (cfg : BitVectorCertificateFieldConfig) : Z :=
  maxCompressedSizeBytes cfg.

(** *** Field elements *)

Record CFieldElement : Type := { byteVector : list byte }.

(** [CFieldElement{}]: the null element has no bytes. *)
Definition CFieldElement_null : CFieldElement := {| byteVector := [] |}.

Definition IsNull (fe : CFieldElement) : bool :=
  match byteVector fe with [] => true | _ => false end.

Inductive VALIDATION_STATE : Type := NOT_INITIALIZED | INVALID | VALID.

Definition is_NOT_INITIALIZED (s : VALIDATION_STATE) : bool :=
  match s with NOT_INITIALIZED => true | _ => false end.

(** A custom field: the members of the base class [CustomCertificateField]
    and the reference configuration of the derived class. *)
Record CustomCertificateField (Cfg : Type) : Type := {
  vRawData : list byte;
  state : VALIDATION_STATE;
  fieldElement : CFieldElement;
  pReferenceCfg : option Cfg
}.
Arguments vRawData {Cfg} _.
Arguments state {Cfg} _.
Arguments fieldElement {Cfg} _.
Arguments pReferenceCfg {Cfg} _.

(** The constructor from raw bytes. *)
Definition construct {Cfg} (rawBytes : list byte) : CustomCertificateField Cfg :=
  {| vRawData := rawBytes; state := NOT_INITIALIZED;
     fieldElement := CFieldElement_null; pReferenceCfg := None |}.

(** Lines 290-301 and 375-386: what the memoisation test decides. *)
Inductive memo : Type := Hit | Miss.

Definition check_memo {Cfg} `{CustomCertificateFieldConfig Cfg}
    (cfg : Cfg) (f : CustomCertificateField Cfg) : M memo :=
  if is_NOT_INITIALIZED (state f) then ret Miss
  else match pReferenceCfg f with
       | None => abort "pReferenceCfg != nullptr"
       | Some ref => if cfg_eqb ref cfg then ret Hit else ret Miss
       end.

(** The shape both [GetFieldElement] functions share: the memoisation test in
    front of a validation that depends on the raw data and the configuration
    only. *)
Definition memoised {Cfg} `{CustomCertificateFieldConfig Cfg}
    (validate : Cfg -> list byte -> M (CustomCertificateField Cfg))
    (cfg : Cfg) (f : CustomCertificateField Cfg) : M (CustomCertificateField Cfg) :=
  (m <- check_memo cfg f ;;
   match m with
   | Hit => ret f
   | Miss => validate cfg (vRawData f)
   end)%cpp.

(** The objects a program can hold: built by the constructor, then passed
    through calls of [GetFieldElement] that returned. *)
Inductive reachable {Cfg}
    (get : Cfg -> CustomCertificateField Cfg -> M (CustomCertificateField Cfg))
  : CustomCertificateField Cfg -> Prop :=
| reach_construct (rawBytes : list byte) : reachable get (construct rawBytes)
| reach_call (f f' : CustomCertificateField Cfg) (cfg : Cfg) (tr : list event) :
    reachable get f -> get cfg f = (tr, Returned f') -> reachable get f'.

Definition returns_nonnull {Cfg} (m : M (CustomCertificateField Cfg)) : Prop :=
  exists f, result m = Returned f /\ IsNull (fieldElement f) = false.

Definition returns_null {Cfg} (m : M (CustomCertificateField Cfg)) : Prop :=
  exists f, result m = Returned f /\ IsNull (fieldElement f) = true.

(** *** The memoisation, for any validation *)

Section Memo.

Context {Cfg : Type} `{CustomCertificateFieldConfig Cfg}.
Variable validate : Cfg -> list byte -> M (CustomCertificateField Cfg).

(** What both validations guarantee about the object they return. *)
Hypothesis validate_post : forall cfg raw tr f,
  validate cfg raw = (tr, Returned f) ->
  vRawData f = raw /\ pReferenceCfg f = Some cfg /\ state f <> NOT_INITIALIZED.

Lemma cfg_eqb_refl (c : Cfg) : cfg_eqb c c = true.
Proof. apply cfg_eqb_eq. reflexivity. Qed.

Lemma cfg_eqb_neq (a b : Cfg) : a <> b -> cfg_eqb a b = false.
Proof.
  intros N. destruct (cfg_eqb a b) eqn:E; [|reflexivity].
  apply cfg_eqb_eq in E. contradiction.
Qed.

Lemma memoised_construct (cfg : Cfg) (raw : list byte) :
  memoised validate cfg (construct raw) = validate cfg raw.
Proof.
  unfold memoised, check_memo. simpl.
  destruct (validate cfg raw). reflexivity.
Qed.

Lemma memoised_hit (cfg : Cfg) (f : CustomCertificateField Cfg) :
  pReferenceCfg f = Some cfg -> state f <> NOT_INITIALIZED ->
  memoised validate cfg f = ([], Returned f).
Proof.
  intros R S. unfold memoised, check_memo. rewrite R.
  destruct (state f); [contradiction | |]; simpl; rewrite cfg_eqb_refl; reflexivity.
Qed.

Lemma memoised_miss (cfg ref : Cfg) (f : CustomCertificateField Cfg) :
  pReferenceCfg f = Some ref -> ref <> cfg ->
  memoised validate cfg f = validate cfg (vRawData f).
Proof.
  intros R N. unfold memoised, check_memo. rewrite R.
  destruct (state f); simpl; try rewrite (cfg_eqb_neq _ _ N); simpl;
    destruct (validate cfg (vRawData f)); reflexivity.
Qed.

Lemma memoised_post (cfg : Cfg) (f f' : CustomCertificateField Cfg) (tr : list event) :
  memoised validate cfg f = (tr, Returned f') ->
  vRawData f' = vRawData f /\ pReferenceCfg f' = Some cfg /\
  state f' <> NOT_INITIALIZED.
Proof.
  unfold memoised. intros E.
  apply bind_returned in E as (tr1 & m & tr2 & E1 & E2 & _).
  destruct m.
  - injection E2 as _ <-. unfold check_memo in E1.
    destruct (state f) eqn:S; simpl in E1; try discriminate;
      (destruct (pReferenceCfg f) as [ref|] eqn:R; [|discriminate];
       destruct (cfg_eqb ref cfg) eqn:Q; [|discriminate];
       apply cfg_eqb_eq in Q; subst ref; repeat split; congruence).
  - apply validate_post in E2. exact E2.
Qed.

(** The invariant of reachable objects: still as constructed, or exactly what
    the validation against the stored configuration returned. *)
Definition validated (f : CustomCertificateField Cfg) : Prop :=
  exists cfg tr, validate cfg (vRawData f) = (tr, Returned f).

Lemma reachable_inv (f : CustomCertificateField Cfg) :
  reachable (memoised validate) f -> f = construct (vRawData f) \/ validated f.
Proof.
  induction 1 as [raw | f f' cfg tr _ IH E].
  - left. reflexivity.
  - right. unfold memoised in E.
    apply bind_returned in E as (tr1 & m & tr2 & E1 & E2 & _).
    destruct m.
    + injection E2 as _ <-.
      destruct IH as [IH | IH]; [| exact IH].
      rewrite IH in E1. unfold check_memo in E1. simpl in E1. discriminate.
    + exists cfg, tr2. pose proof (validate_post _ _ _ _ E2) as (V & _).
      rewrite V. exact E2.
Qed.

(** On a reachable object the memoised call either answers from the cache,
    silently, with what the validation against the same configuration had
    returned, or runs that validation. *)
Lemma memoised_cases (cfg : Cfg) (f : CustomCertificateField Cfg) :
  reachable (memoised validate) f ->
  (memoised validate cfg f = ([], Returned f) /\
   exists tr, validate cfg (vRawData f) = (tr, Returned f)) \/
  memoised validate cfg f = validate cfg (vRawData f).
Proof.
  intros R. destruct (reachable_inv f R) as [F | (c & tr & V)].
  - right. rewrite F at 1. apply memoised_construct.
  - pose proof (validate_post _ _ _ _ V) as (_ & P & S).
    destruct (cfg_eqb c cfg) eqn:Q.
    + apply cfg_eqb_eq in Q. subst c. left.
      split; [apply (memoised_hit cfg f P S) | exists tr; exact V].
    + right. apply (memoised_miss cfg c f P).
      intros ->. rewrite cfg_eqb_refl in Q. discriminate.
Qed.

Lemma memoised_result (cfg : Cfg) (f : CustomCertificateField Cfg) :
  reachable (memoised validate) f ->
  result (memoised validate cfg f) = result (validate cfg (vRawData f)).
Proof.
  intros R. destruct (memoised_cases cfg f R) as [(E & tr & V) | E].
  - rewrite E, V. reflexivity.
  - rewrite E. reflexivity.
Qed.


(** A second call after one that returned: the same configuration is answered
    from the cache; another one starts over, as on a newly built object. *)
Lemma memoised_twice (cfg : Cfg) (f0 f1 : CustomCertificateField Cfg) (tr : list event) :
  memoised validate cfg f0 = (tr, Returned f1) ->
  pReferenceCfg f1 = Some cfg /\
  memoised validate cfg f1 = ([], Returned f1) /\
  forall cfg', cfg' <> cfg ->
    memoised validate cfg' f1 = memoised validate cfg' (construct (vRawData f0)) /\
    forall tr' f2, memoised validate cfg' f1 = (tr', Returned f2) ->
                   pReferenceCfg f2 = Some cfg'.
Proof.
  intros E. destruct (memoised_post _ _ _ _ E) as (V & P & S).
  split; [exact P|]. split; [apply memoised_hit; assumption|].
  intros cfg' N. split.
  - rewrite memoised_construct, <- V. apply (memoised_miss cfg' cfg f1 P).
    congruence.
  - intros tr' f2 E2. apply (memoised_post _ _ _ _ E2).
Qed.

End Memo.

(** *** The two field variants over the cryptographic library *)

Section Library.

(** [CFieldElement::ByteSize()], which is [SC_FIELD_SIZE]. *)
Variable SC_FIELD_SIZE : nat.
Variable SC_BV_SIZE_IN_BYTES : Z.
Variable MAX_BIT_VECTOR_SIZE_BITS : Z.
Variable MAX_COMPRESSED_SIZE_BYTES : Z.

(** The cryptographic library: field elements behind opaque pointers. *)
Variable field_t : Type.
Variable zendoo_deserialize_field : list byte -> option field_t.
Variable zendoo_serialize_field : field_t -> list byte.
Variable zendoo_merkle_root_from_compressed_bytes :
  list byte -> Z -> option field_t.

Definition ByteSize : nat := SC_FIELD_SIZE.
(** Modelled from the spec: [CFieldElement::BitSize()] is declared in the
    header, which is not among the sources; the spec's bit capacity of a
    field element, eight bits for each byte of [ByteSize()]. *)
Definition BitSize : Z := Z.of_nat ByteSize * CHAR_BIT.

#[export] Instance FieldElementConfig :
  CustomCertificateFieldConfig FieldElementCertificateFieldConfig.
Proof.
  refine {| IsValid := fun cfg =>
              if (0 <? nBits cfg) && (nBits cfg <=? Z.of_nat ByteSize * 8)
              then true else false;
            cfg_eqb := fun a b => nBits a =? nBits b |}.
  intros [a] [b]; simpl. rewrite Z.eqb_eq. split; congruence.
Defined.

#[export] Instance BitVectorConfig :
  CustomCertificateFieldConfig BitVectorCertificateFieldConfig.
Proof.
  refine {| IsValid := fun cfg =>
              let isBitVectorSizeValid :=
                (0 <? bitVectorSizeBits cfg) &&
                (bitVectorSizeBits cfg <=? MAX_BIT_VECTOR_SIZE_BITS) in
              if negb isBitVectorSizeValid then false
              else if negb (Z.rem (bitVectorSizeBits cfg) 254 =? 0) ||
                      negb (Z.rem (bitVectorSizeBits cfg) 8 =? 0) then false
              else
                let isMaxCompressedSizeValid :=
                  (0 <? maxCompressedSizeBytes cfg) &&
                  (maxCompressedSizeBytes cfg <=? MAX_COMPRESSED_SIZE_BYTES) in
                if negb isMaxCompressedSizeValid then false else true;
            cfg_eqb := fun a b =>
              (bitVectorSizeBits a =? bitVectorSizeBits b) &&
              (maxCompressedSizeBytes a =? maxCompressedSizeBytes b) |}.
  intros [a1 a2] [b1 b2]; simpl.
  rewrite andb_true_iff, !Z.eqb_eq. split; [intros [-> ->]; reflexivity|].
  intros E; injection E; auto.
Defined.

(** [CFieldElement(const wrappedFieldPtr&)]: a buffer of [ByteSize()] zero
    bytes that the library's serialisation is written into. *)
Definition CFieldElement_of_ptr (fe : field_t) : CFieldElement :=
  {| byteVector :=
       firstn ByteSize (zendoo_serialize_field fe ++ repeat x00 ByteSize) |}.

(** [CFieldElement::IsValid()]: a null element is invalid without asking the
    library; otherwise the library must deserialise the bytes. *)
Definition CFieldElement_IsValid (fe : CFieldElement) : M bool :=
  match byteVector fe with
  | [] => ret false
  | _ => (emit (EvDeserialize (byteVector fe)) ;;;
          ret (match zendoo_deserialize_field (byteVector fe) with
               | Some _ => true
               | None => false
               end))%cpp
  end.

(** [CFieldElement::SetByteArray]. *)
Definition SetByteArray (byteArrayIn : list byte) : M CFieldElement :=
  (assert (Nat.eqb (length byteArrayIn) ByteSize)
     "byteArrayIn.size() == this->ByteSize()" ;;;
   ret {| byteVector := byteArrayIn |})%cpp.

(** [LogPrint("sc", ...)]: the line is written when the category is enabled;
    the event records the call. *)
Definition LogPrint (category line : string) : M unit := emit (EvLog line).

Abbreviation FEField := (CustomCertificateField FieldElementCertificateFieldConfig).
Abbreviation BVField := (CustomCertificateField BitVectorCertificateFieldConfig).

(** Lines 303-345 of [FieldElementCertificateField::GetFieldElement], the
    validation proper.  The value is the object after the call; the reference
    the C++ function returns is its [fieldElement] member.  The number of
    padding bytes, [ByteSize() - vRawData.size()], is a [size_t]: were the raw
    data longer than a field element it would wrap around and [insert] would
    throw. *)
Definition FE_validate (cfg : FieldElementCertificateFieldConfig)
    (vRawData : list byte) : M FEField :=
  let invalid := {| vRawData := vRawData; state := INVALID;
                    fieldElement := CFieldElement_null;
                    pReferenceCfg := Some cfg |} in
  (assert (getBitSize cfg <=? BitSize)
     "cfg.getBitSize() <= CFieldElement::BitSize()" ;;;
   let (bytes, rem) := getBytesFromBits (getBitSize cfg) in
   if negb (Z.of_nat (length vRawData) =? to_size_t bytes) then
     LogPrint "sc" "ERROR: wrong size: data != cfg" ;;;
     ret invalid
   else if negb (rem =? 0) &&
           (getTrailingZeroBitsInByte (last vRawData x00) <? CHAR_BIT - rem) then
     LogPrint "sc" "ERROR: wrong number of null bits in last byte" ;;;
     ret invalid
   else if (ByteSize <? length vRawData)%nat then
     throw "std::length_error"
   else
     let extendedRawData :=
       repeat x00 (ByteSize - length vRawData) ++ vRawData in
     fe <- SetByteArray extendedRawData ;;
     valid <- CFieldElement_IsValid fe ;;
     if valid then
       ret {| vRawData := vRawData; state := VALID; fieldElement := fe;
              pReferenceCfg := Some cfg |}
     else ret invalid)%cpp.

Definition FE_GetFieldElement (cfg : FieldElementCertificateFieldConfig)
    (f : FEField) : M FEField :=
  (m <- check_memo cfg f ;;
   match m with
   | Hit => ret f
   | Miss => FE_validate cfg (vRawData f)
   end)%cpp.

Definition FE_IsValid (cfg : FieldElementCertificateFieldConfig) (f : FEField)
  : M (bool * FEField) :=
  (f' <- FE_GetFieldElement cfg f ;; ret (negb (IsNull (fieldElement f')), f'))%cpp.

(** Lines 388-414 of [BitVectorCertificateField::GetFieldElement]. *)
Definition BV_validate (cfg : BitVectorCertificateFieldConfig)
    (vRawData : list byte) : M BVField :=
  let invalid := {| vRawData := vRawData; state := INVALID;
                    fieldElement := CFieldElement_null;
                    pReferenceCfg := Some cfg |} in
  (if Z.of_nat (length vRawData) >? to_size_t (getMaxCompressedSizeBytes cfg)
   then ret invalid
   else
     emit (EvDecompress vRawData SC_BV_SIZE_IN_BYTES) ;;;
     match zendoo_merkle_root_from_compressed_bytes vRawData SC_BV_SIZE_IN_BYTES with
     | None =>
         LogPrint "sc" "ERROR: could not get merkle root field el from compr bit vector" ;;;
         ret invalid
     | Some fe =>
         ret {| vRawData := vRawData; state := VALID;
                fieldElement := CFieldElement_of_ptr fe;
                pReferenceCfg := Some cfg |}
     end)%cpp.

Definition BV_GetFieldElement (cfg : BitVectorCertificateFieldConfig)
    (f : BVField) : M BVField :=
  (m <- check_memo cfg f ;;
   match m with
   | Hit => ret f
   | Miss => BV_validate cfg (vRawData f)
   end)%cpp.

Definition BV_IsValid (cfg : BitVectorCertificateFieldConfig) (f : BVField)
  : M (bool * BVField) :=
  (f' <- BV_GetFieldElement cfg f ;; ret (negb (IsNull (fieldElement f')), f'))%cpp.


(** The claim's side of the field-element variant: [ceil(b / 8)] bytes, the
    reserved low bits of the last byte zero, and the raw data left-padded
    with zero bytes to [ByteSize()] accepted by the library. *)
Definition ceil_div8 (b : Z) : Z := (b + 7) / 8.
Definition reserved_bits (b : Z) : Z := ceil_div8 b * 8 - b.


(** *** The helpers *)

Lemma ceil_div8_bounds (b : Z) : 8 * (ceil_div8 b - 1) < b <= 8 * ceil_div8 b.
Proof.
  unfold ceil_div8.
  pose proof (Z.div_mod (b + 7) 8 ltac:(lia)).
  pose proof (Z.mod_pos_bound (b + 7) 8 ltac:(lia)). lia.
Qed.

Lemma reserved_bits_mod (b : Z) :
  b mod 8 <> 0 -> reserved_bits b = 8 - b mod 8.
Proof.
  intros N. unfold reserved_bits, ceil_div8.
  pose proof (Z.div_mod b 8 ltac:(lia)).
  pose proof (Z.mod_pos_bound b 8 ltac:(lia)).
  assert ((b + 7) / 8 = b / 8 + 1); [|lia].
  symmetry. apply Z.div_unique with (r := b mod 8 - 1); lia.
Qed.


Lemma getBytesFromBits_pos (b : Z) :
  0 < b -> getBytesFromBits b = (ceil_div8 b, b mod 8).
Proof.
  intros P. unfold getBytesFromBits, ceil_div8, CHAR_BIT.
  destruct (Z.leb_spec b 0); [lia | reflexivity].
Qed.


(** *** The field-element variant, case by case *)

Definition FE_invalid (cfg : FieldElementCertificateFieldConfig)
    (raw : list byte) : FEField :=
  {| vRawData := raw; state := INVALID; fieldElement := CFieldElement_null;
     pReferenceCfg := Some cfg |}.

Definition extend (raw : list byte) : list byte :=
  repeat x00 (ByteSize - length raw) ++ raw.


Lemma FE_validate_wrong_size (cfg : FieldElementCertificateFieldConfig) (raw : list byte) :
  0 < getBitSize cfg <= BitSize ->
  Z.of_nat (length raw) <> ceil_div8 (getBitSize cfg) ->
  FE_validate cfg raw =
  ([EvLog "ERROR: wrong size: data != cfg"], Returned (FE_invalid cfg raw)).
Proof.
  intros [P L] N. unfold FE_validate.
  destruct (Z.leb_spec (getBitSize cfg) BitSize); [|lia].
  rewrite (getBytesFromBits_pos _ P). cbn [assert]. rewrite bind_ret_l.
  pose proof (ceil_div8_bounds (getBitSize cfg)).
  rewrite to_size_t_nonneg by lia.
  destruct (Z.eqb_spec (Z.of_nat (length raw)) (ceil_div8 (getBitSize cfg)));
    [contradiction | reflexivity].
Qed.

Lemma FE_validate_bad_padding (cfg : FieldElementCertificateFieldConfig) (raw : list byte) :
  0 < getBitSize cfg <= BitSize ->
  Z.of_nat (length raw) = ceil_div8 (getBitSize cfg) ->
  getBitSize cfg mod 8 <> 0 ->
  getTrailingZeroBitsInByte (last raw x00) < reserved_bits (getBitSize cfg) ->
  FE_validate cfg raw =
  ([EvLog "ERROR: wrong number of null bits in last byte"],
   Returned (FE_invalid cfg raw)).
Proof.
  intros [P L] E N T. unfold FE_validate.
  destruct (Z.leb_spec (getBitSize cfg) BitSize); [|lia].
  rewrite (getBytesFromBits_pos _ P). cbn [assert]. rewrite bind_ret_l.
  pose proof (ceil_div8_bounds (getBitSize cfg)).
  rewrite to_size_t_nonneg by lia.
  rewrite (proj2 (Z.eqb_eq _ _) E). cbn [negb].
  rewrite (reserved_bits_mod _ N) in T. unfold CHAR_BIT.
  destruct (Z.eqb_spec (getBitSize cfg mod 8) 0); [contradiction|].
  destruct (Z.ltb_spec (getTrailingZeroBitsInByte (last raw x00))
              (8 - getBitSize cfg mod 8)); [reflexivity | lia].
Qed.

Lemma FE_validate_deserialize (cfg : FieldElementCertificateFieldConfig) (raw : list byte) :
  0 < getBitSize cfg <= BitSize ->
  Z.of_nat (length raw) = ceil_div8 (getBitSize cfg) ->
  (getBitSize cfg mod 8 <> 0 ->
   reserved_bits (getBitSize cfg) <= getTrailingZeroBitsInByte (last raw x00)) ->
  FE_validate cfg raw =
  ([EvDeserialize (extend raw)],
   Returned match zendoo_deserialize_field (extend raw) with
            | Some _ => {| vRawData := raw; state := VALID;
                           fieldElement := {| byteVector := extend raw |};
                           pReferenceCfg := Some cfg |}
            | None => FE_invalid cfg raw
            end) /\
  length (extend raw) = ByteSize /\ extend raw <> [].
Proof.
  intros [P L] E T.
  pose proof (ceil_div8_bounds (getBitSize cfg)) as B.
  assert (Len : (length raw <= ByteSize)%nat).
  { unfold BitSize, CHAR_BIT in L. lia. }
  assert (Pos : (0 < length raw)%nat) by lia.
  assert (XL : length (extend raw) = ByteSize).
  { unfold extend. rewrite length_app, repeat_length. lia. }
  assert (XN : extend raw <> []).
  { intros Z0. rewrite Z0 in XL. simpl in XL. lia. }
  split; [|split; assumption].
  unfold FE_validate.
  destruct (Z.leb_spec (getBitSize cfg) BitSize); [|lia].
  rewrite (getBytesFromBits_pos _ P). cbn [assert]. rewrite bind_ret_l.
  rewrite to_size_t_nonneg by lia.
  rewrite (proj2 (Z.eqb_eq _ _) E). cbn [negb]. unfold CHAR_BIT.
  assert (Pad : negb (getBitSize cfg mod 8 =? 0) &&
                (getTrailingZeroBitsInByte (last raw x00) <? 8 - getBitSize cfg mod 8)
                = false).
  { destruct (Z.eqb_spec (getBitSize cfg mod 8) 0) as [|N]; [reflexivity|].
    specialize (T N). rewrite (reserved_bits_mod _ N) in T.
    destruct (Z.ltb_spec (getTrailingZeroBitsInByte (last raw x00))
                (8 - getBitSize cfg mod 8)); [lia | reflexivity]. }
  rewrite Pad.
  destruct (Nat.ltb_spec ByteSize (length raw)); [lia|].
  fold (extend raw). unfold SetByteArray. rewrite XL, Nat.eqb_refl.
  cbn [assert]. rewrite !bind_ret_l.
  unfold CFieldElement_IsValid. cbn [byteVector].
  destruct (extend raw) as [|x0 xs] eqn:X; [contradiction|].
  destruct (zendoo_deserialize_field (x0 :: xs)); reflexivity.
Qed.

Lemma FE_validate_post (cfg : FieldElementCertificateFieldConfig)
    (raw : list byte) (tr : list event) (f : FEField) :
  FE_validate cfg raw = (tr, Returned f) ->
  vRawData f = raw /\ pReferenceCfg f = Some cfg /\ state f <> NOT_INITIALIZED.
Proof.
  unfold FE_validate. intros E.
  apply bind_returned in E as (tr1 & [] & tr2 & _ & E & _).
  destruct (getBytesFromBits (getBitSize cfg)) as [bytes rem].
  destruct (negb _).
  { injection E as _ <-. simpl. repeat split; discriminate. }
  destruct (_ && _).
  { injection E as _ <-. simpl. repeat split; discriminate. }
  destruct (_ <? _)%nat; [discriminate|].
  apply bind_returned in E as (tr3 & fe & tr4 & _ & E & _).
  apply bind_returned in E as (tr5 & valid & tr6 & _ & E & _).
  destruct valid; injection E as _ <-; simpl; repeat split; discriminate.
Qed.

Lemma FE_GetFieldElement_result (cfg : FieldElementCertificateFieldConfig) (f : FEField) :
  reachable FE_GetFieldElement f ->
  result (FE_GetFieldElement cfg f) = result (FE_validate cfg (vRawData f)).
Proof. apply (memoised_result FE_validate FE_validate_post). Qed.

Lemma FE_GetFieldElement_construct (cfg : FieldElementCertificateFieldConfig)
    (raw : list byte) :
  FE_GetFieldElement cfg (construct raw) = FE_validate cfg raw.
Proof. apply (memoised_construct FE_validate). Qed.




(** *** The bit-vector variant, case by case *)

Definition BV_invalid (cfg : BitVectorCertificateFieldConfig)
    (raw : list byte) : BVField :=
  {| vRawData := raw; state := INVALID; fieldElement := CFieldElement_null;
     pReferenceCfg := Some cfg |}.

Definition BV_valid (cfg : BitVectorCertificateFieldConfig)
    (raw : list byte) (fe : field_t) : BVField :=
  {| vRawData := raw; state := VALID; fieldElement := CFieldElement_of_ptr fe;
     pReferenceCfg := Some cfg |}.

Definition decompress (raw : list byte) : option field_t :=
  zendoo_merkle_root_from_compressed_bytes raw SC_BV_SIZE_IN_BYTES.

Lemma BV_validate_too_large (cfg : BitVectorCertificateFieldConfig) (raw : list byte) :
  Z.of_nat (length raw) > to_size_t (getMaxCompressedSizeBytes cfg) ->
  BV_validate cfg raw = ([], Returned (BV_invalid cfg raw)).
Proof.
  intros G. unfold BV_validate.
  destruct (Z.gtb_spec (Z.of_nat (length raw))
              (to_size_t (getMaxCompressedSizeBytes cfg))); [reflexivity | lia].
Qed.

Lemma BV_validate_decompress (cfg : BitVectorCertificateFieldConfig) (raw : list byte) :
  Z.of_nat (length raw) <= to_size_t (getMaxCompressedSizeBytes cfg) ->
  BV_validate cfg raw =
  match decompress raw with
  | None =>
      ([EvDecompress raw SC_BV_SIZE_IN_BYTES;
        EvLog "ERROR: could not get merkle root field el from compr bit vector"],
       Returned (BV_invalid cfg raw))
  | Some fe =>
      ([EvDecompress raw SC_BV_SIZE_IN_BYTES], Returned (BV_valid cfg raw fe))
  end.
Proof.
  intros G. unfold BV_validate, decompress.
  destruct (Z.gtb_spec (Z.of_nat (length raw))
              (to_size_t (getMaxCompressedSizeBytes cfg))); [lia|].
  destruct (zendoo_merkle_root_from_compressed_bytes raw SC_BV_SIZE_IN_BYTES);
    reflexivity.
Qed.

Lemma BV_validate_post (cfg : BitVectorCertificateFieldConfig)
    (raw : list byte) (tr : list event) (f : BVField) :
  BV_validate cfg raw = (tr, Returned f) ->
  vRawData f = raw /\ pReferenceCfg f = Some cfg /\ state f <> NOT_INITIALIZED.
Proof.
  destruct (Z_gt_le_dec (Z.of_nat (length raw))
              (to_size_t (getMaxCompressedSizeBytes cfg))) as [G | G].
  - rewrite (BV_validate_too_large cfg raw G). intros E. injection E as _ <-.
    simpl. repeat split; discriminate.
  - rewrite (BV_validate_decompress cfg raw G).
    destruct (decompress raw); intros E; injection E as _ <-;
      simpl; repeat split; discriminate.
Qed.

Lemma BV_GetFieldElement_construct (cfg : BitVectorCertificateFieldConfig)
    (raw : list byte) :
  BV_GetFieldElement cfg (construct raw) = BV_validate cfg raw.
Proof. apply (memoised_construct BV_validate). Qed.

Lemma BV_GetFieldElement_result (cfg : BitVectorCertificateFieldConfig) (f : BVField) :
  reachable BV_GetFieldElement f ->
  result (BV_GetFieldElement cfg f) = result (BV_validate cfg (vRawData f)).
Proof. apply (memoised_result BV_validate BV_validate_post). Qed.

(** *** Memoisation (C3) *)

(** C3: for both variants, after a call of [GetFieldElement] with [cfg] has
    returned, a call with an equal configuration returns the cached object
    unchanged without any library call or log line, and a call with a
    different configuration behaves as on a newly constructed field with the
    same raw data (full validation) and leaves the new configuration as the
    stored reference. *)
Theorem GetFieldElement_memoised :
  (forall (cfg : FieldElementCertificateFieldConfig) (f0 f1 : FEField) tr,
     FE_GetFieldElement cfg f0 = (tr, Returned f1) ->
     pReferenceCfg f1 = Some cfg /\
     FE_GetFieldElement cfg f1 = ([], Returned f1) /\
     forall cfg', cfg' <> cfg ->
       FE_GetFieldElement cfg' f1 = FE_validate cfg' (vRawData f0) /\
       FE_GetFieldElement cfg' f1 = FE_GetFieldElement cfg' (construct (vRawData f0)) /\
       forall tr' f2, FE_GetFieldElement cfg' f1 = (tr', Returned f2) ->
                      pReferenceCfg f2 = Some cfg') /\
  (forall (cfg : BitVectorCertificateFieldConfig) (f0 f1 : BVField) tr,
     BV_GetFieldElement cfg f0 = (tr, Returned f1) ->
     pReferenceCfg f1 = Some cfg /\
     BV_GetFieldElement cfg f1 = ([], Returned f1) /\
     forall cfg', cfg' <> cfg ->
       BV_GetFieldElement cfg' f1 = BV_validate cfg' (vRawData f0) /\
       BV_GetFieldElement cfg' f1 = BV_GetFieldElement cfg' (construct (vRawData f0)) /\
       forall tr' f2, BV_GetFieldElement cfg' f1 = (tr', Returned f2) ->
                      pReferenceCfg f2 = Some cfg').
Proof.
  split; intros cfg f0 f1 tr E.
  - destruct (memoised_twice FE_validate FE_validate_post cfg f0 f1 tr E)
      as (P & Hit & Other).
    split; [exact P|]. split; [exact Hit|]. intros cfg' N.
    destruct (Other cfg' N) as (Same & Stored).
    split; [|split; [exact Same | exact Stored]].
    rewrite <- FE_GetFieldElement_construct. exact Same.
  - destruct (memoised_twice BV_validate BV_validate_post cfg f0 f1 tr E)
      as (P & Hit & Other).
    split; [exact P|]. split; [exact Hit|]. intros cfg' N.
    destruct (Other cfg' N) as (Same & Stored).
    split; [|split; [exact Same | exact Stored]].
    rewrite <- BV_GetFieldElement_construct. exact Same.
Qed.

(** *** The bit-vector variant (C4) *)


(** *** No exception, no abort (C8) *)

Lemma FE_validate_returns (cfg : FieldElementCertificateFieldConfig) (raw : list byte) :
  0 < getBitSize cfg <= BitSize ->
  exists tr f, FE_validate cfg raw = (tr, Returned f) /\
               (state f = INVALID -> IsNull (fieldElement f) = true) /\
               (state f = VALID \/ state f = INVALID).
Proof.
  intros B.
  destruct (Z.eq_dec (Z.of_nat (length raw)) (ceil_div8 (getBitSize cfg))) as [E | E].
  2:{ rewrite (FE_validate_wrong_size cfg raw B E). do 2 eexists.
      split; [reflexivity|]. simpl. auto. }
  destruct (Z.eq_dec (getBitSize cfg mod 8) 0) as [Z0 | NZ].
  - destruct (FE_validate_deserialize cfg raw B E) as (V & _); [intros; contradiction|].
    rewrite V. do 2 eexists. split; [reflexivity|].
    destruct (zendoo_deserialize_field (extend raw)); simpl; split; auto; discriminate.
  - destruct (Z_lt_le_dec (getTrailingZeroBitsInByte (last raw x00))
                (reserved_bits (getBitSize cfg))) as [T | T].
    + rewrite (FE_validate_bad_padding cfg raw B E NZ T). do 2 eexists.
      split; [reflexivity|]. simpl. auto.
    + destruct (FE_validate_deserialize cfg raw B E) as (V & _); [intros; exact T|].
      rewrite V. do 2 eexists. split; [reflexivity|].
      destruct (zendoo_deserialize_field (extend raw)); simpl; split; auto; discriminate.
Qed.


End Library.

(** *** Concrete evaluations *)

(** A stand-in for the library: field elements are their 32-byte
    serialisations; a buffer deserialises unless its first byte is [0xff];
    a compressed payload decompresses to the expected 12096 bytes when it
    starts with a zero byte, and its root is then a fixed element. *)
Module Standin.

Definition SC_FIELD_SIZE : nat := 32.
Definition SC_BV_SIZE_IN_BYTES : Z := 12096.
Definition MAX_BIT_VECTOR_SIZE_BITS : Z := 1000192.
Definition MAX_COMPRESSED_SIZE_BYTES : Z := 125024.
Definition field_t : Type := list byte.

Definition zendoo_deserialize_field (buffer : list byte) : option field_t :=
  match buffer with
  | xff :: _ => None
  | _ => Some buffer
  end.

Definition zendoo_serialize_field (fe : field_t) : list byte := fe.

Definition zendoo_merkle_root_from_compressed_bytes
    (compressed : list byte) (expected_size : Z) : option field_t :=
  match compressed with
  | x00 :: _ =>
      if expected_size =? 12096 then Some (repeat x2a 32) else None
  | _ => None
  end.

Definition FE_Get :=
  FE_GetFieldElement SC_FIELD_SIZE field_t zendoo_deserialize_field.

Definition BV_Get :=
  BV_GetFieldElement SC_FIELD_SIZE SC_BV_SIZE_IN_BYTES MAX_BIT_VECTOR_SIZE_BITS
    MAX_COMPRESSED_SIZE_BYTES field_t zendoo_serialize_field
    zendoo_merkle_root_from_compressed_bytes.

End Standin.

Example FE_bitSize8_accepts_01 :
  returns_nonnull (Standin.FE_Get {| nBits := 8 |} (construct [x01])).
Proof. eexists. split; vm_compute; reflexivity. Qed.

Example FE_bitSize4_rejects_01 :
  returns_null (Standin.FE_Get {| nBits := 4 |} (construct [x01])).
Proof. eexists. split; vm_compute; reflexivity. Qed.


Lemma GetFieldElement_memoised_witness :
  exists tr f1,
    Standin.FE_Get {| nBits := 8 |} (construct [x01]) = (tr, Returned f1) /\
    pReferenceCfg f1 = Some {| nBits := 8 |} /\
    Standin.FE_Get {| nBits := 8 |} f1 = ([], Returned f1) /\
    forall cfg', cfg' <> {| nBits := 8 |} ->
      Standin.FE_Get cfg' f1 =
      FE_validate Standin.SC_FIELD_SIZE Standin.field_t
        Standin.zendoo_deserialize_field cfg'
        (vRawData (construct (Cfg := FieldElementCertificateFieldConfig) [x01])) /\
      Standin.FE_Get cfg' f1 =
      Standin.FE_Get cfg'
        (construct
           (vRawData (construct (Cfg := FieldElementCertificateFieldConfig) [x01]))) /\
      forall tr' f2, Standin.FE_Get cfg' f1 = (tr', Returned f2) ->
                     pReferenceCfg f2 = Some cfg'.
Proof.
  eexists. eexists. split; [vm_compute; reflexivity|].
  eapply (proj1 (GetFieldElement_memoised Standin.SC_FIELD_SIZE
                   Standin.SC_BV_SIZE_IN_BYTES Standin.MAX_BIT_VECTOR_SIZE_BITS
                   Standin.MAX_COMPRESSED_SIZE_BYTES Standin.field_t
                   Standin.zendoo_deserialize_field Standin.zendoo_serialize_field
                   Standin.zendoo_merkle_root_from_compressed_bytes)
            {| nBits := 8 |} (construct [x01])).
  vm_compute. reflexivity.
Defined.

(** [operator=] (lines 272-280 and 358-366) takes the raw data and a copy of
    the reference configuration from [rhs]; the validation state and the
    cached element of the assigned object stay as they were. *)
Definition assign {Cfg} (this rhs : CustomCertificateField Cfg)
  : CustomCertificateField Cfg :=
  {| vRawData := vRawData rhs; state := state this;
     fieldElement := fieldElement this; pReferenceCfg := pReferenceCfg rhs |}.

(** Why the theorems speak of reachable objects, whose raw data is fixed at
    construction: a field that was validated and then assigned to answers
    from its old cache.  Here the one-byte data [0x01], valid for 8 bits, is
    assigned to a field whose empty data had been rejected for 8 bits. *)
Example assigned_field_answers_from_old_cache :
  exists tr1 rejected tr2 accepted,
    Standin.FE_Get {| nBits := 8 |} (construct []) = (tr1, Returned rejected) /\
    Standin.FE_Get {| nBits := 8 |} (construct [x01]) = (tr2, Returned accepted) /\
    IsNull (fieldElement accepted) = false /\
    vRawData (assign rejected accepted) = [x01] /\
    returns_null (Standin.FE_Get {| nBits := 8 |} (assign rejected accepted)).
Proof.
  do 4 eexists. split; [vm_compute; reflexivity|].
  split; [vm_compute; reflexivity|]. split; [reflexivity|].
  split; [reflexivity|]. eexists. split; vm_compute; reflexivity.
Qed.






End Sidechain.

(* ================================================================== *)
(** ** rpc/mining.cpp: getblocktemplate *)

Module Mining.

Local Open Scope string_scope.
Local Open Scope list_scope.

(** *** JSON values and RPC errors *)

#[warnings="-register-all"]
Inductive UniValue : Type :=
| VNULL
| VBOOL (b : bool)
| VNUM (n : Z)
| VSTR (s : string)
| VARR (items : list UniValue)
| VOBJ (members : list (string * UniValue)).

Definition NullUniValue : UniValue := VNULL.
Definition isNull (v : UniValue) : bool := match v with VNULL => true | _ => false end.
Definition isStr (v : UniValue) : bool := match v with VSTR _ => true | _ => false end.

Fixpoint find_member (members : list (string * UniValue)) (name : string) : UniValue :=
  match members with
  | [] => NullUniValue
  | (k, v) :: rest => if String.eqb k name then v else find_member rest name
  end.

(** [find_value]: the member of that name, or the null value. *)
Definition find_value (obj : UniValue) (name : string) : UniValue :=
  match obj with
  | VOBJ members => find_member members name
  | _ => NullUniValue
  end.

Inductive RPCErrorCode : Type :=
| RPC_METHOD_NOT_FOUND
| RPC_INVALID_PARAMETER
| RPC_TYPE_ERROR
| RPC_DESERIALIZATION_ERROR
| RPC_VERIFY_ERROR
| RPC_CLIENT_NOT_CONNECTED
| RPC_CLIENT_IN_INITIAL_DOWNLOAD
| RPC_OUT_OF_MEMORY.

(** What a handler does: it returns, or throws. *)
Inductive rpc (A : Type) : Type :=
| Ok (a : A)
| JSONRPCError (code : RPCErrorCode) (message : string)
| runtime_error (what : string)
| out_of_range (what : string).
Arguments Ok {A} a.
Arguments JSONRPCError {A} code message.
Arguments runtime_error {A} what.
Arguments out_of_range {A} what.

Definition rpc_bind {A B} (m : rpc A) (k : A -> rpc B) : rpc B :=
  match m with
  | Ok a => k a
  | JSONRPCError c msg => JSONRPCError c msg
  | runtime_error w => runtime_error w
  | out_of_range w => out_of_range w
  end.

Declare Scope rpc_scope.
Delimit Scope rpc_scope with rpc.
Notation "x <- m ;; k" := (rpc_bind m (fun x => k))
  (at level 61, m at next level, right associativity) : rpc_scope.
Notation "m ;;; k" := (rpc_bind m (fun _ => k))
  (at level 61, right associativity) : rpc_scope.

(** *** The node as [getblocktemplate] sees it before the template *)

Definition uint256 : Type := Z.

Record CBlock : Type := {
  GetHash : uint256;
  hashPrevBlock : uint256
}.

(** A block index entry, as far as the proposal branch reads it. *)
Record CBlockIndex : Type := {
  IsValid_BLOCK_VALID_SCRIPTS : bool;   (* pindex->IsValid(BLOCK_VALID_SCRIPTS) *)
  nStatus_BLOCK_FAILED_MASK : bool      (* pindex->nStatus & BLOCK_FAILED_MASK *)
}.

Inductive mode_state : Type := MODE_VALID | MODE_INVALID | MODE_ERROR.

Record CValidationState : Type := {
  mode : mode_state;
  GetRejectReason : string
}.

Record Node : Type := {
  mineraddress : string;               (* GetArg("-mineraddress", "") *)
  ENABLE_WALLET : bool;                (* the build has the wallet *)
  pwalletMain : bool;                  (* pwalletMain is not null *)
  Height : Z;                          (* chainActive.Height() *)
  areSidechainsSupported : Z -> bool;  (* ForkManager *)
  DecodeHexBlk : string -> option CBlock;
  mapBlockIndex : uint256 -> option CBlockIndex;
  TipHash : uint256;                   (* chainActive.Tip()->GetBlockHash() *)
  TestBlockValidity : CBlock -> CValidationState;
  vNodes_empty : bool;                 (* vNodes.empty() *)
  IsInitialBlockDownload : bool
}.

(** The same node with other peers and another download status. *)
Definition with_network (node : Node) (no_peers downloading : bool) : Node :=
  {| mineraddress := mineraddress node;
     ENABLE_WALLET := ENABLE_WALLET node;
     pwalletMain := pwalletMain node;
     Height := Height node;
     areSidechainsSupported := areSidechainsSupported node;
     DecodeHexBlk := DecodeHexBlk node;
     mapBlockIndex := mapBlockIndex node;
     TipHash := TipHash node;
     TestBlockValidity := TestBlockValidity node;
     vNodes_empty := no_peers;
     IsInitialBlockDownload := downloading |}.

Definition BIP22ValidationResult (state : CValidationState) : rpc UniValue :=
  match mode state with
  | MODE_VALID => Ok NullUniValue
  | MODE_ERROR => JSONRPCError RPC_VERIFY_ERROR (GetRejectReason state)
  | MODE_INVALID =>
      if String.eqb (GetRejectReason state) "" then Ok (VSTR "rejected")
      else Ok (VSTR (GetRejectReason state))
  end.

(** Lines 489-497: a wallet or a miner address is required. *)
Definition require_coinbase_destination (node : Node) : rpc unit :=
  if String.eqb (mineraddress node) "" then
    if ENABLE_WALLET node then
      if negb (pwalletMain node)
      then JSONRPCError RPC_METHOD_NOT_FOUND "Wallet disabled and -mineraddress not set"
      else Ok tt
    else JSONRPCError RPC_METHOD_NOT_FOUND
           "zend compiled without wallet and -mineraddress not set"
  else Ok tt.

(** Lines 520-548: the proposal branch; every path returns or throws. *)
Definition proposal (node : Node) (oparam : UniValue) : rpc UniValue :=
  match find_value oparam "data" with
  | VSTR data =>
      match DecodeHexBlk node data with
      | None => JSONRPCError RPC_DESERIALIZATION_ERROR "Block decode failed"
      | Some block =>
          match mapBlockIndex node (GetHash block) with
          | Some pindex =>
              if IsValid_BLOCK_VALID_SCRIPTS pindex then Ok (VSTR "duplicate")
              else if nStatus_BLOCK_FAILED_MASK pindex then Ok (VSTR "duplicate-invalid")
              else Ok (VSTR "duplicate-inconclusive")
          | None =>
              if negb (Z.eqb (hashPrevBlock block) (TipHash node))
              then Ok (VSTR "inconclusive-not-best-prevblk")
              else BIP22ValidationResult (TestBlockValidity node block)
          end
      end
  | _ => JSONRPCError RPC_TYPE_ERROR "Missing data String key for proposal"
  end.

(** Where the handler stands after line 559: finished with a value, or about
    to serve a template, with the long-poll token and the fork flag. *)
Inductive stage : Type :=
| Finished (v : UniValue)
| Template (lpval : UniValue) (certSupported : bool).

(** Lines 555-559: the preconditions of a template. *)
Definition require_network (node : Node) : rpc unit :=
  if vNodes_empty node
  then JSONRPCError RPC_CLIENT_NOT_CONNECTED "Horizen is not connected!"
  else if IsInitialBlockDownload node
  then JSONRPCError RPC_CLIENT_IN_INITIAL_DOWNLOAD "Horizen is downloading blocks..."
  else Ok tt.

Definition template_stage (node : Node) (strMode : string) (lpval : UniValue)
    (certSupported : bool) : rpc stage :=
  if negb (String.eqb strMode "template")
  then JSONRPCError RPC_INVALID_PARAMETER "Invalid mode"
  else (require_network node ;;; Ok (Template lpval certSupported))%rpc.

(** Lines 425-559 of [getblocktemplate]. *)
Definition getblocktemplate_prologue (node : Node) (fHelp : bool)
    (params : list UniValue) : rpc stage :=
  if fHelp || (1 <? length params)%nat then runtime_error "getblocktemplate help"
  else
    (require_coinbase_destination node ;;;
     let nHeight := Height node + 1 in
     let certSupported := areSidechainsSupported node nHeight in
     match params with
     | [] => template_stage node "template" NullUniValue certSupported
     | VOBJ members :: _ =>
         let oparam := VOBJ members in
         strMode <- match find_value oparam "mode" with
                    | VSTR s => Ok s
                    | VNULL => Ok "template"
                    | _ => JSONRPCError RPC_INVALID_PARAMETER "Invalid mode"
                    end ;;
         let lpval := find_value oparam "longpollid" in
         if String.eqb strMode "proposal"
         then (v <- proposal node oparam ;; Ok (Finished v))
         else template_stage node strMode lpval certSupported
     | _ :: _ => runtime_error "JSON value is not an object as expected"
     end)%rpc.

(** No coinbase destination: neither a miner address nor a wallet. *)
Definition no_coinbase_destination (node : Node) : Prop :=
  mineraddress node = "" /\ (ENABLE_WALLET node = false \/ pwalletMain node = false).

Definition is_method_not_found {A} (r : rpc A) : Prop :=
  exists msg, r = JSONRPCError RPC_METHOD_NOT_FOUND msg.

(** The two errors of the network preconditions. *)
Definition is_network_error {A} (r : rpc A) : Prop :=
  exists msg, r = JSONRPCError RPC_CLIENT_NOT_CONNECTED msg \/
              r = JSONRPCError RPC_CLIENT_IN_INITIAL_DOWNLOAD msg.

Lemma require_coinbase_destination_fails (node : Node) :
  no_coinbase_destination node ->
  is_method_not_found (require_coinbase_destination node).
Proof.
  intros (A & W). unfold require_coinbase_destination. rewrite A. simpl.
  destruct (ENABLE_WALLET node) eqn:E.
  - destruct W as [W | W]; [discriminate|]. rewrite W. eexists. reflexivity.
  - eexists. reflexivity.
Qed.

Lemma require_coinbase_destination_network (node : Node) (e d : bool) :
  require_coinbase_destination (with_network node e d) =
  require_coinbase_destination node.
Proof. reflexivity. Qed.

Lemma proposal_network (node : Node) (e d : bool) (oparam : UniValue) :
  proposal (with_network node e d) oparam = proposal node oparam.
Proof. reflexivity. Qed.

Lemma proposal_no_network_error (node : Node) (oparam : UniValue) :
  ~ is_network_error (proposal node oparam).
Proof.
  unfold proposal, BIP22ValidationResult. intros (msg & E).
  destruct (find_value oparam "data"); try (destruct E; discriminate).
  destruct (DecodeHexBlk node s) as [block|]; [|destruct E; discriminate].
  destruct (mapBlockIndex node (GetHash block)) as [pindex|].
  - destruct (IsValid_BLOCK_VALID_SCRIPTS pindex); [destruct E; discriminate|].
    destruct (nStatus_BLOCK_FAILED_MASK pindex); destruct E; discriminate.
  - destruct (negb _); [destruct E; discriminate|].
    destruct (mode (TestBlockValidity node block));
      try (destruct E; discriminate).
    destruct (String.eqb _ _); destruct E; discriminate.
Qed.

(** C10: without a coinbase destination every call, a proposal included, is
    refused with method-not-found; with one, a proposal is answered by the
    proposal branch alone, the same whatever the peers and the download
    status, and never with one of the two network errors. *)
Theorem proposal_preconditions (node : Node) (members : list (string * UniValue)) :
  find_member members "mode" = VSTR "proposal" ->
  (no_coinbase_destination node ->
   is_method_not_found (getblocktemplate_prologue node false [VOBJ members])) /\
  (require_coinbase_destination node = Ok tt ->
   getblocktemplate_prologue node false [VOBJ members] =
     (v <- proposal node (VOBJ members) ;; Ok (Finished v))%rpc /\
   (forall no_peers downloading,
      getblocktemplate_prologue (with_network node no_peers downloading) false
        [VOBJ members] =
      getblocktemplate_prologue node false [VOBJ members]) /\
   ~ is_network_error (getblocktemplate_prologue node false [VOBJ members])).
Proof.
  intros Mode.
  assert (Run : forall n : Node,
             getblocktemplate_prologue n false [VOBJ members] =
             (require_coinbase_destination n ;;;
              v <- proposal n (VOBJ members) ;; Ok (Finished v))%rpc).
  { intros n. unfold getblocktemplate_prologue. simpl. rewrite Mode. reflexivity. }
  split.
  - intros D. rewrite Run.
    destruct (require_coinbase_destination_fails node D) as (msg & E).
    rewrite E. exists msg. reflexivity.
  - intros D. rewrite Run, D. split; [reflexivity|]. split.
    + intros e d. rewrite Run, require_coinbase_destination_network, D,
        proposal_network. reflexivity.
    + simpl. intros (msg & E). apply (proposal_no_network_error node (VOBJ members)).
      exists msg. destruct (proposal node (VOBJ members));
        simpl in E; destruct E as [E | E]; try discriminate;
        injection E as -> ->; auto.
Qed.

(** *** The long poll (lines 563-607) *)

(** The pair a long poll watches. *)
Record watch : Type := {
  hashWatchedChain : uint256;
  nTransactionsUpdatedLastLP : Z
}.

(** [unsigned int] is 32 bits wide. *)
Definition to_unsigned_int (v : Z) : Z := v mod 2 ^ 32.

(** What one turn of the wait loop sees: the tip and the RPC status at the
    loop head, whether [timed_wait] was woken before its deadline, and the
    mempool counter read after a timeout. *)
Record observation : Type := {
  tip_hash : uint256;
  IsRPCRunning : bool;
  notified : bool;
  GetTransactionsUpdated : Z
}.

Inductive sync_event : Type :=
| LEAVE_CRITICAL_SECTION      (* cs_main released *)
| timed_wait (checktxtime : Z)
| ENTER_CRITICAL_SECTION.     (* cs_main taken again *)

Inductive exit_reason : Type := TipChanged | RPCStopped | MempoolChanged.

Inductive wait_state : Type :=
| Waiting (checktxtime : Z)
| Exited (why : exit_reason) (checktxtime : Z).

(** The [while] loop of lines 591-600 over the observations of its turns;
    [Waiting] when they run out before the loop exits. *)
Fixpoint wait_loop (w : watch) (checktxtime : Z) (obs : list observation)
  : list sync_event * wait_state :=
  match obs with
  | [] => ([], Waiting checktxtime)
  | o :: rest =>
      if negb (Z.eqb (tip_hash o) (hashWatchedChain w))
      then ([], Exited TipChanged checktxtime)
      else if negb (IsRPCRunning o) then ([], Exited RPCStopped checktxtime)
      else
        let (evs, st) :=
          if notified o then wait_loop w checktxtime rest
          else if negb (Z.eqb (GetTransactionsUpdated o) (nTransactionsUpdatedLastLP w))
          then ([], Exited MempoolChanged checktxtime)
          else wait_loop w (checktxtime + 10) rest in
        (timed_wait checktxtime :: evs, st)
  end.

Section LongPoll.

(** [uint256::SetHex] and [atoi64] of the utility files. *)
Variable SetHex : string -> uint256.
Variable atoi64 : string -> Z.

(** Lines 563-583: the watched pair, if the call is to wait at all.
    [std::string::substr(64)] throws on a string shorter than 64. *)
Definition longpoll_watch (lpval : UniValue) (tipHash : uint256)
    (nTransactionsUpdatedLast : Z) : rpc (option watch) :=
  match lpval with
  | VNULL => Ok None
  | VSTR lpstr =>
      if (String.length lpstr <? 64)%nat then out_of_range "basic_string::substr"
      else Ok (Some {| hashWatchedChain := SetHex (substring 0 64 lpstr);
                       nTransactionsUpdatedLastLP :=
                         to_unsigned_int
                           (atoi64 (substring 64 (String.length lpstr - 64) lpstr)) |})
  | _ => Ok (Some {| hashWatchedChain := tipHash;
                     nTransactionsUpdatedLastLP := nTransactionsUpdatedLast |})
  end.

(** Lines 563-607.  [now] is the clock when the wait starts, in seconds;
    [running_after] is [IsRPCRunning()] once the lock is held again.  The
    outcome is [None] while the loop is still waiting. *)
Definition long_poll (lpval : UniValue) (tipHash : uint256)
    (nTransactionsUpdatedLast : Z) (now : Z) (obs : list observation)
    (running_after : bool) : list sync_event * option (rpc unit) :=
  match longpoll_watch lpval tipHash nTransactionsUpdatedLast with
  | Ok None => ([], Some (Ok tt))
  | Ok (Some w) =>
      let (evs, st) := wait_loop w (now + 60) obs in
      match st with
      | Waiting _ => (LEAVE_CRITICAL_SECTION :: evs, None)
      | Exited _ _ =>
          (LEAVE_CRITICAL_SECTION :: evs ++ [ENTER_CRITICAL_SECTION],
           Some (if negb running_after
                 then JSONRPCError RPC_CLIENT_NOT_CONNECTED "Shutting down"
                 else Ok tt))
      end
  | JSONRPCError c m => ([], Some (JSONRPCError c m))
  | runtime_error m => ([], Some (runtime_error m))
  | out_of_range m => ([], Some (out_of_range m))
  end.

End LongPoll.

(** A turn after which the loop goes on waiting. *)
Definition keeps_waiting (w : watch) (o : observation) : Prop :=
  tip_hash o = hashWatchedChain w /\ IsRPCRunning o = true /\
  (notified o = true \/ GetTransactionsUpdated o = nTransactionsUpdatedLastLP w).

(** A turn at which the loop exits, for the given reason. *)
Definition exits_at (w : watch) (why : exit_reason) (o : observation) : Prop :=
  match why with
  | TipChanged => tip_hash o <> hashWatchedChain w
  | RPCStopped => tip_hash o = hashWatchedChain w /\ IsRPCRunning o = false
  | MempoolChanged =>
      tip_hash o = hashWatchedChain w /\ IsRPCRunning o = true /\
      notified o = false /\
      GetTransactionsUpdated o <> nTransactionsUpdatedLastLP w
  end.

(** The timeouts among the turns. *)
Definition timeouts (obs : list observation) : Z :=
  Z.of_nat (length (filter (fun o => negb (notified o)) obs)).

(** Whether every [timed_wait] of a trace happens while cs_main is released,
    starting from [held]; and whether cs_main is held at the end. *)
Fixpoint waits_unlocked (held : bool) (evs : list sync_event) : bool :=
  match evs with
  | [] => true
  | LEAVE_CRITICAL_SECTION :: rest => held && waits_unlocked false rest
  | ENTER_CRITICAL_SECTION :: rest => negb held && waits_unlocked true rest
  | timed_wait _ :: rest => negb held && waits_unlocked held rest
  end.

Fixpoint held_after (held : bool) (evs : list sync_event) : bool :=
  match evs with
  | [] => held
  | LEAVE_CRITICAL_SECTION :: rest => held_after false rest
  | ENTER_CRITICAL_SECTION :: rest => held_after true rest
  | timed_wait _ :: rest => held_after held rest
  end.

Definition is_timed_wait (e : sync_event) : bool :=
  match e with timed_wait _ => true | _ => false end.

(** *** The template cache (lines 609-641) *)

Definition block_index : Type := Z.    (* a CBlockIndex*, not null *)
Definition CBlockTemplate : Type := Z. (* a template, by identity *)

(** The function's static variables. *)
Record template_cache : Type := {
  pindexPrev : option block_index;
  nStart : Z;
  nTransactionsUpdatedLast : Z;
  pblocktemplate : option CBlockTemplate
}.

(** All static variables start zeroed. *)
Definition cache_initial : template_cache :=
  {| pindexPrev := None; nStart := 0; nTransactionsUpdatedLast := 0;
     pblocktemplate := None |}.

(** What the update reads: the tip, the mempool counter, the clock and what
    [CreateNewBlockWithKey] will hand back (null on failure). *)
Record chain_view : Type := {
  Tip : block_index;
  mempool_GetTransactionsUpdated : Z;
  GetTime : Z;
  CreateNewBlockWithKey : option CBlockTemplate
}.

Definition same_tip (p : option block_index) (tip : block_index) : bool :=
  match p with Some i => Z.eqb i tip | None => false end.

(** The condition of line 613-614. *)
Definition is_stale (c : template_cache) (v : chain_view) : bool :=
  negb (same_tip (pindexPrev c) (Tip v)) ||
  (negb (Z.eqb (mempool_GetTransactionsUpdated v) (nTransactionsUpdatedLast c)) &&
   (GetTime v - nStart c >? 5)).

(** Lines 616-629: the cache as it stands when construction begins. *)
Definition begin_rebuild (c : template_cache) (v : chain_view) : template_cache :=
  {| pindexPrev := None;
     nStart := GetTime v;
     nTransactionsUpdatedLast := mempool_GetTransactionsUpdated v;
     pblocktemplate := None |}.

Record update : Type := {
  outcome_of : rpc unit;
  cache_after : template_cache;
  (** the cache [CreateNewBlockWithKey] was called on, if it was called *)
  built_on : option template_cache
}.

Definition update_block (c : template_cache) (v : chain_view) : update :=
  if is_stale c v then
    let c1 := begin_rebuild c v in
    let pindexPrevNew := Tip v in
    match CreateNewBlockWithKey v with
    | None =>
        {| outcome_of := JSONRPCError RPC_OUT_OF_MEMORY "Out of memory";
           cache_after := c1; built_on := Some c1 |}
    | Some t =>
        {| outcome_of := Ok tt;
           cache_after := {| pindexPrev := Some pindexPrevNew;
                             nStart := nStart c1;
                             nTransactionsUpdatedLast := nTransactionsUpdatedLast c1;
                             pblocktemplate := Some t |};
           built_on := Some c1 |}
    end
  else {| outcome_of := Ok tt; cache_after := c; built_on := None |}.

(** *** The [mutable] list (lines 701-711) *)

(** The static array is filled by the first call that reaches it. *)
Definition fill_aMutable (aMutable : list string) (certSupported : bool)
  : list string :=
  match aMutable with
  | [] =>
      ["time"; "transactions"] ++
      (if certSupported then ["certificates"] else []) ++ ["prevblock"]
  | _ => aMutable
  end.

(** The [mutable] member of each of a sequence of template responses, given
    the fork flag of each call and the static array before the first. *)
Fixpoint mutable_of_responses (aMutable : list string) (calls : list bool)
  : list (list string) :=
  match calls with
  | [] => []
  | certSupported :: rest =>
      let aMutable' := fill_aMutable aMutable certSupported in
      aMutable' :: mutable_of_responses aMutable' rest
  end.

Definition contains (name : string) (l : list string) : bool :=
  existsb (String.eqb name) l.

(** *** The wait loop (C7) *)

Lemma timeouts_cons (o : observation) (obs : list observation) :
  timeouts (o :: obs) = (if notified o then 0 else 1) + timeouts obs.
Proof.
  unfold timeouts. cbn [filter]. destruct (notified o); cbn [negb length]; lia.
Qed.

Lemma wait_loop_events (w : watch) (obs : list observation) :
  forall t, forallb is_timed_wait (fst (wait_loop w t obs)) = true.
Proof.
  induction obs as [|o rest IH]; intros t; simpl; [reflexivity|].
  destruct (negb (Z.eqb _ _)); [reflexivity|].
  destruct (negb (IsRPCRunning o)); [reflexivity|].
  destruct (notified o).
  - specialize (IH t). destruct (wait_loop w t rest). exact IH.
  - destruct (negb (Z.eqb _ _)); [reflexivity|].
    specialize (IH (t + 10)). destruct (wait_loop w (t + 10) rest). exact IH.
Qed.

(** The loop, turn by turn: while it waits every turn so far kept it waiting;
    when it exits, the turns before the last kept it waiting and the last one
    shows the reason; the deadline has moved by ten seconds for each timeout
    that was waited through. *)
Lemma wait_loop_spec (w : watch) (obs : list observation) :
  forall t,
    match snd (wait_loop w t obs) with
    | Waiting t' =>
        Forall (keeps_waiting w) obs /\ t' = t + 10 * timeouts obs
    | Exited why t' =>
        exists waited o rest,
          obs = waited ++ o :: rest /\
          Forall (keeps_waiting w) waited /\
          exits_at w why o /\
          t' = t + 10 * timeouts waited
    end.
Proof.
  induction obs as [|o rest IH]; intros t; cbn [wait_loop snd].
  - split; [constructor | unfold timeouts; cbn [filter length]; lia].
  - destruct (Z.eqb_spec (tip_hash o) (hashWatchedChain w)) as [T | T]; cbn [negb snd].
    2:{ exists [], o, rest. split; [reflexivity|]. split; [constructor|].
        split; [exact T|]. unfold timeouts; cbn [filter length]; lia. }
    destruct (IsRPCRunning o) eqn:Run; cbn [negb snd].
    2:{ exists [], o, rest. split; [reflexivity|]. split; [constructor|].
        split; [split; [exact T | exact Run]|].
        unfold timeouts; cbn [filter length]; lia. }
    destruct (notified o) eqn:N.
    + specialize (IH t). destruct (wait_loop w t rest) as [evs st]. cbn [snd] in *.
      destruct st as [t' | why t'].
      * destruct IH as (F & E). split.
        -- constructor; [|exact F]. repeat split; auto.
        -- rewrite timeouts_cons, N. lia.
      * destruct IH as (waited & o' & rest' & E & F & X & D).
        exists (o :: waited), o', rest'. split; [rewrite E; reflexivity|].
        split; [constructor; [repeat split; auto | exact F]|].
        split; [exact X|]. rewrite timeouts_cons, N. lia.
    + destruct (Z.eqb_spec (GetTransactionsUpdated o) (nTransactionsUpdatedLastLP w))
        as [C | C]; cbn [negb snd].
      * specialize (IH (t + 10)).
        destruct (wait_loop w (t + 10) rest) as [evs st]. cbn [snd] in *.
        destruct st as [t' | why t'].
        -- destruct IH as (F & E). split.
           ++ constructor; [|exact F]. repeat split; auto.
           ++ rewrite timeouts_cons, N. lia.
        -- destruct IH as (waited & o' & rest' & E & F & X & D).
           exists (o :: waited), o', rest'. split; [rewrite E; reflexivity|].
           split; [constructor; [repeat split; auto | exact F]|].
           split; [exact X|]. rewrite timeouts_cons, N. lia.
      * exists [], o, rest. split; [reflexivity|]. split; [constructor|].
        split; [repeat split; auto|].
        unfold timeouts; cbn [filter length]; lia.
Qed.

Lemma waits_unlocked_waits (evs tl : list sync_event) :
  forallb is_timed_wait evs = true ->
  waits_unlocked false (evs ++ tl) = waits_unlocked false tl /\
  held_after false (evs ++ tl) = held_after false tl.
Proof.
  induction evs as [|e evs IH]; simpl; [auto|].
  destruct e; simpl; try discriminate. exact IH.
Qed.

Lemma waits_unlocked_only_waits (evs : list sync_event) :
  forallb is_timed_wait evs = true -> waits_unlocked false evs = true.
Proof.
  induction evs as [|e evs IH]; simpl; [auto|].
  destruct e; simpl; try discriminate. exact IH.
Qed.

(** The waits of the first [n] turns: the wait of turn [k] is handed the
    deadline of the start moved by ten seconds for each timeout among the
    turns before it. *)
Definition deadlines (t : Z) (obs : list observation) (n : nat) : list sync_event :=
  map (fun k => timed_wait (t + 10 * timeouts (firstn k obs))) (seq 0 n).

Lemma deadlines_cons (t : Z) (o : observation) (obs : list observation) (n : nat) :
  deadlines t (o :: obs) (S n)
  = timed_wait t :: deadlines (t + (if notified o then 0 else 10)) obs n.
Proof.
  unfold deadlines. cbn [seq map firstn]. f_equal.
  - f_equal. unfold timeouts. cbn [filter length]. lia.
  - rewrite <- seq_shift, map_map. apply map_ext. intros k.
    cbn [firstn]. rewrite timeouts_cons. f_equal.
    destruct (notified o); lia.
Qed.

(** The loop and its waits, turn by turn: as [wait_loop_spec], with the
    waits the loop has made. *)
Lemma wait_loop_trace (w : watch) (obs : list observation) :
  forall t,
    match snd (wait_loop w t obs) with
    | Waiting t' =>
        Forall (keeps_waiting w) obs /\ t' = t + 10 * timeouts obs /\
        fst (wait_loop w t obs) = deadlines t obs (length obs)
    | Exited why t' =>
        exists waited o rest,
          obs = waited ++ o :: rest /\
          Forall (keeps_waiting w) waited /\
          exits_at w why o /\
          t' = t + 10 * timeouts waited /\
          fst (wait_loop w t obs)
          = deadlines t obs
              (length waited + match why with MempoolChanged => 1 | _ => 0 end)
    end.
Proof.
  induction obs as [|o rest IH]; intros t; cbn [wait_loop snd fst].
  - split; [constructor|]. split; [unfold timeouts; cbn [filter length]; lia|].
    reflexivity.
  - destruct (Z.eqb_spec (tip_hash o) (hashWatchedChain w)) as [T | T];
      cbn [negb snd fst].
    2:{ exists [], o, rest. split; [reflexivity|]. split; [constructor|].
        split; [exact T|]. split; [unfold timeouts; cbn [filter length]; lia|].
        reflexivity. }
    destruct (IsRPCRunning o) eqn:Run; cbn [negb snd fst].
    2:{ exists [], o, rest. split; [reflexivity|]. split; [constructor|].
        split; [split; [exact T | exact Run]|].
        split; [unfold timeouts; cbn [filter length]; lia|]. reflexivity. }
    destruct (notified o) eqn:N.
    + specialize (IH t). destruct (wait_loop w t rest) as [evs st].
      cbn [snd fst] in *. destruct st as [t' | why t'].
      * destruct IH as (F & E & Ev). split; [|split].
        -- constructor; [|exact F]. split; [exact T|]. split; [exact Run|].
           left. exact N.
        -- rewrite timeouts_cons, N. lia.
        -- cbn [length]. rewrite deadlines_cons, N, Z.add_0_r, Ev. reflexivity.
      * destruct IH as (waited & o' & rest' & E & F & X & D & Ev).
        exists (o :: waited), o', rest'. split; [rewrite E; reflexivity|].
        split; [constructor; [|exact F]|].
        { split; [exact T|]. split; [exact Run|]. left. exact N. }
        split; [exact X|]. split; [rewrite timeouts_cons, N; lia|].
        cbn [length Nat.add]. rewrite deadlines_cons, N, Z.add_0_r, Ev.
        reflexivity.
    + destruct (Z.eqb_spec (GetTransactionsUpdated o) (nTransactionsUpdatedLastLP w))
        as [C | C]; cbn [negb snd fst].
      * specialize (IH (t + 10)).
        destruct (wait_loop w (t + 10) rest) as [evs st]. cbn [snd fst] in *.
        destruct st as [t' | why t'].
        -- destruct IH as (F & E & Ev). split; [|split].
           ++ constructor; [|exact F]. split; [exact T|]. split; [exact Run|].
              right. exact C.
           ++ rewrite timeouts_cons, N. lia.
           ++ cbn [length]. rewrite deadlines_cons, N, Ev. reflexivity.
        -- destruct IH as (waited & o' & rest' & E & F & X & D & Ev).
           exists (o :: waited), o', rest'. split; [rewrite E; reflexivity|].
           split; [constructor; [|exact F]|].
           { split; [exact T|]. split; [exact Run|]. right. exact C. }
           split; [exact X|]. split; [rewrite timeouts_cons, N; lia|].
           cbn [length Nat.add]. rewrite deadlines_cons, N, Ev. reflexivity.
      * exists [], o, rest. split; [reflexivity|]. split; [constructor|].
        split; [split; [exact T|]; split; [exact Run|]; split; [exact N | exact C]|].
        split; [unfold timeouts; cbn [filter length]; lia|].
        cbn [length Nat.add]. rewrite deadlines_cons. reflexivity.
Qed.

(** C7: a call that long-polls releases cs_main before its first wait, waits
    only while it is released and holds it again when it goes on; the loop
    exits only on a changed tip, on a timeout that finds the mempool counter
    changed, or on the RPC server stopping.  It waits once for every turn
    that keeps it waiting, and once more before it finds the counter changed,
    and for nothing else; the first wait is handed the deadline one minute
    after the start, and every wait the deadline of the start moved by ten
    seconds for each timeout before it, all of which found the counter
    unchanged.  A call that finds the server stopped after the wait throws
    the shutdown error. *)
Theorem long_poll_wait
    (SetHex : string -> uint256) (atoi64 : string -> Z)
    (lpval : UniValue) (tipHash : uint256) (last now : Z)
    (obs : list observation) (running_after : bool) :
  match longpoll_watch SetHex atoi64 lpval tipHash last with
  | Ok (Some w) =>
      let evs := fst (wait_loop w (now + 60) obs) in
      match snd (wait_loop w (now + 60) obs) with
      | Waiting t' =>
          long_poll SetHex atoi64 lpval tipHash last now obs running_after =
            (LEAVE_CRITICAL_SECTION :: evs, None) /\
          Forall (keeps_waiting w) obs /\
          t' = now + 60 + 10 * timeouts obs /\
          evs = deadlines (now + 60) obs (length obs)
      | Exited why t' =>
          long_poll SetHex atoi64 lpval tipHash last now obs running_after =
            (LEAVE_CRITICAL_SECTION :: evs ++ [ENTER_CRITICAL_SECTION],
             Some (if running_after then Ok tt
                   else JSONRPCError RPC_CLIENT_NOT_CONNECTED "Shutting down")) /\
          held_after true
            (fst (long_poll SetHex atoi64 lpval tipHash last now obs running_after))
            = true /\
          exists waited o rest,
            obs = waited ++ o :: rest /\
            Forall (keeps_waiting w) waited /\
            exits_at w why o /\
            t' = now + 60 + 10 * timeouts waited /\
            evs = deadlines (now + 60) obs
                    (length waited
                     + match why with MempoolChanged => 1 | _ => 0 end)
      end /\
      (forall k e, nth_error evs k = Some e ->
                   e = timed_wait (now + 60 + 10 * timeouts (firstn k obs))) /\
      forallb is_timed_wait evs = true /\
      waits_unlocked true
        (fst (long_poll SetHex atoi64 lpval tipHash last now obs running_after))
        = true
  | _ =>
      fst (long_poll SetHex atoi64 lpval tipHash last now obs running_after) = []
  end.
Proof.
  unfold long_poll.
  destruct (longpoll_watch SetHex atoi64 lpval tipHash last) as [[w|] | | |];
    try reflexivity.
  pose proof (wait_loop_trace w obs (now + 60)) as Spec.
  pose proof (wait_loop_events w obs (now + 60)) as Evs.
  assert (Nth : forall n k e,
             nth_error (deadlines (now + 60) obs n) k = Some e ->
             e = timed_wait (now + 60 + 10 * timeouts (firstn k obs))).
  { intros n k e E. unfold deadlines in E.
    rewrite nth_error_map in E.
    destruct (nth_error (seq 0 n) k) as [j|] eqn:J; [|discriminate].
    assert (K : (k < n)%nat).
    { rewrite <- (length_seq n 0). apply nth_error_Some. congruence. }
    rewrite (nth_error_nth' _ 0%nat) in J by (rewrite length_seq; exact K).
    rewrite seq_nth in J by exact K. injection J as <-.
    cbn [option_map Nat.add] in E. injection E as <-. reflexivity. }
  destruct (wait_loop w (now + 60) obs) as [evs st]. cbn [fst snd] in *.
  destruct st as [t' | why t'].
  - destruct Spec as (F & E & Ev).
    split; [split; [reflexivity | split; [exact F | split; [exact E | exact Ev]]]|].
    split; [rewrite Ev; apply Nth|]. split; [exact Evs|].
    cbn [fst waits_unlocked andb]. apply waits_unlocked_only_waits. exact Evs.
  - split; [split; [|split; [|exact Spec]]|split; [|split; [exact Evs|]]].
    + destruct running_after; reflexivity.
    + cbn [fst held_after].
      rewrite (proj2 (waits_unlocked_waits evs [ENTER_CRITICAL_SECTION] Evs)).
      reflexivity.
    + destruct Spec as (waited & o & rest & _ & _ & _ & _ & Ev).
      rewrite Ev. apply Nth.
    + cbn [fst waits_unlocked andb].
      rewrite (proj1 (waits_unlocked_waits evs [ENTER_CRITICAL_SECTION] Evs)).
      reflexivity.
Qed.

(** *** The watched pair (C6) *)

Lemma length_append (h d : string) :
  String.length (h ++ d)%string = (String.length h + String.length d)%nat.
Proof. induction h as [|c h IH]; simpl; [reflexivity | rewrite IH; reflexivity]. Qed.

Lemma substring_all (d : string) : substring 0 (String.length d) d = d.
Proof. induction d as [|c d IH]; simpl; [reflexivity | rewrite IH; reflexivity]. Qed.

Lemma substring_append_l (h d : string) :
  substring 0 (String.length h) (h ++ d)%string = h.
Proof.
  induction h as [|c h IH]; simpl.
  - destruct d; reflexivity.
  - rewrite IH. reflexivity.
Qed.

Lemma substring_append_r (h d : string) :
  substring (String.length h) (String.length d) (h ++ d)%string = d.
Proof.
  induction h as [|c h IH]; simpl; [apply substring_all | exact IH].
Qed.

(** C6, as the code has it: a string token of at least 64 characters is cut
    into the hash (its first 64 characters) and the counter (the rest, as an
    unsigned int), and a shorter string makes [substr] throw; a token that is
    neither null nor a string watches the current tip and the counter of the
    last template build; and with no token the call does not wait at all,
    whatever happens to the chain. *)
Theorem longpollid_watch
    (SetHex : string -> uint256) (atoi64 : string -> Z)
    (tipHash : uint256) (last : Z) :
  (forall h d : string,
     String.length h = 64%nat ->
     longpoll_watch SetHex atoi64 (VSTR (h ++ d)%string) tipHash last =
     Ok (Some {| hashWatchedChain := SetHex h;
                 nTransactionsUpdatedLastLP := to_unsigned_int (atoi64 d) |})) /\
  (forall lpstr : string,
     (String.length lpstr < 64)%nat ->
     longpoll_watch SetHex atoi64 (VSTR lpstr) tipHash last =
     out_of_range "basic_string::substr") /\
  (forall lpval : UniValue,
     isNull lpval = false -> isStr lpval = false ->
     longpoll_watch SetHex atoi64 lpval tipHash last =
     Ok (Some {| hashWatchedChain := tipHash;
                 nTransactionsUpdatedLastLP := last |})) /\
  (forall (now : Z) (obs : list observation) (running_after : bool),
     long_poll SetHex atoi64 VNULL tipHash last now obs running_after =
     ([], Some (Ok tt))).
Proof.
  split; [|split; [|split]].
  - intros h d L. unfold longpoll_watch.
    rewrite length_append, L.
    replace (64 + String.length d <? 64)%nat with false
      by (symmetry; apply Nat.ltb_ge; lia).
    replace (64 + String.length d - 64)%nat with (String.length d) by lia.
    rewrite <- L at 1 2. rewrite substring_append_l, substring_append_r.
    reflexivity.
  - intros lpstr L. unfold longpoll_watch.
    apply Nat.ltb_lt in L. rewrite L. reflexivity.
  - intros lpval N S. destruct lpval; try discriminate; reflexivity.
  - reflexivity.
Qed.

(** Stand-ins for the two parsers: hexadecimal digits, most significant
    first, and decimal digits, each up to the first other character. *)
Definition digit_of (base : Z) (c : ascii) : option Z :=
  let n := Z.of_nat (nat_of_ascii c) in
  let d := if ((48 <=? n) && (n <=? 57))%Z then n - 48
           else if ((97 <=? n) && (n <=? 102))%Z then n - 87
           else if ((65 <=? n) && (n <=? 70))%Z then n - 55
           else base in
  if (d <? base)%Z then Some d else None.

Fixpoint parse_digits (base acc : Z) (s : string) : Z :=
  match s with
  | EmptyString => acc
  | String c s' =>
      match digit_of base c with
      | Some d => parse_digits base (base * acc + d) s'
      | None => acc
      end
  end.

Definition SetHex_standin (s : string) : uint256 := parse_digits 16 0 s.
Definition atoi64_standin (s : string) : Z := parse_digits 10 0 s.

Definition hash64 : string :=
  "00000000000000000000000000000000000000000000000000000000000000ff".

Lemma longpollid_watch_witness :
  String.length hash64 = 64%nat /\
  longpoll_watch SetHex_standin atoi64_standin (VSTR (hash64 ++ "17")%string) 5 3 =
  Ok (Some {| hashWatchedChain := SetHex_standin hash64;
              nTransactionsUpdatedLastLP :=
                to_unsigned_int (atoi64_standin "17") |}).
Proof.
  split; [reflexivity|].
  apply (proj1 (longpollid_watch SetHex_standin atoi64_standin 5 3)).
  reflexivity.
Defined.

(** A turn on which nothing has changed since the call: tip [5], counter [7]. *)
Definition quiet_turn : observation :=
  {| tip_hash := 5; IsRPCRunning := true; notified := true;
     GetTransactionsUpdated := 7 |}.

(** C6, as stated, fails.  With no token the call does not wait: it goes on
    at once although the tip and the mempool are unchanged.  With a token
    that is not a string the watched counter is the one of the last template
    build ([3] here), not the current one ([7]), so that the first timeout
    ends the wait although nothing has changed since the call. *)
Lemma longpollid_absent_does_not_wait :
  long_poll SetHex_standin atoi64_standin VNULL 5 3 0
    [quiet_turn; quiet_turn] true = ([], Some (Ok tt)) /\
  longpoll_watch SetHex_standin atoi64_standin VNULL 5 3 <>
    Ok (Some {| hashWatchedChain := 5; nTransactionsUpdatedLastLP := 7 |}) /\
  longpoll_watch SetHex_standin atoi64_standin (VNUM 1) 5 3 <>
    Ok (Some {| hashWatchedChain := 5; nTransactionsUpdatedLastLP := 7 |}) /\
  snd (wait_loop {| hashWatchedChain := 5; nTransactionsUpdatedLastLP := 3 |} 60
         [{| tip_hash := 5; IsRPCRunning := true; notified := false;
             GetTransactionsUpdated := 7 |}]) = Exited MempoolChanged 60.
Proof.
  split; [reflexivity|]. split; [discriminate|]. split; [discriminate|].
  reflexivity.
Qed.

(** *** The template cache (C5) *)

Definition stale (c : template_cache) (v : chain_view) : Prop :=
  pindexPrev c <> Some (Tip v) \/
  (mempool_GetTransactionsUpdated v <> nTransactionsUpdatedLast c /\
   GetTime v - nStart c > 5).

Lemma is_stale_iff (c : template_cache) (v : chain_view) :
  is_stale c v = true <-> stale c v.
Proof.
  unfold is_stale, stale, same_tip.
  rewrite orb_true_iff, andb_true_iff, !negb_true_iff, Z.eqb_neq.
  assert (T : (match pindexPrev c with
               | Some i => Z.eqb i (Tip v)
               | None => false
               end = false) <-> pindexPrev c <> Some (Tip v)).
  { destruct (pindexPrev c) as [i|].
    - rewrite Z.eqb_neq. split; congruence.
    - split; [discriminate | reflexivity]. }
  rewrite T. destruct (Z.gtb_spec (GetTime v - nStart c) 5); intuition lia.
Qed.

Lemma unset_tip_is_stale (c : template_cache) (v : chain_view) :
  pindexPrev c = None -> is_stale c v = true.
Proof. intros P. unfold is_stale. rewrite P. reflexivity. Qed.

Lemma update_block_built_iff (c : template_cache) (v : chain_view) :
  built_on (update_block c v) <> None <-> stale c v.
Proof.
  rewrite <- is_stale_iff. unfold update_block.
  destruct (is_stale c v).
  - destruct (CreateNewBlockWithKey v); cbn [built_on];
      split; [reflexivity | discriminate | reflexivity | discriminate].
  - cbn [built_on]. split; [intros N; exfalso; apply N; reflexivity | discriminate].
Qed.

(** C5: the template is rebuilt exactly when the cached tip differs from the
    current tip, or the mempool counter differs from the recorded one and
    more than five seconds have passed since the recorded build start.  A
    rebuild records the clock as the build start and the mempool counter as
    it is, drops the old template and clears the cached tip, all before
    [CreateNewBlockWithKey] is called, and sets the cached tip to the tip
    captured before the call only when a template came back.  So after a
    build that succeeded the next call rebuilds exactly when the tip is
    another one, or the counter is another one (a larger one, for a counter
    that does not go back) and more than five seconds have passed since that
    build started; and after a build that failed the caller has got the
    out-of-memory error, no template is kept and every later call rebuilds. *)
Theorem update_block_rebuild (c : template_cache) (v : chain_view) :
  match built_on (update_block c v) with
  | Some c1 =>
      stale c v /\
      (pindexPrev c1 = None /\ nStart c1 = GetTime v /\
       nTransactionsUpdatedLast c1 = mempool_GetTransactionsUpdated v /\
       pblocktemplate c1 = None) /\
      (nStart (cache_after (update_block c v)) = GetTime v /\
       nTransactionsUpdatedLast (cache_after (update_block c v))
       = mempool_GetTransactionsUpdated v) /\
      match CreateNewBlockWithKey v with
      | Some t =>
          outcome_of (update_block c v) = Ok tt /\
          pindexPrev (cache_after (update_block c v)) = Some (Tip v) /\
          pblocktemplate (cache_after (update_block c v)) = Some t /\
          (forall v',
             built_on (update_block (cache_after (update_block c v)) v') <> None
             <-> Tip v' <> Tip v \/
                 (mempool_GetTransactionsUpdated v' <> mempool_GetTransactionsUpdated v /\
                  GetTime v' - GetTime v > 5)) /\
          (forall v',
             mempool_GetTransactionsUpdated v <= mempool_GetTransactionsUpdated v' ->
             (built_on (update_block (cache_after (update_block c v)) v') <> None
              <-> Tip v' <> Tip v \/
                  (mempool_GetTransactionsUpdated v < mempool_GetTransactionsUpdated v' /\
                   GetTime v' - GetTime v > 5)))
      | None =>
          outcome_of (update_block c v) =
            JSONRPCError RPC_OUT_OF_MEMORY "Out of memory" /\
          pindexPrev (cache_after (update_block c v)) = None /\
          pblocktemplate (cache_after (update_block c v)) = None /\
          forall v', built_on (update_block (cache_after (update_block c v)) v')
                     <> None
      end
  | None =>
      ~ stale c v /\
      outcome_of (update_block c v) = Ok tt /\
      cache_after (update_block c v) = c
  end.
Proof.
  destruct (is_stale c v) eqn:S.
  - assert (St : stale c v) by (apply is_stale_iff; exact S).
    assert (B : built_on (update_block c v) = Some (begin_rebuild c v)).
    { unfold update_block. rewrite S.
      destruct (CreateNewBlockWithKey v); reflexivity. }
    rewrite B. split; [exact St|].
    split; [split; [|split; [|split]]; reflexivity|].
    destruct (CreateNewBlockWithKey v) as [t|] eqn:K.
    + assert (A : cache_after (update_block c v)
                  = {| pindexPrev := Some (Tip v); nStart := GetTime v;
                       nTransactionsUpdatedLast := mempool_GetTransactionsUpdated v;
                       pblocktemplate := Some t |}).
      { unfold update_block. rewrite S, K. reflexivity. }
      assert (O : outcome_of (update_block c v) = Ok tt).
      { unfold update_block. rewrite S, K. reflexivity. }
      rewrite A, O. cbn [pindexPrev nStart nTransactionsUpdatedLast pblocktemplate].
      split; [split; reflexivity|]. split; [reflexivity|]. split; [reflexivity|].
      split; [reflexivity|].
      assert (Next : forall v',
                 built_on
                   (update_block
                      {| pindexPrev := Some (Tip v); nStart := GetTime v;
                         nTransactionsUpdatedLast := mempool_GetTransactionsUpdated v;
                         pblocktemplate := Some t |} v') <> None
                 <-> Tip v' <> Tip v \/
                     (mempool_GetTransactionsUpdated v'
                      <> mempool_GetTransactionsUpdated v /\
                      GetTime v' - GetTime v > 5)).
      { intros v'. rewrite update_block_built_iff. unfold stale.
        cbn [pindexPrev nStart nTransactionsUpdatedLast].
        split; (intros [T | M]; [left; congruence | right; exact M]). }
      split; [exact Next|].
      intros v' Mono. rewrite Next.
      split; (intros [T | (M & G)]; [left; exact T|]); right; split;
        try exact G; lia.
    + assert (A : cache_after (update_block c v) = begin_rebuild c v).
      { unfold update_block. rewrite S, K. reflexivity. }
      assert (O : outcome_of (update_block c v)
                  = JSONRPCError RPC_OUT_OF_MEMORY "Out of memory").
      { unfold update_block. rewrite S, K. reflexivity. }
      rewrite A, O. split; [split; reflexivity|]. split; [reflexivity|].
      split; [reflexivity|]. split; [reflexivity|].
      intros v'. apply update_block_built_iff. apply is_stale_iff.
      apply unset_tip_is_stale. reflexivity.
  - assert (B : update_block c v
                = {| outcome_of := Ok tt; cache_after := c; built_on := None |}).
    { unfold update_block. rewrite S. reflexivity. }
    rewrite B. cbn [built_on outcome_of cache_after].
    split; [|split; reflexivity].
    intros St. apply is_stale_iff in St. congruence.
Qed.

(** *** The [mutable] list (C9) *)

(** Once the static array is filled, no later call changes it. *)
Lemma fill_aMutable_filled (aMutable : list string) (certSupported : bool) :
  aMutable <> [] -> fill_aMutable aMutable certSupported = aMutable.
Proof. destruct aMutable; [contradiction | reflexivity]. Qed.

Lemma fill_aMutable_nonempty (aMutable : list string) (certSupported : bool) :
  fill_aMutable aMutable certSupported <> [].
Proof. destruct aMutable; [destruct certSupported|]; discriminate. Qed.

Lemma mutable_of_responses_filled (aMutable : list string) (calls : list bool) :
  aMutable <> [] ->
  mutable_of_responses aMutable calls = map (fun _ => aMutable) calls.
Proof.
  intros N. induction calls as [|b rest IH]; simpl; [reflexivity|].
  rewrite (fill_aMutable_filled aMutable b N), IH. reflexivity.
Qed.

(** Every response of a process carries the list the first call built: the
    three fixed entries, and "certificates" according to the fork flag of
    the first call. *)
Lemma mutable_fixed_by_first_call (first : bool) (later : list bool) :
  mutable_of_responses [] (first :: later) =
  map (fun _ => fill_aMutable [] first) (first :: later).
Proof.
  cbn [mutable_of_responses map]. f_equal.
  apply mutable_of_responses_filled. apply fill_aMutable_nonempty.
Qed.

(** C9 at the failing input: a first template call before the sidechain fork
    and a second one after it.  The second response's [mutable] has the three
    fixed entries and lacks "certificates" although sidechains are supported
    at the time of that call. *)
Theorem mutable_stale_after_fork :
  mutable_of_responses [] [false; true] =
    [["time"; "transactions"; "prevblock"];
     ["time"; "transactions"; "prevblock"]] /\
  contains "certificates" (nth 1 (mutable_of_responses [] [false; true]) []) = false /\
  fill_aMutable [] true = ["time"; "transactions"; "certificates"; "prevblock"].
Proof. repeat split. Qed.

(** *** The proposal scenario of C10 *)

Definition node_without_destination : Node :=
  {| mineraddress := ""; ENABLE_WALLET := true; pwalletMain := false;
     Height := 100; areSidechainsSupported := fun h => (450000 <=? h)%Z;
     DecodeHexBlk := fun _ => None;
     mapBlockIndex := fun _ => None;
     TipHash := 5;
     TestBlockValidity := fun _ => {| mode := MODE_VALID; GetRejectReason := "" |};
     vNodes_empty := false; IsInitialBlockDownload := false |}.

Lemma proposal_preconditions_witness :
  find_member [("mode", VSTR "proposal"); ("data", VSTR "00")] "mode"
    = VSTR "proposal" /\
  no_coinbase_destination node_without_destination /\
  is_method_not_found
    (getblocktemplate_prologue node_without_destination false
       [VOBJ [("mode", VSTR "proposal"); ("data", VSTR "00")]]).
Proof.
  split; [reflexivity|].
  assert (D : no_coinbase_destination node_without_destination).
  { split; [reflexivity | right; reflexivity]. }
  split; [exact D|].
  apply (proj1 (proposal_preconditions node_without_destination
                  [("mode", VSTR "proposal"); ("data", VSTR "00")] eq_refl)).
  exact D.
Defined.

End Mining.

(* ================================================================== *)
(** ** sidechaintypes.cpp: the remaining operations of the CCTP objects *)

Module CctpObjects.

Import Sidechain.

(** *** CZendooCctpObject::GetHexRepr (lines 60-73) *)

Definition hexmap : list ascii :=
  ["0"; "1"; "2"; "3"; "4"; "5"; "6"; "7";
   "8"; "9"; "a"; "b"; "c"; "d"; "e"; "f"]%char.

(** [hexmap[i]]; the index is a nibble, below 16. *)
Definition hexmap_at (i : N) : ascii := nth (N.to_nat i) hexmap "0"%char.

Fixpoint GetHexRepr (byteVector : list byte) : string :=
  match byteVector with
  | [] => EmptyString
  | b :: rest =>
      String (hexmap_at (N.shiftr (Byte.to_N b) 4))
        (String (hexmap_at (N.land (Byte.to_N b) 15)) (GetHexRepr rest))
  end.

(** The reading of such a string: two hexadecimal digits a byte, high nibble
    first; [None] on an odd length or on anything but a digit. *)
Definition nibble (c : ascii) : option N :=
  option_map Z.to_N (Mining.digit_of 16 c).

Fixpoint bytes_of_hex (s : string) : option (list byte) :=
  match s with
  | EmptyString => Some []
  | String hi (String lo rest) =>
      match nibble hi, nibble lo, bytes_of_hex rest with
      | Some h, Some l, Some bs =>
          option_map (fun b => b :: bs) (Byte.of_N (16 * h + l)%N)
      | _, _, _ => None
      end
  | String _ EmptyString => None
  end.

Definition is_lower_hex (c : ascii) : bool := existsb (Ascii.eqb c) hexmap.

Fixpoint string_forall (p : ascii -> bool) (s : string) : bool :=
  match s with
  | EmptyString => true
  | String c rest => p c && string_forall p rest
  end.

Lemma byte_of_hex_digits (b : byte) :
  match nibble (hexmap_at (N.shiftr (Byte.to_N b) 4)),
        nibble (hexmap_at (N.land (Byte.to_N b) 15)) with
  | Some h, Some l => Byte.of_N (16 * h + l)%N = Some b
  | _, _ => False
  end /\
  is_lower_hex (hexmap_at (N.shiftr (Byte.to_N b) 4)) = true /\
  is_lower_hex (hexmap_at (N.land (Byte.to_N b) 15)) = true.
Proof. destruct b; vm_compute; auto. Qed.

Lemma bytes_of_hex_GetHexRepr (v : list byte) :
  bytes_of_hex (GetHexRepr v) = Some v.
Proof.
  induction v as [|b rest IH]; [reflexivity|].
  cbn [GetHexRepr bytes_of_hex].
  destruct (byte_of_hex_digits b) as (D & _).
  destruct (nibble (hexmap_at (N.shiftr (Byte.to_N b) 4))) as [h|]; [|contradiction].
  destruct (nibble (hexmap_at (N.land (Byte.to_N b) 15))) as [l|]; [|contradiction].
  rewrite IH, D. reflexivity.
Qed.

(** [GetHexRepr] writes two lower-case hexadecimal digits for each byte, and
    the bytes can be read back from them: distinct byte vectors have distinct
    representations. *)
Theorem GetHexRepr_reads_back (v : list byte) :
  String.length (GetHexRepr v) = (2 * length v)%nat /\
  string_forall is_lower_hex (GetHexRepr v) = true /\
  bytes_of_hex (GetHexRepr v) = Some v /\
  (forall w : list byte, GetHexRepr v = GetHexRepr w -> v = w).
Proof.
  split; [|split; [|split]].
  - induction v as [|b rest IH]; [reflexivity|].
    cbn [GetHexRepr String.length length]. rewrite IH. lia.
  - induction v as [|b rest IH]; [reflexivity|].
    cbn [GetHexRepr string_forall].
    destruct (byte_of_hex_digits b) as (_ & H & L). rewrite H, L, IH. reflexivity.
  - apply bytes_of_hex_GetHexRepr.
  - intros w E.
    pose proof (bytes_of_hex_GetHexRepr v) as V.
    rewrite E, bytes_of_hex_GetHexRepr in V. congruence.
Qed.

Lemma bind_result_returned {A B} (m : M A) (k : A -> M B) (a : A) :
  result m = Returned a -> result (bind m k) = result (k a).
Proof.
  destruct m as [tr r]. simpl. intros ->. destruct (k a). reflexivity.
Qed.

Section Objects.

Variable SC_FIELD_SIZE : nat.
Variable SC_BV_SIZE_IN_BYTES : Z.
Variable MAX_BIT_VECTOR_SIZE_BITS : Z.
Variable MAX_COMPRESSED_SIZE_BYTES : Z.
Variable field_t : Type.
Variable zendoo_deserialize_field : list byte -> option field_t.
Variable zendoo_serialize_field : field_t -> list byte.
Variable zendoo_merkle_root_from_compressed_bytes :
  list byte -> Z -> option field_t.

(** [ZendooPoseidonHash]: two [update]s with what [GetFieldElement().get()]
    hands over (a null pointer is [None]) and [finalize]. *)
Variable poseidon_hash : option field_t -> option field_t -> option field_t.

Let ByteSize : nat := Sidechain.ByteSize SC_FIELD_SIZE.

(** *** CFieldElement from a uint256 and back (lines 95-99 and 117-121) *)

(** [std::copy(first, last, out)] over the front of a buffer that is at least
    as long as the source. *)
Definition copy_to_front (source buffer : list byte) : list byte :=
  source ++ skipn (length source) buffer.

(** [CFieldElement(const uint256&)]: the 32 bytes of the value at the front
    of [ByteSize()] zero bytes.  With a field element shorter than 32 bytes
    the copy would run past the buffer. *)
Definition CFieldElement_of_uint256 (value : list byte) : CFieldElement :=
  {| byteVector := copy_to_front value (repeat x00 ByteSize) |}.

(** [GetLegacyHashTO_BE_REMOVED]: the first 32 bytes, as a uint256.  On a
    shorter vector the C++ iterator range runs past the end. *)
Definition GetLegacyHashTO_BE_REMOVED (fe : CFieldElement) : list byte :=
  firstn 32 (byteVector fe).

(** A uint256 stored in a field element comes back unchanged; the element
    has [ByteSize()] bytes, zero after the value, and is not Null. *)
Theorem uint256_through_field_element (value : list byte) :
  length value = 32%nat ->
  (32 <= ByteSize)%nat ->
  GetLegacyHashTO_BE_REMOVED (CFieldElement_of_uint256 value) = value /\
  length (byteVector (CFieldElement_of_uint256 value)) = ByteSize /\
  skipn 32 (byteVector (CFieldElement_of_uint256 value))
    = repeat x00 (ByteSize - 32) /\
  IsNull (CFieldElement_of_uint256 value) = false.
Proof.
  intros L B. unfold GetLegacyHashTO_BE_REMOVED, CFieldElement_of_uint256,
    copy_to_front. cbn [byteVector]. rewrite L.
  assert (S : skipn 32 (repeat x00 ByteSize) = repeat x00 (ByteSize - 32)).
  { replace ByteSize with (32 + (ByteSize - 32))%nat at 1 by lia.
    rewrite repeat_app, skipn_app, repeat_length.
    rewrite skipn_all2 by (rewrite repeat_length; lia).
    replace (32 - 32)%nat with 0%nat by lia. reflexivity. }
  rewrite S. split; [|split; [|split]].
  - rewrite firstn_app, L. replace (32 - 32)%nat with 0%nat by lia.
    rewrite firstn_all2 by lia. cbn [firstn]. apply app_nil_r.
  - rewrite length_app, repeat_length. lia.
  - rewrite skipn_app, L. replace (32 - 32)%nat with 0%nat by lia.
    rewrite skipn_all2 by lia. reflexivity.
  - unfold IsNull. cbn [byteVector].
    destruct value; [discriminate L | reflexivity].
Qed.

(** *** CFieldElement::ComputeHash (lines 131-143) *)

(** [CFieldElement::GetFieldElement]: null for a null element, else what the
    library deserialises. *)
Definition CFieldElement_GetFieldElement (fe : CFieldElement)
  : M (option field_t) :=
  match byteVector fe with
  | [] => ret None
  | _ => (emit (EvDeserialize (byteVector fe)) ;;;
          ret (zendoo_deserialize_field (byteVector fe)))%cpp
  end.

(** [CFieldElement(const wrappedFieldPtr&)], null pointer included. *)
Definition CFieldElement_of_wrapped (p : option field_t) : CFieldElement :=
  match p with
  | Some fe => CFieldElement_of_ptr SC_FIELD_SIZE field_t zendoo_serialize_field fe
  | None => {| byteVector := repeat x00 ByteSize |}
  end.

Definition ComputeHash (lhs rhs : CFieldElement) : M CFieldElement :=
  (lvalid <- CFieldElement_IsValid field_t zendoo_deserialize_field lhs ;;
   if negb lvalid
   then throw "Could not compute poseidon hash on null field elements"
   else
     rvalid <- CFieldElement_IsValid field_t zendoo_deserialize_field rhs ;;
     if negb rvalid
     then throw "Could not compute poseidon hash on null field elements"
     else
       l <- CFieldElement_GetFieldElement lhs ;;
       r <- CFieldElement_GetFieldElement rhs ;;
       ret (CFieldElement_of_wrapped (poseidon_hash l r)))%cpp.

(** What [CFieldElement::IsValid] decides. *)
Definition deserialisable (fe : CFieldElement) : bool :=
  match byteVector fe with
  | [] => false
  | _ => match zendoo_deserialize_field (byteVector fe) with
         | Some _ => true
         | None => false
         end
  end.

Lemma CFieldElement_IsValid_result (fe : CFieldElement) :
  result (CFieldElement_IsValid field_t zendoo_deserialize_field fe)
  = Returned (deserialisable fe) /\
  events (CFieldElement_IsValid field_t zendoo_deserialize_field fe)
  = match byteVector fe with [] => [] | _ => [EvDeserialize (byteVector fe)] end.
Proof.
  unfold CFieldElement_IsValid, deserialisable.
  destruct (byteVector fe); split; reflexivity.
Qed.

Lemma CFieldElement_of_wrapped_length (p : option field_t) :
  length (byteVector (CFieldElement_of_wrapped p)) = ByteSize.
Proof.
  destruct p as [fe|]; cbn [CFieldElement_of_wrapped byteVector].
  - unfold CFieldElement_of_ptr. cbn [byteVector].
    rewrite length_firstn, length_app, repeat_length.
    fold ByteSize. unfold Sidechain.ByteSize. lia.
  - apply repeat_length.
Qed.

(** [ComputeHash] throws exactly when one operand is not a deserialisable
    element, and then the library has hashed nothing: an invalid left operand
    is the only one looked at.  Otherwise the hash of the two deserialised
    operands comes back as an element of [ByteSize()] bytes. *)
Theorem ComputeHash_throws_iff (lhs rhs : CFieldElement) :
  result (ComputeHash lhs rhs) =
    (if deserialisable lhs && deserialisable rhs
     then Returned
            (CFieldElement_of_wrapped
               (poseidon_hash (zendoo_deserialize_field (byteVector lhs))
                              (zendoo_deserialize_field (byteVector rhs))))
     else Thrown "Could not compute poseidon hash on null field elements") /\
  (deserialisable lhs = false ->
   forall e, In e (events (ComputeHash lhs rhs)) ->
             e = EvDeserialize (byteVector lhs)) /\
  (forall fe, result (ComputeHash lhs rhs) = Returned fe ->
              length (byteVector fe) = ByteSize).
Proof.
  assert (R : result (ComputeHash lhs rhs) =
    (if deserialisable lhs && deserialisable rhs
     then Returned
            (CFieldElement_of_wrapped
               (poseidon_hash (zendoo_deserialize_field (byteVector lhs))
                              (zendoo_deserialize_field (byteVector rhs))))
     else Thrown "Could not compute poseidon hash on null field elements")).
  { unfold ComputeHash, CFieldElement_IsValid, CFieldElement_GetFieldElement,
      deserialisable.
    destruct (byteVector lhs) as [|l0 ls] eqn:L; [reflexivity|].
    destruct (zendoo_deserialize_field (l0 :: ls)) as [fl|]; [|reflexivity].
    destruct (byteVector rhs) as [|r0 rs] eqn:Rh; [reflexivity|].
    destruct (zendoo_deserialize_field (r0 :: rs)) as [fr|]; reflexivity. }
  split; [exact R|]. split.
  - intros D e. unfold ComputeHash, CFieldElement_IsValid.
    unfold deserialisable in D.
    destruct (byteVector lhs) as [|l0 ls] eqn:L.
    + intros [].
    + destruct (zendoo_deserialize_field (l0 :: ls)); [discriminate|].
      cbn. intros [<- | []]. reflexivity.
  - intros fe E. rewrite R in E.
    destruct (deserialisable lhs && deserialisable rhs); [|discriminate].
    injection E as <-. apply CFieldElement_of_wrapped_length.
Qed.

(** *** The configurations' IsValid (lines 218-249) *)

(** [FieldElementCertificateFieldConfig::IsValid] and
    [BitVectorCertificateFieldConfig::IsValid], as the instances of the
    configuration interface define them. *)
Definition FieldElementCertificateFieldConfig_IsValid
    (cfg : FieldElementCertificateFieldConfig) : bool :=
  @IsValid _ (FieldElementConfig SC_FIELD_SIZE) cfg.

Definition BitVectorCertificateFieldConfig_IsValid
    (cfg : BitVectorCertificateFieldConfig) : bool :=
  @IsValid _ (BitVectorConfig MAX_BIT_VECTOR_SIZE_BITS MAX_COMPRESSED_SIZE_BYTES) cfg.

Lemma rem_254_8_iff (b : Z) :
  0 < b -> (Z.rem b 254 = 0 /\ Z.rem b 8 = 0 <-> b mod 1016 = 0).
Proof.
  intros P. rewrite !Z.rem_mod_nonneg by lia.
  rewrite !Z.mod_divide by lia. split.
  - intros ((k & K) & (j & J)). exists (32 * k - j). lia.
  - intros (k & K). split; [exists (4 * k) | exists (127 * k)]; lia.
Qed.

(** A bit-vector configuration is valid exactly when its bit size is a
    positive multiple of 1016 (of both 254 and 8) up to the maximum, and its
    compressed-size limit is positive and up to its maximum. *)
Theorem BitVectorCertificateFieldConfig_IsValid_iff
    (cfg : BitVectorCertificateFieldConfig) :
  BitVectorCertificateFieldConfig_IsValid cfg = true <->
  0 < bitVectorSizeBits cfg <= MAX_BIT_VECTOR_SIZE_BITS /\
  bitVectorSizeBits cfg mod 1016 = 0 /\
  0 < maxCompressedSizeBytes cfg <= MAX_COMPRESSED_SIZE_BYTES.
Proof.
  unfold BitVectorCertificateFieldConfig_IsValid. cbn [IsValid BitVectorConfig].
  destruct (Z.ltb_spec 0 (bitVectorSizeBits cfg)) as [P | P]; cbn [andb negb].
  2:{ split; [discriminate | lia]. }
  destruct (Z.leb_spec (bitVectorSizeBits cfg) MAX_BIT_VECTOR_SIZE_BITS) as [B | B];
    cbn [negb].
  2:{ split; [discriminate | lia]. }
  pose proof (rem_254_8_iff _ P) as Div.
  destruct (Z.eqb_spec (Z.rem (bitVectorSizeBits cfg) 254) 0) as [R1 | R1];
    cbn [negb orb].
  2:{ split; [discriminate|]. intros (_ & M & _). apply Div in M. tauto. }
  destruct (Z.eqb_spec (Z.rem (bitVectorSizeBits cfg) 8) 0) as [R2 | R2];
    cbn [negb].
  2:{ split; [discriminate|]. intros (_ & M & _). apply Div in M. tauto. }
  assert (M : bitVectorSizeBits cfg mod 1016 = 0) by (apply Div; auto).
  destruct (Z.ltb_spec 0 (maxCompressedSizeBytes cfg)) as [Q | Q]; cbn [andb negb].
  2:{ split; [discriminate | lia]. }
  destruct (Z.leb_spec (maxCompressedSizeBytes cfg) MAX_COMPRESSED_SIZE_BYTES);
    cbn [negb]; split; try discriminate; try lia; auto.
Qed.

(** *** Valid configurations and field validation *)

Lemma BitVectorCertificateFieldConfig_IsValid_limit
    (cfg : BitVectorCertificateFieldConfig) :
  BitVectorCertificateFieldConfig_IsValid cfg = true ->
  0 < maxCompressedSizeBytes cfg.
Proof.
  unfold BitVectorCertificateFieldConfig_IsValid. cbn [IsValid BitVectorConfig].
  destruct (negb ((0 <? bitVectorSizeBits cfg) &&
                  (bitVectorSizeBits cfg <=? MAX_BIT_VECTOR_SIZE_BITS)));
    [discriminate|].
  destruct (negb (Z.rem (bitVectorSizeBits cfg) 254 =? 0) ||
            negb (Z.rem (bitVectorSizeBits cfg) 8 =? 0)); [discriminate|].
  destruct (Z.ltb_spec 0 (maxCompressedSizeBytes cfg)) as [Q | Q];
    [intros _; exact Q | discriminate].
Qed.


Abbreviation FEField := (CustomCertificateField FieldElementCertificateFieldConfig).
Abbreviation BVField := (CustomCertificateField BitVectorCertificateFieldConfig).

Definition FE_Get :=
  FE_GetFieldElement SC_FIELD_SIZE field_t zendoo_deserialize_field.
Definition FE_field_IsValid :=
  FE_IsValid SC_FIELD_SIZE field_t zendoo_deserialize_field.
Definition BV_Get :=
  BV_GetFieldElement SC_FIELD_SIZE SC_BV_SIZE_IN_BYTES MAX_BIT_VECTOR_SIZE_BITS
    MAX_COMPRESSED_SIZE_BYTES field_t zendoo_serialize_field
    zendoo_merkle_root_from_compressed_bytes.
Definition BV_field_IsValid :=
  BV_IsValid SC_FIELD_SIZE SC_BV_SIZE_IN_BYTES MAX_BIT_VECTOR_SIZE_BITS
    MAX_COMPRESSED_SIZE_BYTES field_t zendoo_serialize_field
    zendoo_merkle_root_from_compressed_bytes.

Lemma FieldElementCertificateFieldConfig_IsValid_range
    (cfg : FieldElementCertificateFieldConfig) :
  FieldElementCertificateFieldConfig_IsValid cfg = true ->
  0 < getBitSize cfg <= BitSize SC_FIELD_SIZE.
Proof.
  unfold FieldElementCertificateFieldConfig_IsValid.
  cbn [IsValid FieldElementConfig]. unfold getBitSize, BitSize, CHAR_BIT.
  destruct (Z.ltb_spec 0 (nBits cfg)); cbn [andb]; [|discriminate].
  destruct (Z.leb_spec (nBits cfg) (Z.of_nat (Sidechain.ByteSize SC_FIELD_SIZE) * 8));
    [lia | discriminate].
Qed.

(** Under a configuration its own [IsValid] accepts, a field's [IsValid]
    always answers (no assertion fails, nothing is thrown), on every object
    built by the constructor and used through [GetFieldElement]; it answers
    [false] for a field-element field without raw data and for a bit-vector
    field whose data is longer than the configured limit. *)
Theorem valid_config_validates :
  (forall (cfg : FieldElementCertificateFieldConfig) (f : FEField),
     FieldElementCertificateFieldConfig_IsValid cfg = true ->
     reachable FE_Get f ->
     exists (answer : bool) (f' : FEField),
       result (FE_field_IsValid cfg f) = Returned (answer, f') /\
       (vRawData f = [] -> answer = false)) /\
  (forall (cfg : BitVectorCertificateFieldConfig) (f : BVField),
     BitVectorCertificateFieldConfig_IsValid cfg = true ->
     reachable BV_Get f ->
     exists (answer : bool) (f' : BVField),
       result (BV_field_IsValid cfg f) = Returned (answer, f') /\
       (Z.of_nat (length (vRawData f)) > maxCompressedSizeBytes cfg ->
        answer = false)).
Proof.
  split.
  - intros cfg f V R.
    pose proof (FieldElementCertificateFieldConfig_IsValid_range cfg V) as B.
    pose proof (FE_GetFieldElement_result SC_FIELD_SIZE field_t
                  zendoo_deserialize_field cfg f R) as E.
    destruct (FE_validate_returns SC_FIELD_SIZE field_t zendoo_deserialize_field
                cfg (vRawData f) B) as (tr & f' & Val & _).
    rewrite Val in E. cbn [result snd] in E.
    exists (negb (IsNull (fieldElement f'))), f'. split.
    + unfold FE_field_IsValid, FE_IsValid.
      rewrite (bind_result_returned _ _ f' E). reflexivity.
    + intros Empty.
      rewrite (FE_validate_wrong_size SC_FIELD_SIZE field_t
                 zendoo_deserialize_field cfg (vRawData f) B) in Val.
      * injection Val as _ <-. reflexivity.
      * rewrite Empty. cbn [length].
        pose proof (ceil_div8_bounds (getBitSize cfg)). lia.
  - intros cfg f V R.
    pose proof (BitVectorCertificateFieldConfig_IsValid_limit cfg V) as Q.
    pose proof (BV_GetFieldElement_result SC_FIELD_SIZE SC_BV_SIZE_IN_BYTES
                  MAX_BIT_VECTOR_SIZE_BITS MAX_COMPRESSED_SIZE_BYTES field_t
                  zendoo_serialize_field zendoo_merkle_root_from_compressed_bytes
                  cfg f R) as E.
    assert (TS : to_size_t (getMaxCompressedSizeBytes cfg)
                 = maxCompressedSizeBytes cfg).
    { apply to_size_t_nonneg. unfold getMaxCompressedSizeBytes. lia. }
    destruct (Z_gt_le_dec (Z.of_nat (length (vRawData f)))
                (maxCompressedSizeBytes cfg)) as [G | G].
    + rewrite (BV_validate_too_large SC_FIELD_SIZE SC_BV_SIZE_IN_BYTES field_t
                 zendoo_serialize_field zendoo_merkle_root_from_compressed_bytes
                 cfg (vRawData f)) in E by (rewrite TS; exact G).
      cbn [result snd] in E. do 2 eexists. split.
      * unfold BV_field_IsValid, BV_IsValid.
        rewrite (bind_result_returned _ _ _ E). reflexivity.
      * reflexivity.
    + rewrite (BV_validate_decompress SC_FIELD_SIZE SC_BV_SIZE_IN_BYTES field_t
                 zendoo_serialize_field zendoo_merkle_root_from_compressed_bytes
                 cfg (vRawData f)) in E by (rewrite TS; exact G).
      destruct (decompress SC_BV_SIZE_IN_BYTES field_t
                  zendoo_merkle_root_from_compressed_bytes (vRawData f));
        cbn [result snd] in E; do 2 eexists;
        (split; [unfold BV_field_IsValid, BV_IsValid;
                 rewrite (bind_result_returned _ _ _ E); reflexivity | lia]).
Qed.

(** *** Assignment (lines 272-280 and 358-366) *)

Lemma assigned_memoised {Cfg} `{CustomCertificateFieldConfig Cfg}
    (validate : Cfg -> list byte -> M (CustomCertificateField Cfg))
    (cfg : Cfg) (this rhs : CustomCertificateField Cfg) :
  (state this = NOT_INITIALIZED ->
   memoised validate cfg (assign this rhs) = validate cfg (vRawData rhs)) /\
  (state this <> NOT_INITIALIZED -> pReferenceCfg rhs = Some cfg ->
   memoised validate cfg (assign this rhs) = ([], Returned (assign this rhs))) /\
  (state this <> NOT_INITIALIZED -> pReferenceCfg rhs = None ->
   aborts (memoised validate cfg (assign this rhs))).
Proof.
  unfold memoised, check_memo, assign. cbn [state pReferenceCfg vRawData].
  split; [|split].
  - intros ->. cbn. destruct (validate cfg (vRawData rhs)). reflexivity.
  - intros S ->. rewrite cfg_eqb_refl.
    destruct (state this); [contradiction | |]; reflexivity.
  - intros S ->. destruct (state this); [contradiction | |]; eexists; reflexivity.
Qed.

(** Assigning to a field copies the raw data and the reference configuration
    of the source and keeps the state and the cached element of the target.
    A target that was never validated validates the new data afresh; a
    validated target asked with the source's configuration answers with its
    own old element and without any validation, whatever the new raw data;
    and when the source was never validated the next call dies on the
    assertion that the reference configuration is set. *)
Theorem assigned_field_uses_old_cache :
  (forall (cfg : FieldElementCertificateFieldConfig) (this rhs : FEField),
     vRawData (assign this rhs) = vRawData rhs /\
     fieldElement (assign this rhs) = fieldElement this /\
     (state this = NOT_INITIALIZED ->
      FE_Get cfg (assign this rhs) =
      FE_validate SC_FIELD_SIZE field_t zendoo_deserialize_field cfg (vRawData rhs)) /\
     (state this <> NOT_INITIALIZED -> pReferenceCfg rhs = Some cfg ->
      FE_Get cfg (assign this rhs) = ([], Returned (assign this rhs))) /\
     (state this <> NOT_INITIALIZED -> pReferenceCfg rhs = None ->
      aborts (FE_Get cfg (assign this rhs)))) /\
  (forall (cfg : BitVectorCertificateFieldConfig) (this rhs : BVField),
     vRawData (assign this rhs) = vRawData rhs /\
     fieldElement (assign this rhs) = fieldElement this /\
     (state this = NOT_INITIALIZED ->
      BV_Get cfg (assign this rhs) =
      BV_validate SC_FIELD_SIZE SC_BV_SIZE_IN_BYTES field_t zendoo_serialize_field
        zendoo_merkle_root_from_compressed_bytes cfg (vRawData rhs)) /\
     (state this <> NOT_INITIALIZED -> pReferenceCfg rhs = Some cfg ->
      BV_Get cfg (assign this rhs) = ([], Returned (assign this rhs))) /\
     (state this <> NOT_INITIALIZED -> pReferenceCfg rhs = None ->
      aborts (BV_Get cfg (assign this rhs)))).
Proof.
  split; intros cfg this rhs; (split; [reflexivity|]); (split; [reflexivity|]).
  - apply (assigned_memoised
             (FE_validate SC_FIELD_SIZE field_t zendoo_deserialize_field)).
  - apply (assigned_memoised
             (BV_validate SC_FIELD_SIZE SC_BV_SIZE_IN_BYTES field_t
                zendoo_serialize_field zendoo_merkle_root_from_compressed_bytes)).
Qed.

End Objects.

Lemma uint256_through_field_element_witness :
  length (repeat x07 32) = 32%nat /\
  (32 <= Sidechain.ByteSize 96)%nat /\
  GetLegacyHashTO_BE_REMOVED (CFieldElement_of_uint256 96 (repeat x07 32))
  = repeat x07 32.
Proof.
  split; [reflexivity|]. split; [vm_compute; lia|].
  apply (uint256_through_field_element 96 (repeat x07 32)).
  - reflexivity.
  - vm_compute. lia.
Defined.

Lemma valid_config_validates_witness :
  FieldElementCertificateFieldConfig_IsValid 32 {| nBits := 255 |} = true /\
  reachable (FE_Get 32 Standin.field_t Standin.zendoo_deserialize_field)
    (construct []) /\
  exists (answer : bool) (f' : CustomCertificateField FieldElementCertificateFieldConfig),
    result (FE_field_IsValid 32 Standin.field_t Standin.zendoo_deserialize_field
              {| nBits := 255 |} (construct [])) = Returned (answer, f') /\
    (vRawData (construct (Cfg := FieldElementCertificateFieldConfig) []) = [] ->
     answer = false).
Proof.
  split; [reflexivity|]. split; [apply reach_construct|].
  apply (proj1 (valid_config_validates 32 Standin.SC_BV_SIZE_IN_BYTES
                  Standin.MAX_BIT_VECTOR_SIZE_BITS Standin.MAX_COMPRESSED_SIZE_BYTES
                  Standin.field_t Standin.zendoo_deserialize_field
                  Standin.zendoo_serialize_field
                  Standin.zendoo_merkle_root_from_compressed_bytes)).
  - reflexivity.
  - apply reach_construct.
Defined.

End CctpObjects.

(* ================================================================== *)
(** ** rpc/mining.cpp: GetNetworkHashPS (lines 44-79) *)

Module NetworkHashPS.

(** A block index entry, as far as the estimate reads it.  [GetBlockTime]
    widens the block's 32-bit time; [nChainWork] is an [arith_uint256]. *)
Record CBlockIndex : Type := {
  GetBlockTime : Z;
  nChainWork : Z
}.

(** The active chain, genesis first.  The block at position [h] has
    [nHeight = h] and its [pprev] is the block at [h - 1]; the [pprev] of the
    genesis block is null.  A pointer into the chain is a position. *)
Definition CChain : Type := list CBlockIndex.

Definition Height (chainActive : CChain) : Z := Z.of_nat (length chainActive) - 1.

Definition Tip (chainActive : CChain) : option nat :=
  match chainActive with
  | [] => None
  | _ => Some (length chainActive - 1)%nat
  end.

Definition block_at (chainActive : CChain) (h : nat) : CBlockIndex :=
  nth h chainActive {| GetBlockTime := 0; nChainWork := 0 |}.

(** What the function hands back: 0, or the quotient of the two numbers,
    computed in [double] and cut to an [int64_t]. *)
Inductive estimate : Type :=
| Zero
| Quotient (workDiff timeDiff : Z).

(** Subtraction of [arith_uint256] values. *)
Definition sub256 (a b : Z) : Z := (a - b) mod 2 ^ 256.

(** The loop of lines 64-69: [n] steps back from [pb0].  [None] is the
    dereference of the null [pprev] of the genesis block. *)
Fixpoint look_back (chainActive : CChain) (n pb0 : nat) (minTime maxTime : Z)
  : option (nat * Z * Z) :=
  match n with
  | O => Some (pb0, minTime, maxTime)
  | S n' =>
      match pb0 with
      | O => None
      | S prev =>
          let time := GetBlockTime (block_at chainActive prev) in
          look_back chainActive n' prev (Z.min time minTime) (Z.max time maxTime)
      end
  end.

(** [nPowAveragingWindow] is the consensus parameter of that name. *)
Definition GetNetworkHashPS (nPowAveragingWindow : Z) (chainActive : CChain)
    (lookup height : Z) : option estimate :=
  let pb := if (0 <=? height) && (height <? Height chainActive)
            then Some (Z.to_nat height) else Tip chainActive in
  match pb with
  | None => Some Zero
  | Some O => Some Zero
  | Some pb =>
      let nHeight := Z.of_nat pb in
      let lookup := if lookup <=? 0 then nPowAveragingWindow else lookup in
      let lookup := if lookup >? nHeight then nHeight else lookup in
      let t0 := GetBlockTime (block_at chainActive pb) in
      match look_back chainActive (Z.to_nat lookup) pb t0 t0 with
      | None => None
      | Some (pb0, minTime, maxTime) =>
          if minTime =? maxTime then Some Zero
          else Some (Quotient
                       (sub256 (nChainWork (block_at chainActive pb))
                               (nChainWork (block_at chainActive pb0)))
                       (maxTime - minTime))
      end
  end.

Lemma look_back_spec (chainActive : CChain) (n : nat) :
  forall (pb0 : nat) (minTime maxTime : Z),
    (n <= pb0)%nat ->
    exists minTime' maxTime',
      look_back chainActive n pb0 minTime maxTime
      = Some ((pb0 - n)%nat, minTime', maxTime') /\
      minTime' <= minTime /\ maxTime <= maxTime' /\
      (forall k, (1 <= k <= n)%nat ->
         minTime' <= GetBlockTime (block_at chainActive (pb0 - k)) <= maxTime') /\
      (minTime <= maxTime -> minTime' <= maxTime').
Proof.
  induction n as [|n IH]; intros pb0 minTime maxTime L.
  - exists minTime, maxTime. rewrite Nat.sub_0_r.
    repeat split; try lia; intros; lia.
  - destruct pb0 as [|prev]; [lia|]. cbn [look_back].
    set (time := GetBlockTime (block_at chainActive prev)).
    destruct (IH prev (Z.min time minTime) (Z.max time maxTime) ltac:(lia))
      as (mn & mx & E & Lo & Hi & In & Ord).
    exists mn, mx. rewrite E. replace (S prev - S n)%nat with (prev - n)%nat by lia.
    split; [reflexivity|]. split; [lia|]. split; [lia|]. split; [|lia].
    intros k K. destruct (Nat.eq_dec k 1) as [-> | N].
    + replace (S prev - 1)%nat with prev by lia. fold time. lia.
    + replace (S prev - k)%nat with (prev - (k - 1))%nat by lia.
      apply In. lia.
Qed.

(** The estimate never follows the null [pprev] of the genesis block and
    never divides by zero, whatever [lookup], [height] and averaging window
    it is given: it returns 0 for an empty chain and for the genesis block,
    and otherwise either 0 or a quotient whose divisor is positive and at
    least the distance of any two times among the blocks counted back from
    [pb]. *)
Theorem GetNetworkHashPS_defined (nPowAveragingWindow : Z) (chainActive : CChain)
    (lookup height : Z) :
  exists r,
    GetNetworkHashPS nPowAveragingWindow chainActive lookup height = Some r /\
    ((length chainActive <= 1)%nat -> r = Zero) /\
    match r with
    | Zero => True
    | Quotient workDiff timeDiff =>
        0 < timeDiff /\
        exists pb n : nat,
          (n <= pb < length chainActive)%nat /\
          workDiff = sub256 (nChainWork (block_at chainActive pb))
                            (nChainWork (block_at chainActive (pb - n))) /\
          (forall j k, (j <= n)%nat -> (k <= n)%nat ->
             GetBlockTime (block_at chainActive (pb - j)) -
             GetBlockTime (block_at chainActive (pb - k)) <= timeDiff)
    end.
Proof.
  unfold GetNetworkHashPS.
  set (pb := if (0 <=? height) && (height <? Height chainActive)
             then Some (Z.to_nat height) else Tip chainActive).
  assert (PB : match pb with
               | Some p => (p < length chainActive)%nat
               | None => chainActive = []
               end).
  { unfold pb, Height, Tip.
    destruct (Z.leb_spec 0 height); cbn [andb].
    - destruct (Z.ltb_spec height (Z.of_nat (length chainActive) - 1)).
      + lia.
      + destruct chainActive; [reflexivity | cbn [length]; lia].
    - destruct chainActive; [reflexivity | cbn [length]; lia]. }
  destruct pb as [[|p]|].
  - exists Zero. auto.
  - set (nHeight := Z.of_nat (S p)).
    set (l1 := if lookup <=? 0 then nPowAveragingWindow else lookup).
    set (l2 := if l1 >? nHeight then nHeight else l1).
    assert (L2 : (Z.to_nat l2 <= S p)%nat).
    { unfold l2. destruct (Z.gtb_spec l1 nHeight); unfold nHeight; lia. }
    set (t0 := GetBlockTime (block_at chainActive (S p))).
    destruct (look_back_spec chainActive (Z.to_nat l2) (S p) t0 t0 L2)
      as (mn & mx & E & Lo & Hi & In & Ord).
    rewrite E.
    destruct (Z.eqb_spec mn mx) as [Q | Q].
    + exists Zero. split; [reflexivity|]. auto.
    + eexists. split; [reflexivity|]. split; [intros; lia|].
      split; [lia|]. exists (S p), (Z.to_nat l2).
      split; [lia|]. split; [reflexivity|].
      assert (W : forall k, (k <= Z.to_nat l2)%nat ->
                  mn <= GetBlockTime (block_at chainActive (S p - k)) <= mx).
      { intros k K. destruct k as [|k].
        - rewrite Nat.sub_0_r. fold t0. lia.
        - apply In. lia. }
      intros j k J K. pose proof (W j J). pose proof (W k K). lia.
  - exists Zero. auto.
Qed.

End NetworkHashPS.

(* ================================================================== *)
(** ** rpc/mining.cpp: the other calls *)

Module MiningCalls.

Import Mining.

Local Open Scope string_scope.
Local Open Scope list_scope.

(** *** Replies *)

(** The error codes of the calls below. *)
Inductive RPCCode : Type :=
| RPC_MISC (code : RPCErrorCode)   (* a code of the first part *)
| RPC_INTERNAL_ERROR
| RPC_INVALID_ADDRESS_OR_KEY
| RPC_TRANSACTION_ERROR
| RPC_TRANSACTION_REJECTED
| RPC_TRANSACTION_ALREADY_IN_CHAIN.

Inductive reply (A : Type) : Type :=
| Return (a : A)
| Throw (code : RPCCode) (message : string)
| Throw_runtime_error (what : string).
Arguments Return {A} a.
Arguments Throw {A} code message.
Arguments Throw_runtime_error {A} what.

Definition reply_bind {A B} (m : reply A) (k : A -> reply B) : reply B :=
  match m with
  | Return a => k a
  | Throw c msg => Throw c msg
  | Throw_runtime_error w => Throw_runtime_error w
  end.

Declare Scope reply_scope.
Delimit Scope reply_scope with reply.
Notation "x <- m ;; k" := (reply_bind m (fun x => k))
  (at level 61, m at next level, right associativity) : reply_scope.
Notation "m ;;; k" := (reply_bind m (fun _ => k))
  (at level 61, right associativity) : reply_scope.

(** A result of the first part, as a reply. *)
Definition of_rpc {A} (r : rpc A) : reply A :=
  match r with
  | Ok a => Return a
  | JSONRPCError c msg => Throw (RPC_MISC c) msg
  | runtime_error w => Throw_runtime_error w
  | out_of_range w => Throw_runtime_error w
  end.

(** [UniValue::get_str], [get_int] and [get_array] throw a runtime error on a
    value of another type; [get_int] also on a number outside [int]. *)
Definition get_str (v : UniValue) : reply string :=
  match v with
  | VSTR s => Return s
  | _ => Throw_runtime_error "JSON value is not a string as expected"
  end.

Definition INT_MIN : Z := - 2 ^ 31.
Definition INT_MAX : Z := 2 ^ 31 - 1.

Definition get_int (v : UniValue) : reply Z :=
  match v with
  | VNUM n =>
      if ((INT_MIN <=? n) && (n <=? INT_MAX))%Z then Return n
      else Throw_runtime_error "JSON integer out of range"
  | _ => Throw_runtime_error "JSON value is not an integer as expected"
  end.

Definition get_array (v : UniValue) : reply (list UniValue) :=
  match v with
  | VARR items => Return items
  | _ => Throw_runtime_error "JSON value is not an array as expected"
  end.

(** *** generate (lines 173-248) *)

(** What one turn of the mining loop meets. *)
Inductive turn : Type :=
| NoTemplate                 (* CreateNewBlockWithKey returned null *)
| NotAccepted                (* ProcessNewBlock returned false *)
| Accepted (hash : string).  (* the block is in; its hash in hex *)

(** The loop of lines 224-246, for the [n] turns the heights leave, from turn
    [i] on.  Beside the reply, the blocks that went into the chain. *)
Fixpoint generate_loop (n i : nat) (miner : nat -> turn)
    (blockHashes : list string) : list string * reply (list string) :=
  match n with
  | O => (blockHashes, Return blockHashes)
  | S n' =>
      match miner i with
      | NoTemplate => (blockHashes, Throw RPC_INTERNAL_ERROR "Wallet keypool empty")
      | NotAccepted =>
          (blockHashes,
           Throw RPC_INTERNAL_ERROR "ProcessNewBlock, block not accepted")
      | Accepted hash => generate_loop n' (S i) miner (blockHashes ++ [hash])
      end
  end.

(** [nHeightStart] is the height of the chain when the loop starts;
    [while (nHeight < nHeightEnd)] runs [nHeightEnd - nHeightStart] times, no
    time when that is not positive.  The heights are [int]s: the sum
    [nHeightStart + nGenerate] is taken to be representable. *)
Definition generate (node : Node) (MineBlocksOnDemand : bool) (nHeightStart : Z)
    (miner : nat -> turn) (fHelp : bool) (params : list UniValue)
  : list string * reply (list string) :=
  if fHelp || (length params <? 1)%nat || (1 <? length params)%nat
  then ([], Throw_runtime_error "generate help")
  else
    match of_rpc (require_coinbase_destination node) with
    | Return _ =>
        if negb MineBlocksOnDemand
        then ([], Throw (RPC_MISC RPC_METHOD_NOT_FOUND)
                    "This method can only be used on regtest")
        else
          match get_int (nth 0 params VNULL) with
          | Return nGenerate =>
              let nHeightEnd := (nHeightStart + nGenerate)%Z in
              generate_loop (Z.to_nat (nHeightEnd - nHeightStart)) 0 miner []
          | Throw c m => ([], Throw c m)
          | Throw_runtime_error w => ([], Throw_runtime_error w)
          end
    | Throw c m => ([], Throw c m)
    | Throw_runtime_error w => ([], Throw_runtime_error w)
    end.

Lemma generate_loop_spec (n : nat) :
  forall (i : nat) (miner : nat -> turn) (acc : list string),
    exists mined,
      fst (generate_loop n i miner acc) = acc ++ mined /\
      (length mined <= n)%nat /\
      (forall k, (k < length mined)%nat ->
                 miner (i + k)%nat = Accepted (nth k mined "")) /\
      match snd (generate_loop n i miner acc) with
      | Return hashes => hashes = acc ++ mined /\ length mined = n
      | Throw c _ =>
          c = RPC_INTERNAL_ERROR /\ (length mined < n)%nat /\
          (miner (i + length mined)%nat = NoTemplate \/
           miner (i + length mined)%nat = NotAccepted)
      | Throw_runtime_error _ => False
      end.
Proof.
  induction n as [|n IH]; intros i miner acc.
  - exists []. cbn. rewrite app_nil_r.
    repeat split; auto; try (intros k K; inversion K).
  - cbn [generate_loop]. destruct (miner i) as [| |hash] eqn:T.
    + exists []. cbn. rewrite app_nil_r, Nat.add_0_r.
      repeat split; auto; try lia; try (intros k K; inversion K).
    + exists []. cbn. rewrite app_nil_r, Nat.add_0_r.
      repeat split; auto; try lia; try (intros k K; inversion K).
    + destruct (IH (S i) miner (acc ++ [hash])) as (mined & F & L & A & R).
      exists (hash :: mined). rewrite F, <- app_assoc. cbn [app length].
      split; [reflexivity|]. split; [lia|]. split.
      * intros k K. destruct k as [|k].
        -- rewrite Nat.add_0_r. exact T.
        -- cbn [nth]. replace (i + S k)%nat with (S i + k)%nat by lia.
           apply A. lia.
      * destruct (snd (generate_loop n (S i) miner (acc ++ [hash])))
          as [hashes | c m | w]; [| |contradiction].
        -- destruct R as (-> & Len). rewrite <- app_assoc. split; [reflexivity | lia].
        -- destruct R as (C & Len & M). split; [exact C|]. split; [lia|].
           replace (i + S (length mined))%nat with (S i + length mined)%nat by lia.
           exact M.
Qed.

(** On a regtest node with a coinbase destination, [generate n] returns the
    hashes of [n] blocks, in the order mined, when every block is accepted,
    and none for [n <= 0].  Otherwise it fails with an internal error at the
    first block that cannot be built or is not accepted; the blocks mined
    before stay in the chain, and the caller gets no hash of them. *)
Theorem generate_blocks (node : Node) (nHeightStart nGenerate : Z)
    (miner : nat -> turn) :
  require_coinbase_destination node = Ok tt ->
  INT_MIN <= nGenerate <= INT_MAX ->
  INT_MIN <= nHeightStart + nGenerate <= INT_MAX ->
  exists mined,
    fst (generate node true nHeightStart miner false [VNUM nGenerate]) = mined /\
    (forall k, (k < length mined)%nat -> miner k = Accepted (nth k mined "")) /\
    match snd (generate node true nHeightStart miner false [VNUM nGenerate]) with
    | Return hashes => hashes = mined /\ Z.of_nat (length hashes) = Z.max 0 nGenerate
    | Throw c _ =>
        c = RPC_INTERNAL_ERROR /\
        Z.of_nat (length mined) < nGenerate /\
        (miner (length mined) = NoTemplate \/ miner (length mined) = NotAccepted)
    | Throw_runtime_error _ => False
    end.
Proof.
  intros D R _. unfold generate. cbn [length Nat.ltb Nat.leb orb nth]. rewrite D.
  cbn [of_rpc negb get_int].
  replace ((INT_MIN <=? nGenerate)%Z && (nGenerate <=? INT_MAX)%Z) with true
    by (symmetry; apply andb_true_iff; split; apply Z.leb_le; lia).
  replace (nHeightStart + nGenerate - nHeightStart)%Z with nGenerate by lia.
  destruct (generate_loop_spec (Z.to_nat nGenerate) 0 miner []) as (mined & F & L & A & S).
  exists mined. cbn [app] in F. split; [exact F|]. split; [exact A|].
  destruct (snd (generate_loop (Z.to_nat nGenerate) 0 miner [])) as [hashes | c m | w];
    [| |contradiction].
  - destruct S as (-> & Len). cbn [app]. split; [reflexivity | lia].
  - destruct S as (C & Len & M). split; [exact C|]. split; [lia | exact M].
Qed.

Definition keypool_empty_at_2 : nat -> turn :=
  fun i => if (i <? 2)%nat then Accepted "aa" else NoTemplate.

Definition regtest_node : Node :=
  {| mineraddress := "znMiner"; ENABLE_WALLET := true; pwalletMain := false;
     Height := 100; areSidechainsSupported := fun h => (450000 <=? h)%Z;
     DecodeHexBlk := fun _ => None;
     mapBlockIndex := fun _ => None;
     TipHash := 5;
     TestBlockValidity := fun _ => {| mode := MODE_VALID; GetRejectReason := "" |};
     vNodes_empty := false; IsInitialBlockDownload := false |}.

Lemma generate_blocks_witness :
  require_coinbase_destination regtest_node = Ok tt /\
  INT_MIN <= 3 <= INT_MAX /\
  INT_MIN <= 100 + 3 <= INT_MAX /\
  exists mined,
    fst (generate regtest_node true 100 keypool_empty_at_2 false [VNUM 3]) = mined /\
    (forall k, (k < length mined)%nat ->
               keypool_empty_at_2 k = Accepted (nth k mined "")) /\
    match snd (generate regtest_node true 100 keypool_empty_at_2 false [VNUM 3]) with
    | Return hashes => hashes = mined /\ Z.of_nat (length hashes) = Z.max 0 3
    | Throw c _ =>
        c = RPC_INTERNAL_ERROR /\
        Z.of_nat (length mined) < 3 /\
        (keypool_empty_at_2 (length mined) = NoTemplate \/
         keypool_empty_at_2 (length mined) = NotAccepted)
    | Throw_runtime_error _ => False
    end.
Proof.
  split; [reflexivity|]. split; [vm_compute; split; discriminate|].
  split; [vm_compute; split; discriminate|].
  apply generate_blocks;
    [reflexivity | vm_compute; split; discriminate | vm_compute; split; discriminate].
Defined.

Example generate_stops_at_the_first_failure :
  generate regtest_node true 100 keypool_empty_at_2 false [VNUM 3]
  = (["aa"; "aa"], Throw RPC_INTERNAL_ERROR "Wallet keypool empty").
Proof. reflexivity. Qed.

(** *** submitblock (lines 776-862) *)

(** What [ProcessNewBlock] leaves: its answer, the validation state it was
    given, and the [BlockChecked] notifications sent while it ran, in order,
    each with the hash of the block it is about. *)
Record processed : Type := {
  fAccepted : bool;
  state_after : CValidationState;
  BlockChecked_calls : list (uint256 * CValidationState)
}.

Record submitblock_StateCatcher : Type := {
  hash : uint256;
  found : bool;
  state : CValidationState
}.

(** [CValidationState()]: valid, with no reason. *)
Definition CValidationState_new : CValidationState :=
  {| mode := MODE_VALID; GetRejectReason := "" |}.

Definition StateCatcher_new (hashIn : uint256) : submitblock_StateCatcher :=
  {| hash := hashIn; found := false; state := CValidationState_new |}.

Definition BlockChecked (sc : submitblock_StateCatcher)
    (call : uint256 * CValidationState) : submitblock_StateCatcher :=
  let (blockHash, stateIn) := call in
  if negb (Z.eqb blockHash (hash sc)) then sc
  else {| hash := hash sc; found := true; state := stateIn |}.

(** Beside the reply, whether [ProcessNewBlock] was called. *)
Definition submitblock (node : Node) (ProcessNewBlock : CBlock -> processed)
    (fHelp : bool) (params : list UniValue) : bool * reply UniValue :=
  if fHelp || (length params <? 1)%nat || (2 <? length params)%nat
  then (false, Throw_runtime_error "submitblock help")
  else
    match get_str (nth 0 params VNULL) with
    | Return hexdata =>
        match DecodeHexBlk node hexdata with
        | None =>
            (false, Throw (RPC_MISC RPC_DESERIALIZATION_ERROR) "Block decode failed")
        | Some block =>
            let process (fBlockPresent : bool) :=
              let p := ProcessNewBlock block in
              let sc := fold_left BlockChecked (BlockChecked_calls p)
                          (StateCatcher_new (GetHash block)) in
              (true,
               if fBlockPresent then
                 if fAccepted p && negb (found sc)
                 then Return (VSTR "duplicate-inconclusive")
                 else Return (VSTR "duplicate")
               else if fAccepted p then
                 if negb (found sc) then Return (VSTR "inconclusive")
                 else of_rpc (BIP22ValidationResult (state sc))
               else of_rpc (BIP22ValidationResult (state_after p))) in
            match mapBlockIndex node (GetHash block) with
            | Some pindex =>
                if IsValid_BLOCK_VALID_SCRIPTS pindex
                then (false, Return (VSTR "duplicate"))
                else if nStatus_BLOCK_FAILED_MASK pindex
                then (false, Return (VSTR "duplicate-invalid"))
                else process true
            | None => process false
            end
        end
    | Throw c m => (false, Throw c m)
    | Throw_runtime_error w => (false, Throw_runtime_error w)
    end.

(** The states notified for the block of that hash, in order. *)
Definition verdicts_for (h : uint256) (calls : list (uint256 * CValidationState))
  : list CValidationState :=
  map snd (filter (fun c => Z.eqb (fst c) h) calls).

Lemma StateCatcher_fold (calls : list (uint256 * CValidationState)) :
  forall sc,
    hash (fold_left BlockChecked calls sc) = hash sc /\
    match rev (verdicts_for (hash sc) calls) with
    | [] => fold_left BlockChecked calls sc = sc
    | last_state :: _ =>
        found (fold_left BlockChecked calls sc) = true /\
        state (fold_left BlockChecked calls sc) = last_state
    end.
Proof.
  induction calls as [|[h st] rest IH]; intros sc; cbn [fold_left].
  - split; reflexivity.
  - unfold verdicts_for. cbn [filter fst BlockChecked].
    destruct (Z.eqb_spec h (hash sc)) as [E | N]; cbn [negb].
    + set (sc' := {| hash := hash sc; found := true; state := st |}).
      destruct (IH sc') as (H & L). cbn [hash sc'] in H, L. fold sc'.
      split; [exact H|]. cbn [map snd rev].
      unfold verdicts_for in L.
      destruct (rev (map snd (filter (fun c => Z.eqb (fst c) (hash sc)) rest)))
        as [|l ls]; cbn [app].
      * rewrite L. split; reflexivity.
      * exact L.
    + destruct (IH sc) as (H & L). split; [exact H|]. exact L.
Qed.

(** For a block whose index entry exists, [submitblock] answers with one of
    the three duplicate words and never with a verdict on the block: a block
    known as valid or as failed is not processed at all, and for any other
    the answer is "duplicate-inconclusive" when it was accepted without any
    notification about it, and "duplicate" otherwise, even when
    [ProcessNewBlock] refused it. *)
Theorem submitblock_known_block (node : Node) (ProcessNewBlock : CBlock -> processed)
    (hexdata : string) (block : CBlock) (pindex : CBlockIndex) :
  DecodeHexBlk node hexdata = Some block ->
  mapBlockIndex node (GetHash block) = Some pindex ->
  let r := submitblock node ProcessNewBlock false [VSTR hexdata] in
  let p := ProcessNewBlock block in
  let settled := IsValid_BLOCK_VALID_SCRIPTS pindex || nStatus_BLOCK_FAILED_MASK pindex in
  fst r = negb settled /\
  snd r = Return (VSTR
    (if IsValid_BLOCK_VALID_SCRIPTS pindex then "duplicate"
     else if nStatus_BLOCK_FAILED_MASK pindex then "duplicate-invalid"
     else match fAccepted p, verdicts_for (GetHash block) (BlockChecked_calls p) with
          | true, [] => "duplicate-inconclusive"
          | _, _ => "duplicate"
          end)).
Proof.
  intros D I. cbv zeta. unfold submitblock.
  cbn [length Nat.ltb Nat.leb orb nth get_str]. rewrite D, I.
  destruct (IsValid_BLOCK_VALID_SCRIPTS pindex); [split; reflexivity|].
  destruct (nStatus_BLOCK_FAILED_MASK pindex); [split; reflexivity|].
  cbn [orb negb fst snd]. split; [reflexivity|].
  destruct (StateCatcher_fold (BlockChecked_calls (ProcessNewBlock block))
              (StateCatcher_new (GetHash block))) as (_ & L).
  cbn [hash StateCatcher_new] in L.
  destruct (fAccepted (ProcessNewBlock block)); cbn [andb].
  2:{ destruct (verdicts_for _ _); reflexivity. }
  destruct (verdicts_for (GetHash block) (BlockChecked_calls (ProcessNewBlock block)))
    as [|v vs] eqn:V.
  - cbn [rev] in L. rewrite L. reflexivity.
  - destruct (rev (v :: vs)) as [|l ls] eqn:Rv.
    + apply (f_equal (@length _)) in Rv. rewrite length_rev in Rv. discriminate.
    + destruct L as (F & _). rewrite F. reflexivity.
Qed.

(** For a block without index entry, the answer is the verdict of the last
    notification about this very block when it was accepted ("inconclusive"
    when there was none), and the verdict of the state [ProcessNewBlock] left
    when it was not accepted; notifications about other blocks play no part. *)
Theorem submitblock_new_block (node : Node) (ProcessNewBlock : CBlock -> processed)
    (hexdata : string) (block : CBlock) :
  DecodeHexBlk node hexdata = Some block ->
  mapBlockIndex node (GetHash block) = None ->
  let p := ProcessNewBlock block in
  submitblock node ProcessNewBlock false [VSTR hexdata] =
  (true,
   if fAccepted p then
     match rev (verdicts_for (GetHash block) (BlockChecked_calls p)) with
     | [] => Return (VSTR "inconclusive")
     | last_state :: _ => of_rpc (BIP22ValidationResult last_state)
     end
   else of_rpc (BIP22ValidationResult (state_after p))).
Proof.
  intros D I. cbv zeta. unfold submitblock.
  cbn [length Nat.ltb Nat.leb orb nth get_str]. rewrite D, I.
  f_equal.
  destruct (StateCatcher_fold (BlockChecked_calls (ProcessNewBlock block))
              (StateCatcher_new (GetHash block))) as (_ & L).
  cbn [hash StateCatcher_new] in L.
  destruct (fAccepted (ProcessNewBlock block)); [|reflexivity].
  destruct (rev (verdicts_for (GetHash block)
                   (BlockChecked_calls (ProcessNewBlock block)))) as [|l ls].
  - rewrite L. reflexivity.
  - destruct L as (F & S). rewrite F, S. reflexivity.
Qed.

Definition node_with_blocks : Node :=
  {| mineraddress := "znMiner"; ENABLE_WALLET := true; pwalletMain := false;
     Height := 100; areSidechainsSupported := fun h => (450000 <=? h)%Z;
     DecodeHexBlk := fun s =>
       if String.eqb s "0a" then Some {| GetHash := 10; hashPrevBlock := 5 |}
       else if String.eqb s "0b" then Some {| GetHash := 11; hashPrevBlock := 5 |}
       else None;
     mapBlockIndex := fun h =>
       if Z.eqb h 10
       then Some {| IsValid_BLOCK_VALID_SCRIPTS := false;
                    nStatus_BLOCK_FAILED_MASK := false |}
       else None;
     TipHash := 5;
     TestBlockValidity := fun _ => CValidationState_new;
     vNodes_empty := false; IsInitialBlockDownload := false |}.

(** A [ProcessNewBlock] that refuses every block as invalid and notifies
    about another block only. *)
Definition refusing : CBlock -> processed :=
  fun _ => {| fAccepted := false;
              state_after := {| mode := MODE_INVALID; GetRejectReason := "bad-txns" |};
              BlockChecked_calls := [(99%Z, CValidationState_new)] |}.

Lemma submitblock_known_block_witness :
  DecodeHexBlk node_with_blocks "0a" = Some {| GetHash := 10; hashPrevBlock := 5 |} /\
  mapBlockIndex node_with_blocks 10
  = Some {| IsValid_BLOCK_VALID_SCRIPTS := false; nStatus_BLOCK_FAILED_MASK := false |} /\
  submitblock node_with_blocks refusing false [VSTR "0a"]
  = (true, Return (VSTR "duplicate")).
Proof.
  split; [reflexivity|]. split; [reflexivity|].
  pose proof (submitblock_known_block node_with_blocks refusing "0a"
                {| GetHash := 10; hashPrevBlock := 5 |}
                {| IsValid_BLOCK_VALID_SCRIPTS := false;
                   nStatus_BLOCK_FAILED_MASK := false |} eq_refl eq_refl) as (F & S).
  apply injective_projections; [exact F | exact S].
Defined.

Lemma submitblock_new_block_witness :
  DecodeHexBlk node_with_blocks "0b" = Some {| GetHash := 11; hashPrevBlock := 5 |} /\
  mapBlockIndex node_with_blocks 11 = None /\
  submitblock node_with_blocks refusing false [VSTR "0b"]
  = (true, Return (VSTR "bad-txns")).
Proof.
  split; [reflexivity|]. split; [reflexivity|].
  apply (submitblock_new_block node_with_blocks refusing "0b"
           {| GetHash := 11; hashPrevBlock := 5 |} eq_refl eq_refl).
Defined.

(** *** getblocksubsidy (lines 932-988) *)

Inductive CommunityFundType : Type := FOUNDATION | SECURENODE | SUPERNODE.

(** [CAmount] is an [int64_t]. *)
Definition wrap64 (v : Z) : Z := (v + 2 ^ 63) mod 2 ^ 64 - 2 ^ 63.
Definition sub64 (a b : Z) : Z := wrap64 (a - b).

Definition MAX_MONEY : Z := 21000000 * 100000000.

Section Subsidy.

(** [GetBlockSubsidy] and [ForkManager::getCommunityFundReward]. *)
Variable GetBlockSubsidy : Z -> Z.
Variable getCommunityFundReward : Z -> Z -> CommunityFundType -> Z.

(** The members of the result with their amounts, before [ValueFromAmount]
    renders them. *)
Definition getblocksubsidy (chainHeight : Z) (fHelp : bool)
    (params : list UniValue) : reply (list (string * Z)) :=
  if fHelp || (1 <? length params)%nat
  then Throw_runtime_error "getblocksubsidy help"
  else
    (nHeight <- (if (length params =? 1)%nat then get_int (nth 0 params VNULL)
                 else Return chainHeight) ;;
     if (nHeight <? 0)%Z
     then Throw (RPC_MISC RPC_INVALID_PARAMETER) "Block height out of range"
     else
       let nReward := GetBlockSubsidy nHeight in
       let minerReward := nReward in
       let nCommunityFund := getCommunityFundReward nHeight nReward FOUNDATION in
       let minerReward := sub64 minerReward nCommunityFund in
       let secureNodeFund := getCommunityFundReward nHeight nReward SECURENODE in
       let minerReward := if (secureNodeFund >? 0)%Z
                          then sub64 minerReward secureNodeFund else minerReward in
       let superNodeFund := getCommunityFundReward nHeight nReward SUPERNODE in
       let minerReward := if (superNodeFund >? 0)%Z
                          then sub64 minerReward superNodeFund else minerReward in
       Return ([("miner", minerReward); ("community", nCommunityFund)] ++
               (if (secureNodeFund >? 0)%Z then [("securenodes", secureNodeFund)]
                else []) ++
               (if (superNodeFund >? 0)%Z then [("supernodes", superNodeFund)]
                else [])))%reply.

Definition total (members : list (string * Z)) : Z :=
  fold_right Z.add 0%Z (map snd members).

Lemma wrap64_small (v : Z) : (- 2 ^ 63 <= v < 2 ^ 63)%Z -> wrap64 v = v.
Proof. intros B. unfold wrap64. rewrite Z.mod_small; lia. Qed.

(** For a height that is not negative, the amounts [getblocksubsidy] lists
    add up to the block subsidy of that height, as long as the subsidy and
    the three funds are amounts of money; the members "securenodes" and
    "supernodes" appear exactly when their fund is positive. *)
Theorem getblocksubsidy_adds_up (chainHeight nHeight : Z) :
  (0 <= nHeight <= INT_MAX)%Z ->
  (0 <= GetBlockSubsidy nHeight <= MAX_MONEY)%Z ->
  (forall t, - MAX_MONEY <=
             getCommunityFundReward nHeight (GetBlockSubsidy nHeight) t
             <= MAX_MONEY)%Z ->
  exists members,
    getblocksubsidy chainHeight false [VNUM nHeight] = Return members /\
    total members = GetBlockSubsidy nHeight /\
    map fst members =
      ["miner"; "community"] ++
      (if (getCommunityFundReward nHeight (GetBlockSubsidy nHeight) SECURENODE >? 0)%Z
       then ["securenodes"] else []) ++
      (if (getCommunityFundReward nHeight (GetBlockSubsidy nHeight) SUPERNODE >? 0)%Z
       then ["supernodes"] else []).
Proof.
  intros H R F. unfold getblocksubsidy.
  cbn [length Nat.ltb Nat.leb Nat.eqb orb nth get_int reply_bind].
  replace ((INT_MIN <=? nHeight)%Z && (nHeight <=? INT_MAX)%Z) with true
    by (symmetry; apply andb_true_iff; unfold INT_MIN;
        split; apply Z.leb_le; lia).
  cbn [reply_bind].
  destruct (Z.ltb_spec nHeight 0); [lia|].
  set (nReward := GetBlockSubsidy nHeight) in *.
  pose proof (F FOUNDATION) as Ff. pose proof (F SECURENODE) as Fs.
  pose proof (F SUPERNODE) as Fu.
  set (c := getCommunityFundReward nHeight nReward FOUNDATION) in *.
  set (sn := getCommunityFundReward nHeight nReward SECURENODE) in *.
  set (un := getCommunityFundReward nHeight nReward SUPERNODE) in *.
  assert (M : MAX_MONEY = 2100000000000000%Z) by reflexivity.
  assert (P : (2 ^ 63 = 9223372036854775808)%Z) by reflexivity.
  eexists. split; [reflexivity|].
  unfold total, sub64.
  rewrite (wrap64_small (nReward - c)) by lia.
  destruct (Z.gtb_spec sn 0); destruct (Z.gtb_spec un 0);
    cbn [app map snd fst fold_right]; (split; [|reflexivity]);
    try rewrite (wrap64_small (nReward - c - sn)) by lia;
    try rewrite (wrap64_small (nReward - c - sn - un)) by lia;
    try rewrite (wrap64_small (nReward - c - un)) by lia; lia.
Qed.

End Subsidy.

Definition subsidy_standin (nHeight : Z) : Z := 1250000000.
Definition fund_standin (nHeight nReward : Z) (t : CommunityFundType) : Z :=
  match t with
  | FOUNDATION => nReward / 5
  | SECURENODE => nReward / 10
  | SUPERNODE => 0
  end.

Lemma getblocksubsidy_adds_up_witness :
  (0 <= 1000 <= INT_MAX)%Z /\
  (0 <= subsidy_standin 1000 <= MAX_MONEY)%Z /\
  (forall t, - MAX_MONEY <= fund_standin 1000 (subsidy_standin 1000) t <= MAX_MONEY)%Z /\
  exists members,
    getblocksubsidy subsidy_standin fund_standin 100 false [VNUM 1000]
    = Return members /\
    total members = subsidy_standin 1000 /\
    map fst members =
      ["miner"; "community"] ++
      (if (fund_standin 1000 (subsidy_standin 1000) SECURENODE >? 0)%Z
       then ["securenodes"] else []) ++
      (if (fund_standin 1000 (subsidy_standin 1000) SUPERNODE >? 0)%Z
       then ["supernodes"] else []).
Proof.
  assert (H : (0 <= 1000 <= INT_MAX)%Z) by (vm_compute; split; discriminate).
  assert (R : (0 <= subsidy_standin 1000 <= MAX_MONEY)%Z)
    by (vm_compute; split; discriminate).
  assert (F : forall t, (- MAX_MONEY <= fund_standin 1000 (subsidy_standin 1000) t
                         <= MAX_MONEY)%Z)
    by (intros []; vm_compute; split; discriminate).
  split; [exact H|]. split; [exact R|]. split; [exact F|].
  exact (getblocksubsidy_adds_up subsidy_standin fund_standin 100 1000 H R F).
Defined.

(** *** Blocks, and the roots of getblockmerkleroots (lines 990-1052) *)

(** A transaction, as far as the template reads it. *)
Record CTransaction : Type := {
  tx_GetHash : uint256;
  GetVin : list uint256;        (* prevout.hash of each input *)
  GetVout : list Z;             (* nValue of each output *)
  IsCoinBase : bool
}.

Record CScCertificate : Type := {
  cert_GetHash : uint256
}.

Record roots : Type := {
  merkleTree : uint256;
  scTxsCommitment : uint256
}.

Section Blocks.

(** The codecs of core_io and the two commitment builders of [CBlock]. *)
Variable DecodeHexTx : string -> option CTransaction.
Variable DecodeHexCert : string -> option CScCertificate.
Variable EncodeHexTx : CTransaction -> string.
Variable EncodeHexCert : CScCertificate -> string.
Variable BuildMerkleTree : list CTransaction -> list CScCertificate -> uint256.
(** [CBlock::BuildScTxsCommitment(view)] reads the block and a view of the
    coins database. *)
Variable CCoinsViewCache : Type.
Variable BuildScTxsCommitment :
  CCoinsViewCache -> list CTransaction -> list CScCertificate -> uint256.
Variable GetHex : uint256 -> string.

(** The loops of lines 1015-1020 and 1025-1030. *)
Fixpoint decode_each {A} (decode : string -> option A) (failure : string)
    (items : list UniValue) : reply (list A) :=
  match items with
  | [] => Return []
  | item :: rest =>
      (s <- get_str item ;;
       match decode s with
       | None => Throw (RPC_MISC RPC_DESERIALIZATION_ERROR) failure
       | Some a => (decoded <- decode_each decode failure rest ;;
                    Return (a :: decoded))
       end)%reply
  end.

(** The two roots of a block with these transactions and certificates. *)
Definition block_roots (certSupported : bool) (view : CCoinsViewCache)
    (vtx : list CTransaction) (vcert : list CScCertificate) : roots :=
  {| merkleTree := BuildMerkleTree vtx vcert;
     scTxsCommitment := if certSupported
                        then BuildScTxsCommitment view vtx vcert else 0%Z |}.

Definition getblockmerkleroots (certSupported : bool) (view : CCoinsViewCache)
    (fHelp : bool) (params : list UniValue) : reply roots :=
  if fHelp || negb (length params =? 2)%nat
  then Throw_runtime_error "getblockmerkleroots help"
  else
    (txsStr <- get_array (nth 0 params VNULL) ;;
     txs <- decode_each DecodeHexTx "TX decode failed" txsStr ;;
     certsStr <- get_array (nth 1 params VNULL) ;;
     certs <- decode_each DecodeHexCert "Certificate decode failed" certsStr ;;
     Return (block_roots certSupported view txs certs))%reply.

Lemma decode_each_encoded {A} (decode : string -> option A) (encode : A -> string)
    (failure : string) (l : list A) :
  (forall a, In a l -> decode (encode a) = Some a) ->
  decode_each decode failure (map (fun a => VSTR (encode a)) l) = Return l.
Proof.
  induction l as [|a l IH]; intros D; [reflexivity|].
  cbn [map decode_each get_str reply_bind]. rewrite (D a (or_introl eq_refl)).
  rewrite IH by (intros b B; apply D; right; exact B). reflexivity.
Qed.

Lemma decode_each_Return {A} (decode : string -> option A) (failure : string)
    (items : list UniValue) (l : list A) :
  decode_each decode failure items = Return l ->
  Forall2 (fun item a => exists s, item = VSTR s /\ decode s = Some a) items l.
Proof.
  revert l. induction items as [|item rest IH]; intros l E.
  - injection E as <-. constructor.
  - cbn [decode_each] in E. destruct item; try discriminate E.
    cbn [get_str reply_bind] in E.
    destruct (decode s) as [a|] eqn:D; [|discriminate E].
    destruct (decode_each decode failure rest) as [decoded | |]; try discriminate E.
    injection E as <-. constructor; [exists s; auto | apply IH; reflexivity].
Qed.

(** [getblockmerkleroots] looks at the certificates only after every
    transaction has been decoded: with a transactions argument that fails,
    the reply is the same whatever the second argument is.  When it returns,
    both arguments were arrays of strings that decode, the Merkle root is the
    one of exactly the decoded transactions and certificates in the given
    order, and the commitment is null unless sidechains are supported. *)
Theorem getblockmerkleroots_order (certSupported : bool) (view : CCoinsViewCache)
    (txsArg certsArg : UniValue) :
  ((forall txs, (txsStr <- get_array txsArg ;;
                 decode_each DecodeHexTx "TX decode failed" txsStr)%reply
                <> Return txs) ->
   forall other,
     getblockmerkleroots certSupported view false [txsArg; other] =
     getblockmerkleroots certSupported view false [txsArg; certsArg]) /\
  (forall r,
     getblockmerkleroots certSupported view false [txsArg; certsArg] = Return r ->
     exists txsStr certsStr txs certs,
       txsArg = VARR txsStr /\ certsArg = VARR certsStr /\
       Forall2 (fun item a => exists s, item = VSTR s /\ DecodeHexTx s = Some a)
         txsStr txs /\
       Forall2 (fun item a => exists s, item = VSTR s /\ DecodeHexCert s = Some a)
         certsStr certs /\
       merkleTree r = BuildMerkleTree txs certs /\
       scTxsCommitment r
       = if certSupported then BuildScTxsCommitment view txs certs else 0%Z).
Proof.
  unfold getblockmerkleroots. cbn [length Nat.eqb negb orb nth]. split.
  - intros N other.
    destruct (get_array txsArg) as [txsStr | c m | w]; cbn [reply_bind] in *;
      try reflexivity.
    destruct (decode_each DecodeHexTx "TX decode failed" txsStr) as [txs | c m | w];
      cbn [reply_bind]; try reflexivity.
    exfalso. apply (N txs). reflexivity.
  - intros r E.
    destruct txsArg as [| | | |txsStr|]; try discriminate E.
    cbn [get_array reply_bind] in E.
    destruct (decode_each DecodeHexTx "TX decode failed" txsStr) as [txs | |] eqn:T;
      try discriminate E. cbn [reply_bind] in E.
    destruct certsArg as [| | | |certsStr|]; try discriminate E.
    cbn [get_array reply_bind] in E.
    destruct (decode_each DecodeHexCert "Certificate decode failed" certsStr)
      as [certs | |] eqn:C; try discriminate E. cbn [reply_bind] in E.
    injection E as <-. exists txsStr, certsStr, txs, certs.
    split; [reflexivity|]. split; [reflexivity|].
    split; [apply (decode_each_Return _ _ _ _ T)|].
    split; [apply (decode_each_Return _ _ _ _ C)|].
    split; reflexivity.
Qed.

(** *** The entries of a template (lines 642-694 and 713-756) *)

(** A block template: the block's transactions and certificates with their
    fees and signature operations. *)
Record block_template : Type := {
  vtx : list CTransaction;
  vcert : list CScCertificate;
  vTxFees : list Z;
  vTxSigOps : list Z;
  vCertFees : list Z;
  vCertSigOps : list Z
}.

Record tx_entry : Type := {
  data : string;
  hash_hex : string;
  depends : list Z;
  fee : Z;
  sigops : Z;
  funds : list (string * Z);  (* communityfund, securenodes, supernodes *)
  required : bool
}.

Record cert_entry : Type := {
  cert_data : string;
  cert_hash_hex : string;
  cert_fee : Z;
  cert_sigops : Z
}.

(** [std::map<uint256, int64_t> setTxIndex]: the newest binding of a key is
    the first in the list and the one a lookup finds. *)
Definition TxIndex : Type := list (uint256 * Z).

Fixpoint index_find (h : uint256) (m : TxIndex) : option Z :=
  match m with
  | [] => None
  | (k, v) :: rest => if Z.eqb k h then Some v else index_find h rest
  end.

Definition index_set (h : uint256) (v : Z) (m : TxIndex) : TxIndex := (h, v) :: m.

(** The loop variables of lines 650-653. *)
Record entries_state : Type := {
  i : Z;
  setTxIndex : TxIndex;
  txCoinbase : option tx_entry;
  transactions : list tx_entry
}.

Definition entries_start : entries_state :=
  {| i := 0; setTxIndex := []; txCoinbase := None; transactions := [] |}.

(** Lines 679-688: what a coinbase entry says about the funds.  The sizes
    are those of the outputs of the first transaction of the block. *)
Definition coinbase_funds (vtx0_outputs : nat) (tx : CTransaction)
  : list (string * Z) :=
  if (1 <? vtx0_outputs)%nat then
    ("communityfund", nth 1 (GetVout tx) 0%Z) ::
    (if (3 <? vtx0_outputs)%nat
     then [("securenodes", nth 2 (GetVout tx) 0%Z);
           ("supernodes", nth 3 (GetVout tx) 0%Z)]
     else [])
  else [].

(** One turn of the loop of lines 654-694 ([coinbasetxn] is [true]). *)
Definition visit (t : block_template) (st : entries_state) (tx : CTransaction)
  : entries_state :=
  let txHash := tx_GetHash tx in
  let setTxIndex := index_set txHash (i st) (setTxIndex st) in
  let i := (i st + 1)%Z in
  let deps := flat_map (fun prevout =>
                          match index_find prevout setTxIndex with
                          | Some d => [d]
                          | None => []
                          end) (GetVin tx) in
  let index_in_template := Z.to_nat (i - 1) in
  let entry := {| data := EncodeHexTx tx;
                  hash_hex := GetHex txHash;
                  depends := deps;
                  fee := nth index_in_template (vTxFees t) 0%Z;
                  sigops := nth index_in_template (vTxSigOps t) 0%Z;
                  funds := if IsCoinBase tx
                           then coinbase_funds
                                  (length (GetVout (nth 0 (vtx t)
                                     {| tx_GetHash := 0; GetVin := []; GetVout := [];
                                        IsCoinBase := false |}))) tx
                           else [];
                  required := IsCoinBase tx |} in
  if IsCoinBase tx
  then {| i := i; setTxIndex := setTxIndex; txCoinbase := Some entry;
          transactions := transactions st |}
  else {| i := i; setTxIndex := setTxIndex; txCoinbase := txCoinbase st;
          transactions := transactions st ++ [entry] |}.

Definition template_entries (t : block_template) : entries_state :=
  fold_left (visit t) (vtx t) entries_start.

(** Lines 730-748. *)
Fixpoint certificate_entries (t : block_template) (cert_idx_in_template : nat)
    (certs : list CScCertificate) : list cert_entry :=
  match certs with
  | [] => []
  | cert :: rest =>
      {| cert_data := EncodeHexCert cert;
         cert_hash_hex := GetHex (cert_GetHash cert);
         cert_fee := nth cert_idx_in_template (vCertFees t) 0%Z;
         cert_sigops := nth cert_idx_in_template (vCertSigOps t) 0%Z |}
      :: certificate_entries t (S cert_idx_in_template) rest
  end.

(** The members of the response that carry the block. *)
Record template_response : Type := {
  r_roots : roots;
  r_transactions : list tx_entry;
  r_certificates : option (list cert_entry);
  r_coinbasetxn : tx_entry
}.

(** Lines 642-756, for the block part: [None] is the failure of
    [assert(txCoinbase.isObject())]. *)
Definition template_block_part (certSupported : bool) (view : CCoinsViewCache)
    (t : block_template) : option template_response :=
  let st := template_entries t in
  match txCoinbase st with
  | None => None
  | Some cb =>
      Some {| r_roots := block_roots certSupported view (vtx t) (vcert t);
              r_transactions := transactions st;
              r_certificates := if certSupported
                                then Some (certificate_entries t 0 (vcert t))
                                else None;
              r_coinbasetxn := cb |}
  end.

(** The position of the last transaction with that hash. *)
Fixpoint last_position (h : uint256) (l : list CTransaction) : option nat :=
  match l with
  | [] => None
  | tx :: rest =>
      match last_position h rest with
      | Some p => Some (S p)
      | None => if Z.eqb (tx_GetHash tx) h then Some 0%nat else None
      end
  end.

Definition no_tx : CTransaction :=
  {| tx_GetHash := 0; GetVin := []; GetVout := []; IsCoinBase := false |}.

Lemma last_position_snoc (h : uint256) (l : list CTransaction) (tx : CTransaction) :
  last_position h (l ++ [tx]) =
  if Z.eqb (tx_GetHash tx) h then Some (length l) else last_position h l.
Proof.
  induction l as [|a l IH]; cbn [app last_position length].
  - destruct (Z.eqb (tx_GetHash tx) h); reflexivity.
  - rewrite IH. destruct (Z.eqb (tx_GetHash tx) h); [reflexivity|].
    destruct (last_position h l); reflexivity.
Qed.

Lemma last_position_Some (h : uint256) (l : list CTransaction) (p : nat) :
  last_position h l = Some p ->
  (p < length l)%nat /\ tx_GetHash (nth p l no_tx) = h /\
  forall q, (p < q < length l)%nat -> tx_GetHash (nth q l no_tx) <> h.
Proof.
  revert p. induction l as [|a l IH]; intros p E; [discriminate|].
  cbn [last_position] in E. destruct (last_position h l) as [p'|] eqn:L.
  - injection E as <-. destruct (IH p' eq_refl) as (B & H & N).
    cbn [length nth]. split; [lia|]. split; [exact H|].
    intros q Q. destruct q as [|q]; [lia|]. cbn [nth]. apply N. lia.
  - destruct (Z.eqb_spec (tx_GetHash a) h) as [H | H]; [|discriminate].
    injection E as <-. cbn [length nth]. split; [lia|]. split; [exact H|].
    intros q Q. destruct q as [|q]; [lia|]. cbn [nth].
    clear - L Q. revert q Q. induction l as [|b l IH]; intros q Q.
    + cbn [length] in Q. lia.
    + cbn [last_position] in L. destruct (last_position h l) eqn:L'; [discriminate|].
      destruct (Z.eqb_spec (tx_GetHash b) h) as [|Nb]; [discriminate|].
      destruct q as [|q]; [exact Nb|]. cbn [nth]. apply IH; [reflexivity|].
      cbn [length] in Q. lia.
Qed.

Lemma last_position_None (h : uint256) (l : list CTransaction) :
  last_position h l = None ->
  forall q, (q < length l)%nat -> tx_GetHash (nth q l no_tx) <> h.
Proof.
  induction l as [|a l IH]; intros E q Q; [cbn [length] in Q; lia|].
  cbn [last_position] in E. destruct (last_position h l); [discriminate|].
  destruct (Z.eqb_spec (tx_GetHash a) h) as [|N]; [discriminate|].
  destruct q as [|q]; [exact N|]. cbn [nth]. apply IH; [reflexivity|].
  cbn [length] in Q. lia.
Qed.

(** The dependencies of the transaction that follows [before] in the block. *)
Definition depends_of (before : list CTransaction) (tx : CTransaction) : list Z :=
  flat_map (fun prevout =>
              match last_position prevout (before ++ [tx]) with
              | Some p => [Z.of_nat p]
              | None => []
              end) (GetVin tx).

(** What the loop has built after the transactions [before]. *)
Definition entries_after (t : block_template) (before : list CTransaction)
    (st : entries_state) : Prop :=
  i st = Z.of_nat (length before) /\
  (forall h, index_find h (setTxIndex st)
             = option_map Z.of_nat (last_position h before)) /\
  Forall2 (fun e k =>
             let tx := nth k before no_tx in
             (k < length before)%nat /\ IsCoinBase tx = false /\
             data e = EncodeHexTx tx /\ hash_hex e = GetHex (tx_GetHash tx) /\
             depends e = depends_of (firstn k before) tx /\
             fee e = nth k (vTxFees t) 0%Z /\ sigops e = nth k (vTxSigOps t) 0%Z)
    (transactions st)
    (filter (fun k => negb (IsCoinBase (nth k before no_tx))) (seq 0 (length before))) /\
  (txCoinbase st = None <-> forall tx, In tx before -> IsCoinBase tx = false) /\
  (forall cb, txCoinbase st = Some cb ->
     exists k, (k < length before)%nat /\ IsCoinBase (nth k before no_tx) = true /\
               data cb = EncodeHexTx (nth k before no_tx) /\
               (forall q, (k < q < length before)%nat ->
                          IsCoinBase (nth q before no_tx) = false)).

Lemma visit_entries_after (t : block_template) (before : list CTransaction)
    (tx : CTransaction) (st : entries_state) :
  entries_after t before st -> entries_after t (before ++ [tx]) (visit t st tx).
Proof.
  intros (I & M & T & N & C).
  assert (M' : forall h, index_find h (index_set (tx_GetHash tx) (i st) (setTxIndex st))
                         = option_map Z.of_nat (last_position h (before ++ [tx]))).
  { intros h. cbn [index_set index_find]. rewrite last_position_snoc.
    destruct (Z.eqb (tx_GetHash tx) h); [rewrite I; reflexivity | apply M]. }
  assert (Len : length (before ++ [tx]) = S (length before))
    by (rewrite length_app; cbn [length]; lia).
  assert (Nth : forall k, (k < length before)%nat ->
                          nth k (before ++ [tx]) no_tx = nth k before no_tx)
    by (intros k K; apply app_nth1; exact K).
  assert (NthL : nth (length before) (before ++ [tx]) no_tx = tx).
  { rewrite app_nth2 by lia. rewrite Nat.sub_diag. reflexivity. }
  assert (Seq : filter (fun k => negb (IsCoinBase (nth k (before ++ [tx]) no_tx)))
                  (seq 0 (length (before ++ [tx])))
                = filter (fun k => negb (IsCoinBase (nth k before no_tx)))
                    (seq 0 (length before))
                  ++ (if IsCoinBase tx then [] else [length before])).
  { rewrite Len, seq_S, filter_app. cbn [filter Nat.add]. rewrite NthL.
    f_equal; [|destruct (IsCoinBase tx); reflexivity].
    apply filter_ext_in. intros k K. apply in_seq in K. rewrite Nth by lia.
    reflexivity. }
  assert (T' : Forall2 (fun e k =>
             let tx0 := nth k (before ++ [tx]) no_tx in
             (k < length (before ++ [tx]))%nat /\ IsCoinBase tx0 = false /\
             data e = EncodeHexTx tx0 /\ hash_hex e = GetHex (tx_GetHash tx0) /\
             depends e = depends_of (firstn k (before ++ [tx])) tx0 /\
             fee e = nth k (vTxFees t) 0%Z /\ sigops e = nth k (vTxSigOps t) 0%Z)
    (transactions st)
    (filter (fun k => negb (IsCoinBase (nth k before no_tx))) (seq 0 (length before)))).
  { eapply Forall2_impl; [|exact T]. cbv zeta. intros e k (K & R).
    rewrite (Nth k K). rewrite firstn_app.
    replace (k - length before)%nat with 0%nat by lia.
    cbn [firstn]. rewrite app_nil_r. split; [lia | exact R]. }
  unfold visit, entries_after. rewrite Seq.
  destruct (IsCoinBase tx) eqn:CB; cbn [i setTxIndex txCoinbase transactions].
  - split; [rewrite Len; lia|]. split; [exact M'|]. rewrite app_nil_r.
    split; [exact T'|]. split.
    + split; [discriminate|]. intros A.
      rewrite (A tx) in CB by (apply in_or_app; right; left; reflexivity).
      discriminate.
    + intros cb E. injection E as <-. exists (length before).
      rewrite NthL. cbn [data]. split; [lia|]. split; [exact CB|].
      split; [reflexivity|]. intros q Q. lia.
  - split; [rewrite Len; lia|]. split; [exact M'|]. split.
    + apply Forall2_app; [exact T'|]. constructor; [|constructor].
      cbv zeta. rewrite NthL. cbn [data hash_hex depends fee sigops].
      split; [lia|]. split; [exact CB|]. split; [reflexivity|].
      split; [reflexivity|]. split.
      * unfold depends_of. rewrite firstn_app, firstn_all, Nat.sub_diag.
        cbn [firstn]. rewrite app_nil_r.
        apply flat_map_ext. intros h. rewrite M'.
        destruct (last_position h (before ++ [tx])); reflexivity.
      * rewrite I. replace (Z.to_nat (Z.of_nat (length before) + 1 - 1))
          with (length before) by lia. split; reflexivity.
    + split.
      * rewrite N. split.
        -- intros A tx0 In0. apply in_app_or in In0. destruct In0 as [In0 | [<- | []]];
             [apply A; exact In0 | exact CB].
        -- intros A tx0 In0. apply A. apply in_or_app. left. exact In0.
      * intros cb E. destruct (C cb E) as (k & K & Ck & D & After).
        exists k. rewrite (Nth k K). split; [lia|]. split; [exact Ck|].
        split; [exact D|]. intros q Q.
        destruct (Nat.eq_dec q (length before)) as [-> | Nq].
        -- rewrite NthL. exact CB.
        -- rewrite Nth by lia. apply After. lia.
Qed.

Lemma template_entries_after (t : block_template) :
  entries_after t (vtx t) (template_entries t).
Proof.
  unfold template_entries.
  assert (G : forall rest before st,
             entries_after t before st ->
             entries_after t (before ++ rest) (fold_left (visit t) rest st)).
  { induction rest as [|tx rest IH]; intros before st E.
    - rewrite app_nil_r. exact E.
    - cbn [fold_left].
      replace (before ++ tx :: rest) with ((before ++ [tx]) ++ rest)
        by (rewrite <- app_assoc; reflexivity).
      apply IH. apply visit_entries_after. exact E. }
  apply (G (vtx t) [] entries_start).
  unfold entries_after, entries_start. cbn.
  split; [reflexivity|]. split; [reflexivity|]. split; [constructor|].
  split; [split; [intros _ tx [] | reflexivity] | discriminate].
Qed.

Lemma firstn_snoc_nth (l : list CTransaction) (k : nat) :
  (k < length l)%nat -> firstn k l ++ [nth k l no_tx] = firstn (S k) l.
Proof.
  revert k. induction l as [|a l IH]; intros k K; [cbn [length] in K; lia|].
  destruct k as [|k]; [reflexivity|].
  cbn [firstn nth app]. f_equal. apply IH. cbn [length] in K. lia.
Qed.

(** The positions of the block's transactions that are not coinbase. *)
Definition non_coinbase_positions (l : list CTransaction) : list nat :=
  filter (fun k => negb (IsCoinBase (nth k l no_tx))) (seq 0 (length l)).

(** The [transactions] of a template are the transactions of the block that
    are not coinbase, in the order of the block.  The [depends] of the one at
    position [k] of the block holds positions of the block, none above [k]:
    for each input, in order, whose previous hash is the hash of a
    transaction at a position up to [k], the largest such position, and
    nothing for the other inputs; so it is never longer than the inputs.
    ([last_position] is the position of the last transaction of that hash in
    a list.) *)
Theorem template_transactions_depends (t : block_template) :
  Forall2 (fun e k =>
     let tx := nth k (vtx t) no_tx in
     data e = EncodeHexTx tx /\ hash_hex e = GetHex (tx_GetHash tx) /\
     (forall d, In d (depends e) ->
        exists p, d = Z.of_nat p /\ (p <= k)%nat /\
                  In (tx_GetHash (nth p (vtx t) no_tx)) (GetVin tx) /\
                  forall q, (p < q <= k)%nat ->
                    tx_GetHash (nth q (vtx t) no_tx)
                    <> tx_GetHash (nth p (vtx t) no_tx)) /\
     (forall prevout p,
        In prevout (GetVin tx) -> (p <= k)%nat ->
        tx_GetHash (nth p (vtx t) no_tx) = prevout ->
        exists p', (p <= p' <= k)%nat /\
                   tx_GetHash (nth p' (vtx t) no_tx) = prevout /\
                   In (Z.of_nat p') (depends e)) /\
     (length (depends e) <= length (GetVin tx))%nat /\
     depends e
     = flat_map (fun prevout =>
                   match last_position prevout (firstn (S k) (vtx t)) with
                   | Some p => [Z.of_nat p]
                   | None => []
                   end) (GetVin tx))
    (transactions (template_entries t))
    (non_coinbase_positions (vtx t)).
Proof.
  destruct (template_entries_after t) as (_ & _ & T & _).
  unfold non_coinbase_positions.
  eapply Forall2_impl; [|exact T]. cbv zeta.
  intros e k (K & _ & D & H & Dep & _).
  split; [exact D|]. split; [exact H|].
  unfold depends_of in Dep. rewrite (firstn_snoc_nth _ _ K) in Dep.
  assert (Nth : forall p, (p <= k)%nat ->
                  nth p (firstn (S k) (vtx t)) no_tx = nth p (vtx t) no_tx).
  { intros p P. rewrite nth_firstn.
    replace (p <? S k)%nat with true by (symmetry; apply Nat.ltb_lt; lia).
    reflexivity. }
  assert (Len : length (firstn (S k) (vtx t)) = S k)
    by (rewrite length_firstn; lia).
  rewrite Dep. split; [|split; [|split; [|reflexivity]]].
  - intros d In_d. apply in_flat_map in In_d. destruct In_d as (prevout & In_p & In_d).
    destruct (last_position prevout (firstn (S k) (vtx t))) as [p|] eqn:L;
      [|destruct In_d].
    destruct In_d as [<- | []].
    destruct (last_position_Some _ _ _ L) as (B & Hp & Last).
    rewrite Len in B, Last. rewrite Nth in Hp by lia.
    exists p. split; [reflexivity|]. split; [lia|]. split; [rewrite Hp; exact In_p|].
    intros q Q. rewrite Hp. rewrite <- (Nth q) by lia. apply Last. lia.
  - intros prevout p In_p P Hp.
    destruct (last_position prevout (firstn (S k) (vtx t))) as [p'|] eqn:L.
    + destruct (last_position_Some _ _ _ L) as (B & Hp' & Last).
      rewrite Len in B, Last. rewrite Nth in Hp' by lia.
      exists p'. split; [|split; [exact Hp'|]].
      * split; [|lia]. destruct (Nat.le_gt_cases p p') as [|G]; [assumption|].
        exfalso. apply (Last p); [lia|]. rewrite Nth by lia. exact Hp.
      * apply in_flat_map. exists prevout. split; [exact In_p|].
        rewrite L. left. reflexivity.
    + exfalso. apply (last_position_None _ _ L p); [rewrite Len; lia|].
      rewrite Nth by lia. exact Hp.
  - clear. induction (GetVin (nth k (vtx t) no_tx)) as [|h l IH]; [apply le_n|].
    cbn [flat_map]. rewrite length_app. cbn [length].
    destruct (last_position h (firstn (S k) (vtx t))); cbn [length]; lia.
Qed.


Lemma visit_non_coinbase (t : block_template) (l : list CTransaction) :
  (forall tx, In tx l -> IsCoinBase tx = false) ->
  forall st,
    txCoinbase (fold_left (visit t) l st) = txCoinbase st /\
    map data (transactions (fold_left (visit t) l st))
    = map data (transactions st) ++ map EncodeHexTx l.
Proof.
  induction l as [|tx l IH]; intros A st.
  - cbn [fold_left map]. rewrite app_nil_r. split; reflexivity.
  - cbn [fold_left]. destruct (IH (fun x X => A x (or_intror X)) (visit t st tx))
      as (-> & ->).
    unfold visit. rewrite (A tx (or_introl eq_refl)).
    cbn [txCoinbase transactions]. split; [reflexivity|].
    rewrite map_app. cbn [map data]. rewrite <- app_assoc. reflexivity.
Qed.

Lemma certificate_entries_data (t : block_template) (l : list CScCertificate) :
  forall n, map cert_data (certificate_entries t n l) = map EncodeHexCert l.
Proof.
  induction l as [|c l IH]; intros n; [reflexivity|].
  cbn [certificate_entries map cert_data]. rewrite IH. reflexivity.
Qed.

(** The roots of a template are the roots [getblockmerkleroots] computes from
    the template's own data: on a block that starts with its only coinbase
    transaction, with codecs that read back what they wrote for the items of
    the block, with no certificate in a block built before sidechains are
    supported and with the same view of the coins, handing the [data] of
    [coinbasetxn] followed by those of [transactions], and the [data] of the
    [certificates], to [getblockmerkleroots] gives [merkleTree] and
    [scTxsCommitment] of the template. *)
Theorem template_roots_recomputed (certSupported : bool) (view : CCoinsViewCache)
    (t : block_template) (cb : CTransaction) (rest : list CTransaction) :
  vtx t = cb :: rest ->
  IsCoinBase cb = true ->
  (forall tx, In tx rest -> IsCoinBase tx = false) ->
  (forall tx, In tx (vtx t) -> DecodeHexTx (EncodeHexTx tx) = Some tx) ->
  (forall c, In c (vcert t) -> DecodeHexCert (EncodeHexCert c) = Some c) ->
  (certSupported = false -> vcert t = []) ->
  exists r,
    template_block_part certSupported view t = Some r /\
    getblockmerkleroots certSupported view false
      [VARR (map (fun e => VSTR (data e)) (r_coinbasetxn r :: r_transactions r));
       VARR (map (fun e => VSTR (cert_data e))
               (match r_certificates r with Some certs => certs | None => [] end))]
    = Return (r_roots r).
Proof.
  intros V CB Rest DT DC NoCert.
  assert (S1 : exists e, txCoinbase (visit t entries_start cb) = Some e /\
                         data e = EncodeHexTx cb /\
                         transactions (visit t entries_start cb) = []).
  { unfold visit. rewrite CB. cbn [txCoinbase transactions entries_start].
    eexists. split; [reflexivity|]. split; reflexivity. }
  destruct S1 as (e & E1 & E2 & E3).
  destruct (visit_non_coinbase t rest Rest (visit t entries_start cb)) as (Cb & Tx).
  rewrite E3 in Tx. cbn [map app] in Tx.
  unfold template_block_part, template_entries. rewrite V. cbn [fold_left].
  rewrite Cb, E1. eexists. split; [reflexivity|].
  cbn [r_coinbasetxn r_transactions r_certificates r_roots].
  unfold getblockmerkleroots.
  cbn [length Nat.eqb negb orb nth get_array reply_bind map].
  rewrite E2, <- (map_map data VSTR), Tx, map_map.
  change (VSTR (EncodeHexTx cb) :: map (fun tx => VSTR (EncodeHexTx tx)) rest)
    with (map (fun tx => VSTR (EncodeHexTx tx)) (cb :: rest)).
  rewrite <- V.
  rewrite (decode_each_encoded DecodeHexTx EncodeHexTx _ (vtx t) DT).
  cbn [reply_bind].
  destruct certSupported.
  - rewrite <- (map_map cert_data VSTR), certificate_entries_data, map_map.
    rewrite (decode_each_encoded DecodeHexCert EncodeHexCert _ (vcert t) DC).
    reflexivity.
  - rewrite (NoCert eq_refl). reflexivity.
Qed.

End Blocks.

(** A block of three transactions, the third spending the second and the
    coinbase, with table codecs and sums for the two roots. *)
Definition coinbase0 : CTransaction :=
  {| tx_GetHash := 10; GetVin := []; GetVout := [5; 1]; IsCoinBase := true |}.
Definition spend1 : CTransaction :=
  {| tx_GetHash := 11; GetVin := [99]; GetVout := [3]; IsCoinBase := false |}.
Definition spend2 : CTransaction :=
  {| tx_GetHash := 12; GetVin := [11; 98; 10]; GetVout := [2]; IsCoinBase := false |}.
Definition cert0 : CScCertificate := {| cert_GetHash := 20 |}.

Definition EncodeHexTx_standin (tx : CTransaction) : string :=
  if Z.eqb (tx_GetHash tx) 10 then "0a"
  else if Z.eqb (tx_GetHash tx) 11 then "0b" else "0c".
Definition DecodeHexTx_standin (s : string) : option CTransaction :=
  if String.eqb s "0a" then Some coinbase0
  else if String.eqb s "0b" then Some spend1
  else if String.eqb s "0c" then Some spend2 else None.
Definition EncodeHexCert_standin (c : CScCertificate) : string := "14".
Definition DecodeHexCert_standin (s : string) : option CScCertificate :=
  if String.eqb s "14" then Some cert0 else None.
Definition BuildMerkleTree_standin (txs : list CTransaction)
    (certs : list CScCertificate) : uint256 :=
  fold_right Z.add 0%Z (map tx_GetHash txs ++ map cert_GetHash certs).
Definition BuildScTxsCommitment_standin (view : unit) (txs : list CTransaction)
    (certs : list CScCertificate) : uint256 :=
  fold_right Z.add 1%Z (map cert_GetHash certs).

Fixpoint hex_digits (n : nat) (v : Z) : string :=
  match n with
  | O => EmptyString
  | S n' =>
      (hex_digits n' (v / 16)
       ++ String (CctpObjects.hexmap_at (Z.to_N (v mod 16))) EmptyString)%string
  end.
Definition GetHex_standin (h : uint256) : string := hex_digits 64 h.

Definition template0 : block_template :=
  {| vtx := [coinbase0; spend1; spend2]; vcert := [cert0];
     vTxFees := [0; 7; 9]%Z; vTxSigOps := [1; 2; 3]%Z;
     vCertFees := [4]%Z; vCertSigOps := [6]%Z |}.

Lemma template_roots_recomputed_witness :
  exists r,
    template_block_part EncodeHexTx_standin EncodeHexCert_standin
      BuildMerkleTree_standin unit BuildScTxsCommitment_standin GetHex_standin
      true tt template0 = Some r /\
    getblockmerkleroots DecodeHexTx_standin DecodeHexCert_standin
      BuildMerkleTree_standin unit BuildScTxsCommitment_standin true tt false
      [VARR (map (fun e => VSTR (data e)) (r_coinbasetxn r :: r_transactions r));
       VARR (map (fun e => VSTR (cert_data e))
               (match r_certificates r with Some certs => certs | None => [] end))]
    = Return (r_roots r).
Proof.
  apply (template_roots_recomputed DecodeHexTx_standin DecodeHexCert_standin
           EncodeHexTx_standin EncodeHexCert_standin BuildMerkleTree_standin
           unit BuildScTxsCommitment_standin GetHex_standin true tt template0
           coinbase0 [spend1; spend2]).
  - reflexivity.
  - reflexivity.
  - intros tx [<- | [<- | []]]; reflexivity.
  - intros tx [<- | [<- | [<- | []]]]; reflexivity.
  - intros c [<- | []]; reflexivity.
  - discriminate.
Defined.

(** The third transaction of that block depends on the second and on the
    coinbase, in the order of its inputs, by their positions in the block;
    the input that is not of the block leaves no trace. *)
Example template0_depends :
  map depends
    (transactions
       (template_entries EncodeHexTx_standin GetHex_standin template0))
  = [[]; [1; 0]]%Z.
Proof. reflexivity. Qed.

(** *** The wait of a long poll, turn by turn *)

Lemma exits_not_waiting (w : watch) (why : exit_reason) (o : observation) :
  keeps_waiting w o -> exits_at w why o -> False.
Proof.
  intros (T & R & N) X. destruct why; cbn [exits_at] in X.
  - exact (X T).
  - destruct X as (_ & X). congruence.
  - destruct X as (_ & _ & X & C). destruct N as [N | N]; congruence.
Qed.

Lemma wait_loop_waiting_iff (w : watch) (obs : list observation) (t : Z) :
  (exists t', snd (wait_loop w t obs) = Waiting t') <-> Forall (keeps_waiting w) obs.
Proof.
  pose proof (wait_loop_spec w obs t) as Spec.
  destruct (snd (wait_loop w t obs)) as [t' | why t'].
  - split; [intros _; exact (proj1 Spec) | intros _; exists t'; reflexivity].
  - split; [intros (t'' & E); discriminate E|].
    intros F. exfalso. destruct Spec as (waited & o & rest & -> & _ & X & _).
    apply Forall_app in F. destruct F as (_ & F).
    apply (exits_not_waiting w why o); [exact (Forall_inv F) | exact X].
Qed.

(** The loop ends at the first turn that shows a reason to end, with that
    reason, whatever the later turns would have shown: the deadline has moved
    by ten seconds for each timeout waited through, and the loop has waited
    once for each turn before and once more when the reason is the mempool
    counter, which is read only after a wait has timed out. *)
Theorem wait_loop_first_reason (w : watch) (why : exit_reason)
    (waited : list observation) (o : observation) (rest : list observation) (t : Z) :
  Forall (keeps_waiting w) waited ->
  exits_at w why o ->
  snd (wait_loop w t (waited ++ o :: rest)) = Exited why (t + 10 * timeouts waited) /\
  length (fst (wait_loop w t (waited ++ o :: rest)))
  = (length waited + match why with MempoolChanged => 1 | _ => 0 end)%nat.
Proof.
  intros F X. revert t. induction F as [|o' waited K F IH]; intros t.
  - cbn [app wait_loop]. replace (t + 10 * timeouts []) with t
      by (unfold timeouts; cbn [filter length]; lia).
    destruct why; cbn [exits_at] in X.
    + apply Z.eqb_neq in X. rewrite X. split; reflexivity.
    + destruct X as (T & R). apply Z.eqb_eq in T. rewrite T, R. split; reflexivity.
    + destruct X as (T & R & N & C). apply Z.eqb_eq in T. apply Z.eqb_neq in C.
      rewrite T, R, N, C. split; reflexivity.
  - destruct K as (T & R & N). apply Z.eqb_eq in T.
    cbn [app wait_loop]. rewrite T, R. cbn [negb]. rewrite timeouts_cons.
    destruct (notified o') eqn:No.
    + destruct (IH t) as (E1 & E2).
      destruct (wait_loop w t (waited ++ o :: rest)) as [evs st].
      cbn [fst snd length] in *. rewrite E1, E2. split; [f_equal; lia | reflexivity].
    + destruct N as [N | N]; [discriminate|]. apply Z.eqb_eq in N. rewrite N.
      cbn [negb]. destruct (IH (t + 10)) as (E1 & E2).
      destruct (wait_loop w (t + 10) (waited ++ o :: rest)) as [evs st].
      cbn [fst snd length] in *. rewrite E1, E2. split; [f_equal; lia | reflexivity].
Qed.

(** A wait that times out and finds the mempool counter at [counter]. *)
Definition timeout_turn (counter : Z) : observation :=
  {| tip_hash := 5; IsRPCRunning := true; notified := false;
     GetTransactionsUpdated := counter |}.

Definition watch_5_7 : watch :=
  {| hashWatchedChain := 5; nTransactionsUpdatedLastLP := 7 |}.

Lemma wait_loop_first_reason_witness :
  snd (wait_loop watch_5_7 60
         ([quiet_turn; timeout_turn 7] ++ timeout_turn 8 :: [quiet_turn]))
  = Exited MempoolChanged (60 + 10 * timeouts [quiet_turn; timeout_turn 7]) /\
  length (fst (wait_loop watch_5_7 60
                 ([quiet_turn; timeout_turn 7] ++ timeout_turn 8 :: [quiet_turn])))
  = (length [quiet_turn; timeout_turn 7] + 1)%nat.
Proof.
  apply (wait_loop_first_reason watch_5_7 MempoolChanged).
  - constructor; [|constructor; [|constructor]].
    + split; [reflexivity|]. split; [reflexivity|]. left. reflexivity.
    + split; [reflexivity|]. split; [reflexivity|]. right. reflexivity.
  - cbn. split; [reflexivity|]. split; [reflexivity|]. split; [reflexivity|].
    discriminate.
Defined.

(** *** The long-poll token of a response (line 762) *)

Section Token.

Variable GetHex : uint256 -> string.
Variable i64tostr : Z -> string.
Variable SetHex : string -> uint256.
Variable atoi64 : string -> Z.

Definition longpollid (tipHash : uint256) (nTransactionsUpdatedLast : Z) : string :=
  (GetHex tipHash ++ i64tostr nTransactionsUpdatedLast)%string.

(** A client that hands the [longpollid] of a response back watches the tip
    and the counter the response was built on, whatever the tip and the
    counter have become since: with a hash printed on 64 characters that
    [SetHex] reads back, a counter in the range of [unsigned int] that
    [atoi64] reads back from what [i64tostr] prints, the call waits through
    the turns it observes exactly when each of them still shows that tip with
    the server running and either was woken early or found that counter. *)
Theorem longpollid_round_trip (tipHash : uint256) (nTransactionsUpdatedLast : Z)
    (tipNow lastNow : Z) :
  String.length (GetHex tipHash) = 64%nat ->
  SetHex (GetHex tipHash) = tipHash ->
  atoi64 (i64tostr nTransactionsUpdatedLast) = nTransactionsUpdatedLast ->
  (0 <= nTransactionsUpdatedLast < 2 ^ 32)%Z ->
  let w := {| hashWatchedChain := tipHash;
              nTransactionsUpdatedLastLP := nTransactionsUpdatedLast |} in
  let lpval := VSTR (longpollid tipHash nTransactionsUpdatedLast) in
  longpoll_watch SetHex atoi64 lpval tipNow lastNow = Ok (Some w) /\
  forall now obs running_after,
    snd (long_poll SetHex atoi64 lpval tipNow lastNow now obs running_after) = None
    <-> Forall (keeps_waiting w) obs.
Proof.
  intros L H A R w lpval.
  assert (W : longpoll_watch SetHex atoi64 lpval tipNow lastNow = Ok (Some w)).
  { unfold lpval, longpollid, longpoll_watch.
    rewrite length_append, L.
    replace (64 + String.length (i64tostr nTransactionsUpdatedLast) <? 64)%nat
      with false by (symmetry; apply Nat.ltb_ge; lia).
    replace (64 + String.length (i64tostr nTransactionsUpdatedLast) - 64)%nat
      with (String.length (i64tostr nTransactionsUpdatedLast)) by lia.
    rewrite <- L at 1 2. rewrite substring_append_l, substring_append_r.
    rewrite H, A. unfold to_unsigned_int. rewrite Z.mod_small by exact R.
    reflexivity. }
  split; [exact W|]. intros now obs running_after.
  unfold long_poll. rewrite W.
  rewrite <- (wait_loop_waiting_iff w obs (now + 60)).
  destruct (wait_loop w (now + 60) obs) as [evs st]. cbn [snd].
  destruct st as [t' | why t']; cbn [snd].
  - split; [intros _; exists t'; reflexivity | reflexivity].
  - split; [discriminate | intros (t'' & E); discriminate E].
Qed.

End Token.

Fixpoint dec_digits (fuel : nat) (v : Z) : string :=
  match fuel with
  | O => EmptyString
  | S fuel' =>
      let d := String (CctpObjects.hexmap_at (Z.to_N (v mod 10))) EmptyString in
      if (v <? 10)%Z then d else (dec_digits fuel' (v / 10) ++ d)%string
  end.
Definition i64tostr_standin (v : Z) : string :=
  if (v <? 0)%Z then ("-" ++ dec_digits 20 (- v))%string else dec_digits 20 v.

Definition watch_255_17 : watch :=
  {| hashWatchedChain := 255; nTransactionsUpdatedLastLP := 17 |}.

Lemma longpollid_round_trip_witness :
  longpoll_watch SetHex_standin atoi64_standin
    (VSTR (longpollid GetHex_standin i64tostr_standin 255 17)) 5 3
  = Ok (Some watch_255_17) /\
  forall now obs running_after,
    snd (long_poll SetHex_standin atoi64_standin
           (VSTR (longpollid GetHex_standin i64tostr_standin 255 17)) 5 3
           now obs running_after)
    = None
    <-> Forall (keeps_waiting watch_255_17) obs.
Proof.
  apply (longpollid_round_trip GetHex_standin i64tostr_standin SetHex_standin
           atoi64_standin 255 17 5 3).
  - reflexivity.
  - reflexivity.
  - reflexivity.
  - lia.
Defined.

(** *** getgenerate and setgenerate (lines 153-171 and 251-310) *)

(** [mapArgs], the arguments of the process: the newest binding of a name is
    the first in the list and the one a lookup finds. *)
Definition ArgsMap : Type := list (string * string).

Fixpoint args_find (name : string) (m : ArgsMap) : option string :=
  match m with
  | [] => None
  | (k, v) :: rest => if String.eqb k name then Some v else args_find name rest
  end.

Definition args_set (name value : string) (m : ArgsMap) : ArgsMap :=
  (name, value) :: m.

Definition get_bool (v : UniValue) : reply bool :=
  match v with
  | VBOOL b => Return b
  | _ => Throw_runtime_error "JSON value is not a boolean as expected"
  end.

(** The call of [GenerateBitcoins] that ends [setgenerate]. *)
Record GenerateBitcoins_call : Type := {
  fGenerate : bool;
  nThreads : Z
}.

Section Generate.

(** [GetBoolArg] and [itostr] of the utility files. *)
Variable GetBoolArg : ArgsMap -> string -> bool -> bool.
Variable itostr : Z -> string.

Definition getgenerate (mapArgs : ArgsMap) (fHelp : bool) (params : list UniValue)
  : reply UniValue :=
  if fHelp || negb (length params =? 0)%nat
  then Throw_runtime_error "getgenerate help"
  else Return (VBOOL (GetBoolArg mapArgs "-gen" false)).

Definition setgenerate (node : Node) (MineBlocksOnDemand : bool) (mapArgs : ArgsMap)
    (fHelp : bool) (params : list UniValue)
  : reply (ArgsMap * GenerateBitcoins_call) :=
  if fHelp || (length params <? 1)%nat || (2 <? length params)%nat
  then Throw_runtime_error "setgenerate help"
  else
    (of_rpc (require_coinbase_destination node) ;;;
     if MineBlocksOnDemand
     then Throw (RPC_MISC RPC_METHOD_NOT_FOUND)
            "Use the generate method instead of setgenerate on this network"
     else
       fGenerate0 <- (if (0 <? length params)%nat
                      then get_bool (nth 0 params VNULL) else Return true) ;;
       limit <- (if (1 <? length params)%nat
                 then (nGenProcLimit <- get_int (nth 1 params VNULL) ;;
                       Return (nGenProcLimit,
                               if Z.eqb nGenProcLimit 0 then false else fGenerate0))
                 else Return ((-1)%Z, fGenerate0)) ;;
       let nGenProcLimit := fst limit in
       let fGenerate := snd limit in
       let mapArgs := args_set "-gen" (if fGenerate then "1" else "0") mapArgs in
       let mapArgs := args_set "-genproclimit" (itostr nGenProcLimit) mapArgs in
       Return (mapArgs, {| fGenerate := fGenerate; nThreads := nGenProcLimit |}))%reply.

(** What [setgenerate] stores is what [getgenerate] answers afterwards and
    what the miner threads were started with: with a [GetBoolArg] that reads
    the values 1 and 0 as true and false, after a [setgenerate] that returns,
    [getgenerate] returns the flag handed to [GenerateBitcoins].  That flag is
    true exactly when the first parameter is true and the second is not 0;
    the limit is the second parameter, and -1 when there is none; no other
    argument of the process changes.  On a network that mines on demand
    [setgenerate] never returns. *)
Theorem setgenerate_then_getgenerate (node : Node) (MineBlocksOnDemand : bool)
    (mapArgs : ArgsMap) (params : list UniValue) :
  (forall m d, args_find "-gen" m = Some "1" -> GetBoolArg m "-gen" d = true) ->
  (forall m d, args_find "-gen" m = Some "0" -> GetBoolArg m "-gen" d = false) ->
  (MineBlocksOnDemand = true ->
   forall r, setgenerate node MineBlocksOnDemand mapArgs false params <> Return r) /\
  (forall mapArgs' call,
     setgenerate node MineBlocksOnDemand mapArgs false params
     = Return (mapArgs', call) ->
     getgenerate mapArgs' false [] = Return (VBOOL (fGenerate call)) /\
     (fGenerate call = true <->
      nth 0 params VNULL = VBOOL true /\ nth 1 params VNULL <> VNUM 0) /\
     args_find "-genproclimit" mapArgs' = Some (itostr (nThreads call)) /\
     (length params = 1%nat -> nThreads call = (-1)%Z) /\
     (forall n, nth 1 params VNULL = VNUM n -> nThreads call = n) /\
     (forall name, name <> "-gen" -> name <> "-genproclimit" ->
                   args_find name mapArgs' = args_find name mapArgs)).
Proof.
  intros G1 G0. unfold setgenerate. split.
  - intros -> r.
    destruct (false || (length params <? 1)%nat || (2 <? length params)%nat);
      [discriminate|].
    destruct (require_coinbase_destination node) as [[] | | |]; discriminate.
  - intros mapArgs' call.
    destruct params as [|p0 [|p1 [|p2 rest]]];
      cbn [length Nat.ltb Nat.leb orb nth]; try discriminate.
    + destruct (require_coinbase_destination node) as [[] | | |];
        cbn [of_rpc reply_bind]; try discriminate.
      destruct MineBlocksOnDemand; [discriminate|].
      destruct p0 as [| b | | | |]; cbn [get_bool reply_bind]; try discriminate.
      cbn [fst snd]. intros E. injection E as <- <-.
      cbn [fGenerate nThreads]. unfold getgenerate. cbn [length Nat.eqb negb orb].
      split; [|split; [|split; [|split; [|split]]]].
      * destruct b; [rewrite G1 by reflexivity | rewrite G0 by reflexivity];
          reflexivity.
      * split; [intros ->; split; [reflexivity | discriminate]|].
        intros (B & _). injection B as ->. reflexivity.
      * reflexivity.
      * reflexivity.
      * discriminate.
      * intros name N1 N2. cbn [args_set args_find].
        apply String.eqb_neq in N1, N2. rewrite String.eqb_sym in N1, N2.
        rewrite N1, N2. reflexivity.
    + destruct (require_coinbase_destination node) as [[] | | |];
        cbn [of_rpc reply_bind]; try discriminate.
      destruct MineBlocksOnDemand; [discriminate|].
      destruct p0 as [| b | | | |]; cbn [get_bool reply_bind]; try discriminate.
      destruct p1 as [| | n | | |]; cbn [get_int reply_bind]; try discriminate.
      destruct ((INT_MIN <=? n) && (n <=? INT_MAX))%Z; cbn [reply_bind];
        [|discriminate].
      cbn [fst snd]. intros E. injection E as <- <-.
      cbn [fGenerate nThreads]. unfold getgenerate. cbn [length Nat.eqb negb orb].
      split; [|split; [|split; [|split; [|split]]]].
      * destruct (if Z.eqb n 0 then false else b);
          [rewrite G1 by reflexivity | rewrite G0 by reflexivity]; reflexivity.
      * destruct (Z.eqb_spec n 0) as [-> | N].
        -- split; [discriminate | intros (_ & C); exfalso; apply C; reflexivity].
        -- split; [intros ->; split; [reflexivity | congruence]|].
           intros (B & _). injection B as ->. reflexivity.
      * reflexivity.
      * discriminate.
      * intros n' E. injection E as <-. reflexivity.
      * intros name N1 N2. cbn [args_set args_find].
        apply String.eqb_neq in N1, N2. rewrite String.eqb_sym in N1, N2.
        rewrite N1, N2. reflexivity.
Qed.

End Generate.

(** [GetBoolArg] as the utility file has it: an argument that is set reads
    as true when empty and otherwise as its number is not zero. *)
Definition GetBoolArg_standin (m : ArgsMap) (name : string) (fDefault : bool) : bool :=
  match args_find name m with
  | Some value =>
      if String.eqb value "" then true else negb (Z.eqb (atoi64_standin value) 0)
  | None => fDefault
  end.

Lemma setgenerate_then_getgenerate_witness :
  (false = true ->
   forall r, setgenerate i64tostr_standin regtest_node false [("-gen", "1")] false
               [VBOOL true; VNUM 0] <> Return r) /\
  (forall mapArgs' call,
     setgenerate i64tostr_standin regtest_node false [("-gen", "1")] false
       [VBOOL true; VNUM 0]
     = Return (mapArgs', call) ->
     getgenerate GetBoolArg_standin mapArgs' false [] = Return (VBOOL (fGenerate call)) /\
     (fGenerate call = true <->
      nth 0 [VBOOL true; VNUM 0] VNULL = VBOOL true /\
      nth 1 [VBOOL true; VNUM 0] VNULL <> VNUM 0) /\
     args_find "-genproclimit" mapArgs' = Some (i64tostr_standin (nThreads call)) /\
     (length [VBOOL true; VNUM 0] = 1%nat -> nThreads call = (-1)%Z) /\
     (forall n, nth 1 [VBOOL true; VNUM 0] VNULL = VNUM n -> nThreads call = n) /\
     (forall name, name <> "-gen" -> name <> "-genproclimit" ->
                   args_find name mapArgs' = args_find name [("-gen", "1")])).
Proof.
  apply (setgenerate_then_getgenerate GetBoolArg_standin i64tostr_standin
           regtest_node false [("-gen", "1")] [VBOOL true; VNUM 0]).
  - intros m d E. unfold GetBoolArg_standin. rewrite E. reflexivity.
  - intros m d E. unfold GetBoolArg_standin. rewrite E. reflexivity.
Defined.

(** Asked to generate with no processor, a node that was generating stops:
    the stored flag is 0 and [getgenerate] answers false. *)
Example setgenerate_with_no_processor :
  exists mapArgs' call,
    setgenerate i64tostr_standin regtest_node false [("-gen", "1")] false
      [VBOOL true; VNUM 0] = Return (mapArgs', call) /\
    fGenerate call = false /\
    getgenerate GetBoolArg_standin [("-gen", "1")] false [] = Return (VBOOL true) /\
    getgenerate GetBoolArg_standin mapArgs' false [] = Return (VBOOL false).
Proof. eexists. eexists. split; [reflexivity|]. repeat split. Qed.

End MiningCalls.

(* ================================================================== *)
(** ** rawtransaction.cpp: the certificate parameters of createrawcertificate *)

Module RawCertificate.

Import Sidechain Mining.

Local Open Scope string_scope.
Local Open Scope list_scope.

(** What the call does from line 1113 on: it goes on, throws a JSON-RPC
    error, throws a runtime error from a [UniValue] getter, or dies on an
    assertion. *)
Inductive step (A : Type) : Type :=
| Built (a : A)
| Throws (code : RPCErrorCode) (message : string)
| Throws_runtime_error (what : string)
| AssertionFails (assertion : string).
Arguments Built {A} a.
Arguments Throws {A} code message.
Arguments Throws_runtime_error {A} what.
Arguments AssertionFails {A} assertion.

Definition step_bind {A B} (m : step A) (k : A -> step B) : step B :=
  match m with
  | Built a => k a
  | Throws c msg => Throws c msg
  | Throws_runtime_error w => Throws_runtime_error w
  | AssertionFails a => AssertionFails a
  end.

Declare Scope step_scope.
Delimit Scope step_scope with step.
Notation "x <- m ;; k" := (step_bind m (fun x => k))
  (at level 61, m at next level, right associativity) : step_scope.

Definition of_rpc {A} (r : rpc A) : step A :=
  match r with
  | Ok a => Built a
  | JSONRPCError c msg => Throws c msg
  | runtime_error w => Throws_runtime_error w
  | out_of_range w => Throws_runtime_error w
  end.

Definition isObject (v : UniValue) : bool :=
  match v with VOBJ _ => true | _ => false end.

Definition getKeys (v : UniValue) : list string :=
  match v with VOBJ members => map fst members | _ => [] end.

Definition get_str (v : UniValue) : step string :=
  match v with
  | VSTR s => Built s
  | _ => Throws_runtime_error "JSON value is not a string as expected"
  end.

Definition get_int (v : UniValue) : step Z :=
  match v with
  | VNUM n =>
      if ((- 2 ^ 31 <=? n) && (n <=? 2 ^ 31 - 1))%Z then Built n
      else Throws_runtime_error "JSON integer out of range"
  | _ => Throws_runtime_error "JSON value is not an integer as expected"
  end.

Definition get_int64 (v : UniValue) : step Z :=
  match v with
  | VNUM n =>
      if ((- 2 ^ 63 <=? n) && (n <=? 2 ^ 63 - 1))%Z then Built n
      else Throws_runtime_error "JSON integer out of range"
  | _ => Throws_runtime_error "JSON value is not an integer as expected"
  end.

(** Line 1120. *)
Definition validKeyArgs : list string :=
  ["scid"; "withdrawalEpochNumber"; "quality"; "endEpochBlockHash";
   "endEpochCumScTxCommTreeRoot"; "scProof"; "vFieldElementCertificateField";
   "vBitVectorCertificateField"; "ftScFee"; "mbtrScFee"].

(** [std::set<std::string>::count]. *)
Definition count (s : string) (set : list string) : bool :=
  existsb (String.eqb s) set.

(** The loop of lines 1125-1134 over the keys that are left, with the keys
    met so far. *)
Fixpoint check_keys (keys : list string) (setKeyArgs : list string)
  : rpc (list string) :=
  match keys with
  | [] => Ok setKeyArgs
  | s :: rest =>
      if negb (count s validKeyArgs)
      then JSONRPCError RPC_INVALID_PARAMETER ("Invalid parameter, unknown key: " ++ s)
      else if count s setKeyArgs
      then JSONRPCError RPC_INVALID_PARAMETER ("Duplicate key in input: " ++ s)
      else check_keys rest (s :: setKeyArgs)
  end.

(** The character that opens and closes a name in a message. *)
Definition quote : string := String "034"%char EmptyString.

Definition missing (name : string) : string :=
  "Missing mandatory parameter in input: " ++ quote ++ name ++ quote.

(** The shape of lines 1137-1145 and of the four that follow: the value of a
    key that was given, or the error that names the key. *)
Definition mandatory {A} (setKeyArgs : list string) (cert_params : UniValue)
    (name : string) (read : UniValue -> step A) : step A :=
  if count name setKeyArgs then read (find_value cert_params name)
  else Throws RPC_INVALID_PARAMETER (missing name).

Record certificate_head : Type := {
  scId : uint256;
  epochNumber : Z;
  quality : Z;
  endEpochBlockHash : uint256;
  endEpochCumScTxCommTreeRoot : CFieldElement
}.

Section Parameters.

Variable SC_FIELD_SIZE : nat.
Variable SetHex : string -> uint256.
(** [Sidechain::AddScData(input, bytes, size, enforceStrictSize, error)]: the
    bytes, or the error text. *)
Variable AddScData : string -> nat -> bool -> string + list byte.

(** [CFieldElement(const std::vector<unsigned char>&)] of sidechaintypes.cpp,
    lines 85-88. *)
Definition CFieldElement_of_bytes (byteArrayIn : list byte) : step CFieldElement :=
  if (length byteArrayIn =? ByteSize SC_FIELD_SIZE)%nat
  then Built {| byteVector := byteArrayIn |}
  else AssertionFails "byteArrayIn.size() == this->ByteSize()".

(** Lines 1183-1200, on the value of the key. *)
Definition read_root (v : UniValue) : step CFieldElement :=
  (inputString <- get_str v ;;
   match AddScData inputString (ByteSize SC_FIELD_SIZE) false with
   | inl errorStr =>
       Throws RPC_INVALID_PARAMETER ("end cum commitment tree root: " ++ errorStr)
   | inr aByteArray => CFieldElement_of_bytes aByteArray
   end)%step.

(** Lines 1113-1200 of [createrawcertificate]. *)
Definition certificate_parameters (cert_params : UniValue) : step certificate_head :=
  if negb (isObject cert_params)
  then Throws RPC_INVALID_PARAMETER "Invalid parameter, expected object"
  else
    (setKeyArgs <- of_rpc (check_keys (getKeys cert_params) []) ;;
     scId <- mandatory setKeyArgs cert_params "scid"
               (fun v => inputString <- get_str v ;; Built (SetHex inputString)) ;;
     withdrawalEpochNumber <-
       mandatory setKeyArgs cert_params "withdrawalEpochNumber" get_int ;;
     quality <- mandatory setKeyArgs cert_params "quality"
                  (fun v => quality <- get_int64 v ;;
                            if (quality <? 0)%Z
                            then Throws RPC_INVALID_PARAMETER
                                   ("Invalid parameter " ++ quote ++ "quality" ++ quote
                                    ++ ": must be a positive number")
                            else Built quality) ;;
     endEpochBlockHash <-
       mandatory setKeyArgs cert_params "endEpochBlockHash"
         (fun v => inputString <- get_str v ;; Built (SetHex inputString)) ;;
     endEpochCumScTxCommTreeRoot <-
       mandatory setKeyArgs cert_params "endEpochCumScTxCommTreeRoot" read_root ;;
     Built {| scId := scId; epochNumber := withdrawalEpochNumber;
              quality := quality; endEpochBlockHash := endEpochBlockHash;
              endEpochCumScTxCommTreeRoot := endEpochCumScTxCommTreeRoot |})%step.

End Parameters.

Lemma count_In (s : string) (set : list string) : count s set = true <-> In s set.
Proof.
  unfold count. rewrite existsb_exists. split.
  - intros (x & I & E). apply String.eqb_eq in E. subst x. exact I.
  - intros I. exists s. split; [exact I | apply String.eqb_refl].
Qed.

Lemma check_keys_from (keys : list string) :
  forall seen setKeyArgs,
    (forall k, In k setKeyArgs <-> In k seen) ->
    NoDup seen -> Forall (fun k => In k validKeyArgs) seen ->
    match check_keys keys setKeyArgs with
    | Ok set =>
        NoDup (seen ++ keys) /\ Forall (fun k => In k validKeyArgs) (seen ++ keys) /\
        (forall k, In k set <-> In k (seen ++ keys))
    | JSONRPCError c msg =>
        c = RPC_INVALID_PARAMETER /\
        exists before s after,
          keys = before ++ s :: after /\
          NoDup (seen ++ before) /\
          Forall (fun k => In k validKeyArgs) (seen ++ before) /\
          ((~ In s validKeyArgs /\ msg = ("Invalid parameter, unknown key: " ++ s)%string) \/
           (In s validKeyArgs /\ In s (seen ++ before) /\
            msg = ("Duplicate key in input: " ++ s)%string))
    | _ => False
    end.
Proof.
  induction keys as [|s rest IH]; intros seen set Same ND V; cbn [check_keys].
  - rewrite app_nil_r. auto.
  - destruct (count s validKeyArgs) eqn:Valid; cbn [negb].
    2:{ split; [reflexivity|]. exists [], s, rest. rewrite app_nil_r.
        split; [reflexivity|]. split; [exact ND|]. split; [exact V|]. left.
        split; [|reflexivity]. intros I. apply count_In in I. congruence. }
    apply count_In in Valid.
    destruct (count s set) eqn:Seen.
    { apply count_In in Seen. split; [reflexivity|]. exists [], s, rest.
      rewrite app_nil_r. split; [reflexivity|]. split; [exact ND|].
      split; [exact V|]. right. split; [exact Valid|].
      split; [apply Same; exact Seen | reflexivity]. }
    assert (New : ~ In s seen).
    { intros I. apply Same in I. apply count_In in I. congruence. }
    assert (ND' : NoDup (seen ++ [s])).
    { apply NoDup_app; [exact ND | constructor; [intros [] | constructor]|].
      intros a Ia [<- | []]. exact (New Ia). }
    assert (V' : Forall (fun k => In k validKeyArgs) (seen ++ [s])).
    { apply Forall_app. split; [exact V | constructor; [exact Valid | constructor]]. }
    assert (Same' : forall k, In k (s :: set) <-> In k (seen ++ [s])).
    { intros k. rewrite in_app_iff. cbn [In]. rewrite Same. tauto. }
    specialize (IH (seen ++ [s]) (s :: set) Same' ND' V').
    rewrite <- app_assoc in IH. cbn [app] in IH.
    destruct (check_keys rest (s :: set)) as [set' | c msg | |]; try exact IH.
    destruct IH as (C & before & k & after & E & NDb & Vb & Why).
    split; [exact C|]. exists (s :: before), k, after.
    rewrite <- app_assoc in NDb, Vb, Why. cbn [app] in NDb, Vb, Why.
    split; [rewrite E; reflexivity|]. split; [exact NDb|]. split; [exact Vb|].
    exact Why.
Qed.

(** The key check of [createrawcertificate] lets a list of keys through
    exactly when each of them is one of the ten known keys and none comes
    twice, and then it has collected exactly those keys.  Otherwise it throws
    RPC_INVALID_PARAMETER for the first key that is unknown or was met before,
    and says which of the two it is. *)
Theorem check_keys_first_offender (keys : list string) :
  match check_keys keys [] with
  | Ok set =>
      NoDup keys /\ Forall (fun k => In k validKeyArgs) keys /\
      (forall k, count k set = true <-> In k keys)
  | JSONRPCError c msg =>
      c = RPC_INVALID_PARAMETER /\
      exists before s after,
        keys = before ++ s :: after /\
        NoDup before /\ Forall (fun k => In k validKeyArgs) before /\
        ((~ In s validKeyArgs /\ msg = ("Invalid parameter, unknown key: " ++ s)%string) \/
         (In s validKeyArgs /\ In s before /\ msg = ("Duplicate key in input: " ++ s)%string))
  | _ => False
  end.
Proof.
  pose proof (check_keys_from keys [] [] (fun k => iff_refl _) (NoDup_nil _)
                (Forall_nil _)) as G.
  cbn [app] in G.
  destruct (check_keys keys []) as [set | c msg | |]; try exact G.
  destruct G as (ND & V & Same). split; [exact ND|]. split; [exact V|].
  intros k. rewrite count_In. apply Same.
Qed.

Lemma find_member_In (members : list (string * UniValue)) (name : string) :
  find_member members name <> VNULL -> In name (map fst members).
Proof.
  induction members as [|[k v] rest IH]; cbn [find_member map fst In].
  - intros N. exfalso. apply N. reflexivity.
  - destruct (String.eqb_spec k name) as [-> | _]; [left; reflexivity|].
    intros N. right. apply IH. exact N.
Qed.

Lemma check_keys_accepts (keys : list string) :
  NoDup keys -> Forall (fun k => In k validKeyArgs) keys ->
  exists set, check_keys keys [] = Ok set /\
              forall k, In k keys -> count k set = true.
Proof.
  intros ND V.
  pose proof (check_keys_from keys [] [] (fun k => iff_refl _) (NoDup_nil _)
                (Forall_nil _)) as G.
  cbn [app] in G.
  destruct (check_keys keys []) as [set | c msg | |]; try contradiction.
  - exists set. split; [reflexivity|]. intros k I. apply count_In.
    apply (proj2 (proj2 G)). exact I.
  - exfalso. destruct G as (_ & before & s & after & -> & _ & _ & Why).
    destruct Why as [(U & _) | (_ & D & _)].
    + apply U. rewrite Forall_forall in V. apply V.
      apply in_or_app. right. left. reflexivity.
    + apply NoDup_remove_2 in ND. apply ND. apply in_or_app. left. exact D.
Qed.

Section Root.

Variable SC_FIELD_SIZE : nat.
Variable SetHex : string -> uint256.
Variable AddScData : string -> nat -> bool -> string + list byte.

(** A certificate root that [AddScData], told to check the upper limit of the
    size only, lets through with another number of bytes than a field element
    has ends the process on the assertion of the [CFieldElement] constructor:
    on an object of known keys, none twice, whose scid, epoch number, quality
    and end epoch block hash are of the right type and in range, the call
    goes on with the five values read exactly when the root has
    [ByteSize()] bytes, and dies on the assertion otherwise. *)
Theorem certificate_root_assertion (members : list (string * UniValue))
    (scid hash root : string) (epoch q : Z) (aByteArray : list byte) :
  NoDup (map fst members) ->
  Forall (fun k => In k validKeyArgs) (map fst members) ->
  find_member members "scid" = VSTR scid ->
  find_member members "withdrawalEpochNumber" = VNUM epoch ->
  (- 2 ^ 31 <= epoch <= 2 ^ 31 - 1)%Z ->
  find_member members "quality" = VNUM q ->
  (0 <= q <= 2 ^ 63 - 1)%Z ->
  find_member members "endEpochBlockHash" = VSTR hash ->
  find_member members "endEpochCumScTxCommTreeRoot" = VSTR root ->
  AddScData root (ByteSize SC_FIELD_SIZE) false = inr aByteArray ->
  certificate_parameters SC_FIELD_SIZE SetHex AddScData (VOBJ members) =
  if (length aByteArray =? ByteSize SC_FIELD_SIZE)%nat
  then Built {| scId := SetHex scid; epochNumber := epoch; quality := q;
                endEpochBlockHash := SetHex hash;
                endEpochCumScTxCommTreeRoot := {| byteVector := aByteArray |} |}
  else AssertionFails "byteArrayIn.size() == this->ByteSize()".
Proof.
  intros ND V S E ER Q QR H R A.
  destruct (check_keys_accepts _ ND V) as (set & C & In_set).
  unfold certificate_parameters. cbn [isObject negb getKeys].
  rewrite C. cbn [of_rpc step_bind]. unfold mandatory. cbn [find_value].
  rewrite (In_set "scid") by (apply find_member_In; rewrite S; discriminate).
  rewrite S. cbn [get_str step_bind].
  rewrite (In_set "withdrawalEpochNumber")
    by (apply find_member_In; rewrite E; discriminate).
  rewrite E. cbn [get_int].
  replace ((- 2 ^ 31 <=? epoch) && (epoch <=? 2 ^ 31 - 1))%Z with true
    by (symmetry; apply andb_true_iff; split; apply Z.leb_le; lia).
  cbn [step_bind].
  rewrite (In_set "quality") by (apply find_member_In; rewrite Q; discriminate).
  rewrite Q. cbn [get_int64].
  replace ((- 2 ^ 63 <=? q) && (q <=? 2 ^ 63 - 1))%Z with true
    by (symmetry; apply andb_true_iff; split; apply Z.leb_le; lia).
  cbn [step_bind].
  replace (q <? 0)%Z with false by (symmetry; apply Z.ltb_ge; lia).
  cbn [step_bind].
  rewrite (In_set "endEpochBlockHash")
    by (apply find_member_In; rewrite H; discriminate).
  rewrite H. cbn [get_str step_bind].
  rewrite (In_set "endEpochCumScTxCommTreeRoot")
    by (apply find_member_In; rewrite R; discriminate).
  rewrite R. unfold read_root. cbn [get_str step_bind]. rewrite A.
  unfold CFieldElement_of_bytes.
  destruct (length aByteArray =? ByteSize SC_FIELD_SIZE)%nat; reflexivity.
Qed.

End Root.

(** [AddScData] as a reader of hexadecimal digits that checks the size of
    what it has read: exactly, or against the upper limit only. *)
Definition AddScData_standin (inputString : string) (size : nat) (strict : bool)
  : string + list byte :=
  match CctpObjects.bytes_of_hex inputString with
  | None => inl "Invalid format: not an hex"
  | Some bytes =>
      if (if strict then (length bytes =? size)%nat else (length bytes <=? size)%nat)
      then inr bytes
      else inl "Invalid length"
  end.

Definition short_root : list (string * UniValue) :=
  [("scid", VSTR "0a"); ("withdrawalEpochNumber", VNUM 3%Z); ("quality", VNUM 10%Z);
   ("endEpochBlockHash", VSTR "0b"); ("endEpochCumScTxCommTreeRoot", VSTR "07")].

Lemma certificate_root_assertion_witness :
  certificate_parameters 32 SetHex_standin AddScData_standin (VOBJ short_root) =
  if (length [x07] =? ByteSize 32)%nat
  then Built {| scId := SetHex_standin "0a"; epochNumber := 3%Z; quality := 10%Z;
                endEpochBlockHash := SetHex_standin "0b";
                endEpochCumScTxCommTreeRoot := {| byteVector := [x07] |} |}
  else AssertionFails "byteArrayIn.size() == this->ByteSize()".
Proof.
  apply (certificate_root_assertion 32 SetHex_standin AddScData_standin short_root
           "0a" "0b" "07" 3%Z 10%Z [x07]).
  - repeat constructor; cbn; intuition discriminate.
  - repeat constructor; cbn; tauto.
  - reflexivity.
  - reflexivity.
  - lia.
  - reflexivity.
  - lia.
  - reflexivity.
  - reflexivity.
  - reflexivity.
Defined.

(** One byte where a field element has 32: the node stops. *)
Example short_root_stops_the_node :
  certificate_parameters 32 SetHex_standin AddScData_standin (VOBJ short_root)
  = AssertionFails "byteArrayIn.size() == this->ByteSize()".
Proof. reflexivity. Qed.

End RawCertificate.
